(** * Judgment-analysis ingestion pipeline: a shallow embedding

    The Python sources [database.py] and [main.py] are embedded as Rocq
    functions over Python-like strings.  A Python [str] is a list of
    characters; the embedding covers ASCII text (code points 0..127): case
    mapping, [\d], [\s], [\w] and [str.isspace] are the ASCII restrictions of
    Python's, and the code points 128..255 of [ascii] stand for caseless
    symbols that are neither digits, nor spaces, nor word characters.
    Python's [None] is [None] of [option]. *)

From Stdlib Require Import List Ascii ZArith Lia Bool Arith.
Import ListNotations.

Set Implicit Arguments.
Set Warnings "-via-type-remapping,-via-type-mismatch".

(** ** Python strings *)

Definition str := list ascii.

Inductive str_lit := LNil | LCons (a : ascii) (s : str_lit).

Fixpoint lit_of_bytes (l : list Byte.byte) : str_lit :=
  match l with
  | [] => LNil
  | b :: t => LCons (ascii_of_byte b) (lit_of_bytes t)
  end.

Fixpoint bytes_of_lit (s : str_lit) : list Byte.byte :=
  match s with
  | LNil => []
  | LCons a t => byte_of_ascii a :: bytes_of_lit t
  end.

Declare Scope pystr_scope.
Delimit Scope pystr_scope with py.
String Notation str lit_of_bytes bytes_of_lit
  (via str_lit mapping [[nil] => LNil, [cons] => LCons]) : pystr_scope.
Open Scope pystr_scope.
Open Scope list_scope.

Module PyStr.

(** Character classes, on code points. *)
Definition code (c : ascii) : nat := nat_of_ascii c.

Definition between (lo hi : nat) (c : ascii) : bool :=
  (lo <=? code c) && (code c <=? hi).

Definition is_digit (c : ascii) : bool := between 48 57 c.
Definition is_upper (c : ascii) : bool := between 65 90 c.
Definition is_lower (c : ascii) : bool := between 97 122 c.
Definition is_alpha (c : ascii) : bool := is_upper c || is_lower c.

(** [str.isspace] and [\s] on ASCII: TAB..CR, FS..US and the blank. *)
Definition is_space (c : ascii) : bool :=
  between 9 13 c || between 28 32 c.

(** [\w] on ASCII. *)
Definition is_word (c : ascii) : bool :=
  is_alpha c || is_digit c || Ascii.eqb c "_".

Definition lower_c (c : ascii) : ascii :=
  if is_upper c then ascii_of_nat (code c + 32) else c.

Definition upper_c (c : ascii) : ascii :=
  if is_lower c then ascii_of_nat (code c - 32) else c.

(** [s.lower()], [s.upper()] on ASCII text: the letters A..Z and a..z are
    mapped and every other character is left alone.  Python's mappings of
    the characters beyond ASCII (for one, of the sharp s to "SS") are outside
    the embedding: a statement that compares a text with its case-mapped
    form is made for texts of ASCII characters. *)
Definition lower (s : str) : str := map lower_c s.
Definition upper (s : str) : str := map upper_c s.

(** [s.startswith(p)] *)
Fixpoint startswith (p s : str) : bool :=
  match p, s with
  | [], _ => true
  | a :: p', b :: s' => Ascii.eqb a b && startswith p' s'
  | _ :: _, [] => false
  end.

(** [needle in hay] *)
Fixpoint str_in (needle hay : str) : bool :=
  startswith needle hay
  || match hay with
     | [] => false
     | _ :: tl => str_in needle tl
     end.

Fixpoint str_eqb (a b : str) : bool :=
  match a, b with
  | [], [] => true
  | x :: a', y :: b' => Ascii.eqb x y && str_eqb a' b'
  | _, _ => false
  end.

(** [x in [l1, l2, ...]] for a list of strings *)
Definition str_mem (x : str) (l : list str) : bool := existsb (str_eqb x) l.

Fixpoint drop_while (p : ascii -> bool) (s : str) : str :=
  match s with
  | [] => []
  | c :: tl => if p c then drop_while p tl else s
  end.

(** [s.lstrip(chars)], [s.rstrip(chars)], [s.strip(chars)] with the set of
    characters given as a predicate; [py_strip] is [s.strip()]. *)
Definition lstrip_by (p : ascii -> bool) (s : str) : str := drop_while p s.
Definition rstrip_by (p : ascii -> bool) (s : str) : str :=
  rev (drop_while p (rev s)).
Definition strip_by (p : ascii -> bool) (s : str) : str :=
  rstrip_by p (lstrip_by p s).

Definition py_strip (s : str) : str := strip_by is_space s.

Definition one_of (cs : str) (c : ascii) : bool := existsb (Ascii.eqb c) cs.

(** [s.replace(old, new)]: occurrences are replaced left to right and do not
    overlap.  [skip] counts the characters of the occurrence being replaced
    that are still to be passed over.  An empty [old] inserts [new] around
    every character. *)
Fixpoint replace_go (old new : str) (s : str) (skip : nat) : str :=
  match s with
  | [] => []
  | c :: tl =>
      match skip with
      | S k => replace_go old new tl k
      | O =>
          if startswith old s
          then new ++ replace_go old new tl (length old - 1)
          else c :: replace_go old new tl 0
      end
  end.

Definition replace (old new s : str) : str :=
  match old with
  | [] => new ++ flat_map (fun c => c :: new) s
  | _ :: _ => replace_go old new s 0
  end.

(** [s.split(sep)] for a one-character separator. *)
Fixpoint split_on (sep : ascii) (s : str) : list str :=
  match s with
  | [] => [[]]
  | c :: tl =>
      if Ascii.eqb c sep then [] :: split_on sep tl
      else match split_on sep tl with
           | [] => [[c]]
           | w :: ws => (c :: w) :: ws
           end
  end.

(** [s.title()]: a cased character is upper-cased after an uncased one and
    lower-cased after a cased one. *)
Fixpoint title_go (prev_cased : bool) (s : str) : str :=
  match s with
  | [] => []
  | c :: tl =>
      if is_lower c
      then (if prev_cased then c else upper_c c) :: title_go true tl
      else if is_upper c
      then (if prev_cased then lower_c c else c) :: title_go true tl
      else c :: title_go false tl
  end.

Definition title (s : str) : str := title_go false s.

(** [sep.join(parts)] *)
Fixpoint join (sep : str) (parts : list str) : str :=
  match parts with
  | [] => []
  | [p] => p
  | p :: ps => p ++ sep ++ join sep ps
  end.

(** Truthiness of a string: [if s:] *)
Definition nonempty (s : str) : bool :=
  match s with [] => false | _ :: _ => true end.

End PyStr.

Import PyStr.

(** ** District canonicalizer ([database.py], [normalize_district]) *)

Module District.

(** The Ranga Reddy alias substrings, in the order of the source. *)
Definition ranga_reddy_aliases : list str :=
  [ "ranga"; "r.r"; "rr"; "r r"; "r. r"; "cyberabad"; "raidurgam";
    "maheshwar"; "l.b"; "rajendranagar"; "ibrahimpatnam"; "alkapoor";
    "serilingampally" ].

Definition placeholders : list str :=
  [ "not mentioned"; "not specified"; "unknown"; "[]"; "[district]";
    "not provided"; "not specified in the provided text" ].

(** [normalize_district(district_name)].  The argument may be [None] (a
    missing value); the result [None] is the signal to skip the record. *)
Definition normalize_district (district_name : option str) : option str :=
  match district_name with
  | None => Some "Unknown"
  | Some [] => Some "Unknown"
  | Some name =>
      let d := lower (py_strip name) in
      if existsb (fun x => str_in x d) ranga_reddy_aliases
      then Some "Ranga Reddy"
      else if str_in "lucknow" d then None
      else if str_in "nalgonda" d || str_in "miryalaguda" d
              || str_in "yadadri" d || str_in "bhongir" d
      then Some "Nalgonda"
      else if str_in "mahabubnagar" d || str_in "nagarkurnool" d
              || str_in "wanaparthy" d || str_in "jogulamba" d
              || str_in "gadwal" d
      then Some "Mahabubnagar"
      else if str_in "nizamabad" d || str_in "pali" d
              || str_in "ramareddy" d || str_in "dichpally" d
              || str_in "kamareddy" d || str_in "yellareddy" d
      then Some "Nizamabad"
      else if str_in "adilabad" d then Some "Adilabad"
      else if str_in "karimnagar" d then Some "Karimnagar"
      else if str_in "khammam" d || str_in "bhadradri" d then Some "Khammam"
      else if str_in "warangal" d || str_in "hanamkonda" d then Some "Warangal"
      else if str_in "sangareddy" d then Some "Sangareddy"
      else if str_in "siddipet" d then Some "Siddipet"
      else if str_in "medak" d then Some "Medak"
      else if str_in "hyderabad" d || str_in "secunderabad" d
      then Some "Hyderabad"
      else if str_in "medchal" d || str_in "malkajgiri" d
              || str_in "kukatpally" d
      then Some "Medchal-Malkajgiri"
      else if str_in "vikarabad" d then Some "Vikarabad"
      else
        let clean :=
          py_strip (replace "." [] (replace "dist" [] (replace "district" [] d))) in
        if str_eqb clean "r r" then Some "Ranga Reddy"
        else if negb (nonempty clean) || str_mem clean placeholders
        then Some "Unknown"
        else Some (title clean)
  end.

(** The fixed canonical names of the rules, and the placeholder result. *)
Definition canonical_names : list str :=
  [ "Ranga Reddy"; "Nalgonda"; "Mahabubnagar"; "Nizamabad"; "Adilabad";
    "Karimnagar"; "Khammam"; "Warangal"; "Sangareddy"; "Siddipet"; "Medak";
    "Hyderabad"; "Medchal-Malkajgiri"; "Vikarabad"; "Unknown" ].

End District.

(** ** Outcome classifier ([main.py], [extract_outcome_from_filename]) *)

Module Outcome.

Definition conviction_keywords : list str :=
  [ "found guilty"; "convicted"; "guilty of all charges"; "conviction" ].

Definition acquittal_keywords : list str :=
  [ "acquitted"; "acquittal"; "not guilty" ].

Definition extract_outcome_from_filename (filename legal_summary : str) : str :=
  let upper := upper filename in
  if startswith "ACQUITTED" upper then "Acquitted"
  else if startswith "CONVICTED" upper || startswith "CONVICTION" upper
  then "Convicted"
  else if nonempty legal_summary then
    let lower := lower legal_summary in
    if existsb (fun kw => str_in kw lower) conviction_keywords
    then "Convicted"
    else if existsb (fun kw => str_in kw lower) acquittal_keywords
    then "Acquitted"
    else "Unknown"
  else "Unknown".

End Outcome.

(** ** Regular expressions with Python's backtracking semantics

    (In the comments a literal star of a pattern is written [[*]].)  A pattern of [re] is written as a term of [re]; [rmatch] explores the
    alternatives in Python's priority order (left alternative first, greedy
    repetition longest first, lazy repetition shortest first) and passes the
    state reached to a continuation, so a later failure backtracks into the
    earlier choices.  An iteration of a repetition that consumes nothing ends
    the repetition. *)

Module Re.

Inductive greed := Greedy | Lazy.

Inductive re : Type :=
| Empty
| Chr (p : ascii -> bool)          (* one character of a class *)
| Cat (r1 r2 : re)
| Alt (r1 r2 : re)                 (* r1|r2 *)
| Star (g : greed) (r : re)        (* r* and r*? *)
| Group (n : nat) (r : re)         (* capturing group number n *)
| Bol (multiline : bool)           (* ^ *)
| Eol (multiline : bool)           (* $ *)
| WordB                            (* \b *)
| Ahead (r : re).                  (* (?=r) *)

(** Matcher state: the character before the current position, the text from
    the current position on, and the groups captured so far (latest first). *)
Record mstate := MState {
  prev : option ascii;
  rest : str;
  caps : list (nat * str)
}.

Definition step (c : ascii) (tl : str) (st : mstate) : mstate :=
  MState (Some c) tl (caps st).

Definition set_cap (n : nat) (w : str) (st : mstate) : mstate :=
  MState (prev st) (rest st) ((n, w) :: caps st).

Definition newline : ascii := ascii_of_nat 10.

Definition at_bol (multiline : bool) (st : mstate) : bool :=
  match prev st with
  | None => true
  | Some c => multiline && Ascii.eqb c newline
  end.

(** [$] matches at the end and before a final newline; with MULTILINE before
    every newline. *)
Definition at_eol (multiline : bool) (st : mstate) : bool :=
  match rest st with
  | [] => true
  | c :: tl => Ascii.eqb c newline
               && (multiline || match tl with [] => true | _ :: _ => false end)
  end.

Definition at_wordb (st : mstate) : bool :=
  xorb (match prev st with Some c => is_word c | None => false end)
       (match rest st with c :: _ => is_word c | [] => false end).

(** The repetition of [body], which matches one iteration: a greedy one
    tries one more iteration before it goes on with [k], a lazy one goes on
    with [k] first.  [fuel] is the length of the text left, which every
    iteration shortens. *)
Fixpoint star_loop (body : mstate -> (mstate -> option mstate) -> option mstate)
  (g : greed) (k : mstate -> option mstate) (fuel : nat) (st : mstate)
  {struct fuel} : option mstate :=
  match fuel with
  | O => k st
  | S f =>
      match g with
      | Greedy =>
          match body st (fun st1 =>
                  if length (rest st1) <? length (rest st)
                  then star_loop body g k f st1 else None) with
          | Some x => Some x
          | None => k st
          end
      | Lazy =>
          match k st with
          | Some x => Some x
          | None =>
              body st (fun st1 =>
                if length (rest st1) <? length (rest st)
                then star_loop body g k f st1 else None)
          end
      end
  end.

Fixpoint rmatch (r : re) (st : mstate) (k : mstate -> option mstate)
  {struct r} : option mstate :=
  match r with
  | Empty => k st
  | Chr p =>
      match rest st with
      | c :: tl => if p c then k (step c tl st) else None
      | [] => None
      end
  | Cat r1 r2 => rmatch r1 st (fun st1 => rmatch r2 st1 k)
  | Alt r1 r2 =>
      match rmatch r1 st k with
      | Some x => Some x
      | None => rmatch r2 st k
      end
  | Star g r1 => star_loop (rmatch r1) g k (length (rest st)) st
  | Group n r1 =>
      rmatch r1 st (fun st1 =>
        k (set_cap n (firstn (length (rest st) - length (rest st1)) (rest st)) st1))
  | Bol ml => if at_bol ml st then k st else None
  | Eol ml => if at_eol ml st then k st else None
  | WordB => if at_wordb st then k st else None
  | Ahead r1 =>
      match rmatch r1 st Some with
      | Some _ => k st
      | None => None
      end
  end.

(** Derived forms. *)
Definition Plus (g : greed) (r : re) : re := Cat r (Star g r).
Definition Opt (r : re) : re := Alt r Empty.

Fixpoint Seq (rs : list re) : re :=
  match rs with
  | [] => Empty
  | [r] => r
  | r :: rs' => Cat r (Seq rs')
  end.

Fixpoint Alts (rs : list re) : re :=
  match rs with
  | [] => Chr (fun _ => false)
  | [r] => r
  | r :: rs' => Alt r (Alts rs')
  end.

Definition chr (c : ascii) : re := Chr (Ascii.eqb c).
Definition chr_ci (c : ascii) : re := Chr (fun x => Ascii.eqb (lower_c x) (lower_c c)).

(** A literal, case-sensitive or (IGNORECASE) case-insensitive. *)
Fixpoint lit (w : str) : re :=
  match w with
  | [] => Empty
  | [c] => chr c
  | c :: w' => Cat (chr c) (lit w')
  end.

Fixpoint lit_ci (w : str) : re :=
  match w with
  | [] => Empty
  | [c] => chr_ci c
  | c :: w' => Cat (chr_ci c) (lit_ci w')
  end.

Definition digit : re := Chr is_digit.                    (* \d *)
Definition space : re := Chr is_space.                    (* \s *)
Definition word : re := Chr is_word.                      (* \w *)
Definition any_dotall : re := Chr (fun _ => true).        (* . with DOTALL *)
Definition any : re := Chr (fun c => negb (Ascii.eqb c newline)).   (* . *)
Definition cls (cs : str) : re := Chr (one_of cs).        (* [...] *)
Definition ncls (cs : str) : re := Chr (fun c => negb (one_of cs c)).  (* [^...] *)
Definition range (lo hi : ascii) : re := Chr (between (code lo) (code hi)).

Definition init (p : option ascii) (s : str) : mstate := MState p s [].

(** One attempt at the current position. *)
Definition exec (r : re) (p : option ascii) (s : str) : option mstate :=
  rmatch r (init p s) Some.

(** [m.group(n)]: [None] when the group took no part in the match. *)
Fixpoint group_of (n : nat) (cs : list (nat * str)) : option str :=
  match cs with
  | [] => None
  | (i, w) :: cs' => if Nat.eqb i n then Some w else group_of n cs'
  end.

Definition group (n : nat) (m : mstate) : option str := group_of n (caps m).

(** [re.match(r, s)] *)
Definition re_match (r : re) (s : str) : option mstate := exec r None s.

(** [re.search(r, s)]: the first position, from the left, with a match. *)
Fixpoint search_from (r : re) (p : option ascii) (s : str) : option mstate :=
  match exec r p s with
  | Some m => Some m
  | None =>
      match s with
      | [] => None
      | c :: tl => search_from r (Some c) tl
      end
  end.

Definition re_search (r : re) (s : str) : option mstate := search_from r None s.

(** The non-overlapping matches of [r] in [s] from left to right, with the
    characters between them: the common core of [re.sub], [re.findall] and
    [re.split].  [skip] counts the characters of the current match still to
    be passed over. *)
Inductive piece := Lit (c : ascii) | Hit (m : mstate).

Fixpoint scan (r : re) (p : option ascii) (s : str) (skip : nat) : list piece :=
  match skip with
  | S k =>
      match s with
      | [] => []
      | c :: tl => scan r (Some c) tl k
      end
  | O =>
      match exec r p s with
      | Some m =>
          let len := length s - length (rest m) in
          Hit m ::
          match s with
          | [] => []
          | c :: tl =>
              (if Nat.eqb len 0 then [Lit c] else []) ++
              scan r (Some c) tl (len - 1)
          end
      | None =>
          match s with
          | [] => []
          | c :: tl => Lit c :: scan r (Some c) tl 0
          end
      end
  end.

(** [re.sub(r, repl, s)], the replacement computed from the match. *)
Definition re_sub (r : re) (repl : mstate -> str) (s : str) : str :=
  flat_map (fun x => match x with Lit c => [c] | Hit m => repl m end)
           (scan r None s 0).

(** The template [\1] and the empty template. *)
Definition backref (n : nat) (m : mstate) : str :=
  match group n m with Some w => w | None => [] end.
Definition erase (m : mstate) : str := [].

(** [re.findall(r, s)] for a pattern with one group. *)
Definition re_findall (r : re) (s : str) : list str :=
  flat_map (fun x => match x with Lit _ => [] | Hit m => [backref 1 m] end)
           (scan r None s 0).

(** [re.split(r, s)] for a pattern with one group: the texts between the
    matches, each match contributing its group. *)
Fixpoint split_pieces (ps : list piece) (cur : str) : list str :=
  match ps with
  | [] => [rev cur]
  | Lit c :: ps' => split_pieces ps' (c :: cur)
  | Hit m :: ps' => rev cur :: backref 1 m :: split_pieces ps' []
  end.

Definition re_split (r : re) (s : str) : list str :=
  split_pieces (scan r None s 0) [].

End Re.

Import Re.

(** ** Date normalizer ([database.py], [parse_date]) *)

Module Dates.

Local Open Scope Z_scope.

(** [int(s)] on the texts that reach it here: surrounding blanks, an optional
    sign and decimal digits; [None] stands for [ValueError]. *)
Definition digit_val (c : ascii) : Z := Z.of_nat (code c - 48).

Fixpoint digits_val (acc : Z) (s : str) : option Z :=
  match s with
  | [] => Some acc
  | c :: tl => if is_digit c then digits_val (10 * acc + digit_val c) tl else None
  end.

Definition py_int (s : str) : option Z :=
  match py_strip s with
  | [] => None
  | c :: ds =>
      if Ascii.eqb c "-" then
        (if nonempty ds then option_map Z.opp (digits_val 0 ds) else None)
      else if Ascii.eqb c "+" then
        (if nonempty ds then digits_val 0 ds else None)
      else digits_val 0 (c :: ds)
  end.

(** [datetime.date]: a year 1..9999, a month 1..12 and a day of that month. *)
Record date := Date { year : Z; month : Z; day : Z }.

Definition is_leap (y : Z) : bool :=
  (y mod 4 =? 0) && (negb (y mod 100 =? 0) || (y mod 400 =? 0)).

Definition days_in_month (y m : Z) : Z :=
  if m =? 2 then (if is_leap y then 29 else 28)
  else if (m =? 4) || (m =? 6) || (m =? 9) || (m =? 11) then 30
  else 31.

Definition valid_date (d : date) : bool :=
  (1 <=? year d) && (year d <=? 9999)
  && (1 <=? month d) && (month d <=? 12)
  && (1 <=? day d) && (day d <=? days_in_month (year d) (month d)).

(** The constructor [date(y, m, d)]; [None] stands for [ValueError]. *)
Definition mk_date (y m d : Z) : option date :=
  if valid_date (Date y m d) then Some (Date y m d) else None.

(** *** [datetime.strptime]

    A format is a sequence of directives, literals and blanks; [_strptime]
    turns it into a pattern ([TimeRE.pattern]), compiled with IGNORECASE,
    matches it at the start of the text and refuses unconverted text. *)
Inductive directive :=
| dY | dm | dd | dy | dB      (* %Y %m %d %y %B *)
| dLit (c : ascii)
| dSpace.                     (* a run of blanks in the format: \s+ *)

Definition gY : nat := 1.
Definition gm : nat := 2.
Definition gd : nat := 3.
Definition gy : nat := 4.
Definition gB : nat := 5.

(** Month names of the C locale, [f_month[1:]]. *)
Definition f_month : list str :=
  [ "january"; "february"; "march"; "april"; "may"; "june"; "july";
    "august"; "september"; "october"; "november"; "december" ].

(** The alternation for [%B] lists the names longest first. *)
Definition month_alternatives : list str :=
  [ "september"; "february"; "november"; "december"; "january"; "october";
    "august"; "march"; "april"; "june"; "july"; "may" ].

Definition directive_re (d : directive) : re :=
  match d with
  | dd => Group gd (Alts [ Cat (chr "3") (range "0" "1");
                           Cat (range "1" "2") digit;
                           Cat (chr "0") (range "1" "9");
                           range "1" "9";
                           Cat (chr " ") (range "1" "9") ])
  | dm => Group gm (Alts [ Cat (chr "1") (range "0" "2");
                           Cat (chr "0") (range "1" "9");
                           range "1" "9" ])
  | dy => Group gy (Cat digit digit)
  | dY => Group gY (Seq [digit; digit; digit; digit])
  | dB => Group gB (Alts (map lit_ci month_alternatives))
  | dLit c => chr_ci c
  | dSpace => Plus Greedy space
  end.

Definition pattern (fmt : list directive) : re := Seq (map directive_re fmt).

Fixpoint index_of (x : str) (l : list str) (i : Z) : option Z :=
  match l with
  | [] => None
  | y :: l' => if str_eqb x y then Some i else index_of x l' (i + 1)
  end.

(** The fields default to 1900-01-01; a two-digit year up to 68 is of this
    century. *)
Definition found_year (m : mstate) : option Z :=
  match group gy m, group gY m with
  | Some y, _ =>
      match py_int y with
      | Some v => Some (if v <=? 68 then v + 2000 else v + 1900)
      | None => None
      end
  | None, Some y => py_int y
  | None, None => Some 1900
  end.

Definition found_month (m : mstate) : option Z :=
  match group gm m, group gB m with
  | Some x, _ => py_int x
  | None, Some b => index_of (lower b) f_month 1
  | None, None => Some 1
  end.

Definition found_day (m : mstate) : option Z :=
  match group gd m with
  | Some x => py_int x
  | None => Some 1
  end.

(** [datetime.strptime(data_string, fmt).date()]; [None] is [ValueError]. *)
Definition strptime (data_string : str) (fmt : list directive) : option date :=
  match re_match (pattern fmt) data_string with
  | None => None
  | Some m =>
      if nonempty (rest m) then None
      else match found_year m, found_month m, found_day m with
           | Some y, Some mo, Some d => mk_date y mo d
           | _, _, _ => None
           end
  end.

Definition formats : list (list directive) :=
  [ [dY; dLit "-"; dm; dLit "-"; dd];               (* %Y-%m-%d *)
    [dd; dLit "-"; dm; dLit "-"; dY];               (* %d-%m-%Y *)
    [dd; dLit "."; dm; dLit "."; dY];               (* %d.%m.%Y *)
    [dd; dLit "/"; dm; dLit "/"; dY];               (* %d/%m/%Y *)
    [dd; dLit "/"; dm; dLit "/"; dy];               (* %d/%m/%y *)
    [dY; dLit "/"; dm; dLit "/"; dd];               (* %Y/%m/%d *)
    [dd; dSpace; dB; dLit ","; dSpace; dY];         (* %d %B, %Y *)
    [dB; dSpace; dd; dLit ","; dSpace; dY] ].       (* %B %d, %Y *)

Definition suffixes : list str := [ "st"; "nd"; "rd"; "th" ].

(** [re.sub(r"(\d+)" + suffix, r"\1", s)] *)
Definition strip_suffix (s : str) (suffix : str) : str :=
  re_sub (Cat (Group 1 (Plus Greedy digit)) (lit suffix)) (backref 1) s.

(** A year more than one ahead of the current one is refused. *)
Definition too_far (now_year : Z) (d : date) : bool := year d >? now_year + 1.

(** One turn of the loop over the formats: [Some d] returns [d], [None]
    goes on with the next format. *)
Definition try_format (now_year : Z) (s_clean s : str) (fmt : list directive)
  : option date :=
  match strptime s_clean fmt with
  | Some d => if too_far now_year d then None else Some d
  | None =>
      match strptime s fmt with
      | Some d => if too_far now_year d then None else Some d
      | None => None
      end
  end.

Fixpoint try_formats (now_year : Z) (s_clean s : str)
  (fmts : list (list directive)) : option date :=
  match fmts with
  | [] => None
  | fmt :: fmts' =>
      match try_format now_year s_clean s fmt with
      | Some d => Some d
      | None => try_formats now_year s_clean s fmts'
      end
  end.

(** The month table of the verbose extractor, in insertion order. *)
Definition months : list (str * Z) :=
  [ ("january", 1); ("february", 2); ("march", 3); ("april", 4); ("may", 5);
    ("june", 6); ("july", 7); ("august", 8); ("september", 9);
    ("october", 10); ("november", 11); ("december", 12);
    ("jan", 1); ("feb", 2); ("mar", 3); ("apr", 4); ("jun", 6); ("jul", 7);
    ("aug", 8); ("sep", 9); ("sept", 9); ("oct", 10); ("nov", 11);
    ("dec", 12) ].

Fixpoint find_month (tbl : list (str * Z)) (clean_s : str) : option Z :=
  match tbl with
  | [] => None
  | (m_name, m_val) :: tbl' =>
      if str_in m_name clean_s then Some m_val else find_month tbl' clean_s
  end.

(** [(\d+)(st|nd|rd|th)] *)
Definition ordinal_re : re :=
  Cat (Group 1 (Plus Greedy digit))
      (Group 2 (Alts [lit "st"; lit "nd"; lit "rd"; lit "th"])).

(** [\b(20\d{2})\b] *)
Definition year_re : re :=
  Seq [WordB; Group 1 (Seq [lit "20"; digit; digit]); WordB].

(** [\b([1-9]|[12]\d|3[01])\b] *)
Definition day_re : re :=
  Seq [WordB;
       Group 1 (Alts [range "1" "9"; Cat (cls "12") digit; Cat (chr "3") (cls "01")]);
       WordB].

Definition verbose_clean (s : str) : str :=
  replace "  " " "
    (replace "," " "
       (replace "on this" []
          (replace "day of" [] (re_sub ordinal_re (backref 1) (lower s))))).

(** The verbose extractor up to the construction of the date; every
    exception in it yields [None]. *)
Definition verbose_candidate (s : str) : option date :=
  let clean_s := verbose_clean s in
  let year := option_map (backref 1) (re_search year_re clean_s) in
  let month := find_month months clean_s in
  let day := option_map (backref 1) (re_search day_re clean_s) in
  match year, month, day with
  | Some y, Some mo, Some d =>
      if nonempty y && negb (mo =? 0) && nonempty d then
        match py_int y, py_int d with
        | Some yv, Some dv => mk_date yv mo dv
        | _, _ => None
        end
      else None
  | _, _, _ => None
  end.

Definition verbose_date (now_year : Z) (s : str) : option date :=
  match verbose_candidate s with
  | Some d => if too_far now_year d then None else Some d
  | None => None
  end.

(** [parse_date(date_str)], with the year of [datetime.now()] as argument. *)
Definition parse_date (now_year : Z) (date_str : str) : option date :=
  if negb (nonempty date_str) then None
  else
    let s := py_strip date_str in
    let s_clean := fold_left strip_suffix suffixes s in
    match try_formats now_year s_clean s formats with
    | Some d => Some d
    | None => verbose_date now_year s
    end.

(** The candidate dates of an input: everything a strategy constructs
    before the check of the year. *)
Definition candidates (date_str : str) : list date :=
  let s := py_strip date_str in
  let s_clean := fold_left strip_suffix suffixes s in
  flat_map (fun fmt =>
              match strptime s_clean fmt with
              | Some d => [d]
              | None => match strptime s fmt with Some d => [d] | None => [] end
              end) formats
  ++ match verbose_candidate s with Some d => [d] | None => [] end.

End Dates.

Import Dates.

(** ** Severity score extractor ([main.py], the audit block of
    [load_json_analyses], [load_analysis_list], [load_json_analysis_detail]
    and [load_analysis_detail]) *)

Module Severity.

Local Open Scope Z_scope.

(** [Overall Lapse Severity Score.*?\n\s*[*][*]Score:\s*(\d+)], IGNORECASE and
    DOTALL *)
Definition overall_re : re :=
  Seq [ lit_ci "Overall Lapse Severity Score"; Star Lazy any_dotall;
        chr_ci newline; Star Greedy space; lit_ci "**Score:";
        Star Greedy space; Group 1 (Plus Greedy digit) ].

(** [Lapse Severity Score:\s*(?:[*][*])?(\d+)], IGNORECASE *)
Definition lapse_re : re :=
  Seq [ lit_ci "Lapse Severity Score:"; Star Greedy space; Opt (lit_ci "**");
        Group 1 (Plus Greedy digit) ].

(** [(?:^|\n)[^\n]*?Score:\s*(?:[*][*])?(\d+)], IGNORECASE *)
Definition any_score_re : re :=
  Seq [ Alt (Bol false) (chr_ci newline); Star Lazy (ncls [newline]);
        lit_ci "Score:"; Star Greedy space; Opt (lit_ci "**");
        Group 1 (Plus Greedy digit) ].

(** [int(m.group(1))] *)
Definition int_group1 (m : mstate) : option Z := py_int (backref 1 m).

Definition overall_score (audit_content : str) : option Z :=
  match re_search overall_re audit_content with
  | Some m => int_group1 m
  | None => None
  end.

Definition lapse_score (audit_content : str) : option Z :=
  match re_search lapse_re audit_content with
  | Some m => int_group1 m
  | None => None
  end.

(** [all_scores[-1]] of the [findall], when there is one. *)
Definition last_line_score (audit_content : str) : option Z :=
  match rev (re_findall any_score_re audit_content) with
  | [] => None
  | w :: _ => py_int w
  end.

(** The list views: [severity] starts as the score stored on the section
    ([audit.get("severity_score", None)]). *)
Definition severity_list (stored : option Z) (audit_content : str) : option Z :=
  if nonempty audit_content then
    match re_search overall_re audit_content with
    | Some m => int_group1 m
    | None =>
        match re_search lapse_re audit_content with
        | Some m => int_group1 m
        | None =>
            match stored with
            | Some v => Some v
            | None => last_line_score audit_content
            end
        end
    end
  else stored.






End Severity.

(** ** Markdown table parser ([main.py], [parse_markdown_table]) *)

Module Table.

(** A Python [dict] with string keys and values: the items in insertion
    order, each key once. *)
Definition dict := list (str * str).

Fixpoint dict_get (k : str) (d : dict) : option str :=
  match d with
  | [] => None
  | (k', v) :: d' => if str_eqb k k' then Some v else dict_get k d'
  end.

(** [d[k] = v]: an existing key keeps its place. *)
Fixpoint dict_set (k v : str) (d : dict) : dict :=
  match d with
  | [] => [(k, v)]
  | (k', v') :: d' =>
      if str_eqb k k' then (k', v) :: d' else (k', v') :: dict_set k v d'
  end.

Definition keys (d : dict) : list str := map fst d.

(** [^\s*```\w*\s*$], [^\s*#+ .*$] and [^\s*---+\s*$], all MULTILINE *)
Definition fence_re : re :=
  Seq [ Bol true; Star Greedy space; lit "```"; Star Greedy word;
        Star Greedy space; Eol true ].

Definition heading_re : re :=
  Seq [ Bol true; Star Greedy space; Plus Greedy (chr "#"); chr " ";
        Star Greedy any; Eol true ].

Definition rule_re : re :=
  Seq [ Bol true; Star Greedy space; lit "--"; Plus Greedy (chr "-");
        Star Greedy space; Eol true ].

Definition strip_code_fences (text : str) : str :=
  if negb (nonempty text) then text
  else py_strip (re_sub rule_re erase (re_sub heading_re erase (re_sub fence_re erase text))).

(** [[*][*]([^*]*?)[*][*]] replaced by its group *)
Definition bold_re : re :=
  Seq [ lit "**"; Group 1 (Star Lazy (ncls "*")); lit "**" ].

Definition strip_bold (text : str) : str :=
  if nonempty text then re_sub bold_re (backref 1) text else text.

(** The stripped non-blank lines that start with a pipe. *)
Definition table_lines (cleaned : str) : list str :=
  filter (startswith "|")
         (filter nonempty (map py_strip (split_on newline cleaned))).

Definition cells (line : str) : list str :=
  split_on "|" (strip_by (one_of "|") line).

Definition parse_headers (line : str) : list str :=
  map (fun h => replace ":" [] (strip_bold (py_strip h))) (cells line).

(** The loop [for i, header in enumerate(headers)] filling [row_dict]. *)
Fixpoint fill_row (headers : list str) (i : nat) (cols : list str) (row_dict : dict)
  : dict :=
  match headers with
  | [] => row_dict
  | header :: hs =>
      fill_row hs (S i) cols (dict_set (py_strip header) (nth i cols []) row_dict)
  end.

Definition parse_row (headers : list str) (line : str) : dict :=
  fill_row headers 0 (map py_strip (cells line)) [].

(** The loop over the rows of a vertical table filling [mapped_dict]. *)
Fixpoint map_rows (rows : list dict) (mapped_dict : dict) : dict :=
  match rows with
  | [] => mapped_dict
  | r :: rows' =>
      match keys r with
      | k0 :: k1 :: _ =>
          match dict_get k0 r, dict_get k1 r with
          | Some f, Some v => map_rows rows' (dict_set (py_strip (lower f)) v mapped_dict)
          | _, _ => map_rows rows' mapped_dict
          end
      | _ => map_rows rows' mapped_dict
      end
  end.

Definition is_vertical (headers : list str) : bool :=
  (2 <=? length headers)%nat
  && str_mem (py_strip (lower (hd [] headers))) ["field"; "metadata field"].

(** The part of [parse_markdown_table] after the three-line check. *)
Definition table_of_lines (tl : list str) : list dict :=
  let headers := parse_headers (hd [] tl) in
  let rows := map (parse_row headers) (skipn 2 tl) in
  match rows with
  | [] => []
  | _ :: _ =>
      if is_vertical headers then
        match map_rows rows [] with
        | [] => []
        | mapped_dict => [mapped_dict]
        end
      else rows
  end.

Definition parse_markdown_table (md_table : str) : list dict :=
  if negb (nonempty md_table) || negb (nonempty (py_strip md_table)) then []
  else
    let cleaned := strip_code_fences md_table in
    if negb (nonempty cleaned) then []
    else
      let tl := table_lines cleaned in
      if (length tl <? 3)%nat then [] else table_of_lines tl.

End Table.

Import Table.

(** ** Metadata normalizer and fallback extractor ([main.py],
    [normalize_metadata], [fallback_metadata_from_content]) *)

Module Metadata.

Definition digit_or (cs : str) : re := Chr (fun c => is_digit c || one_of cs c).

(** [([\d-]+)\s*\((.+)\)] *)
Definition paren_re : re :=
  Seq [ Group 1 (Plus Greedy (digit_or "-")); Star Greedy space; chr "(";
        Group 2 (Plus Greedy any); chr ")" ].

(** [(.+?)\s*\+\s*(.+)] *)
Definition plus_re : re :=
  Seq [ Group 1 (Plus Lazy any); Star Greedy space; chr "+"; Star Greedy space;
        Group 2 (Plus Greedy any) ].

(** [ISO:\s*([\d-]+)] *)
Definition iso_re : re :=
  Seq [ lit "ISO:"; Star Greedy space; Group 1 (Plus Greedy (digit_or "-")) ].

(** [Natural\s*Text:\s*(.+?)(?:<br>|$)], IGNORECASE *)
Definition nat_re : re :=
  Seq [ lit_ci "Natural"; Star Greedy space; lit_ci "Text:"; Star Greedy space;
        Group 1 (Plus Lazy any); Alt (lit_ci "<br>") (Eol false) ].

Definition grp (n : nat) (m : mstate) : str := py_strip (backref n m).

(** The date branch for a key with both [iso] and [natural] in it. *)
Definition date_iso_natural (val_clean : str) (out : dict) : dict :=
  match re_match paren_re val_clean, re_match plus_re val_clean with
  | Some m, _ => dict_set "date_natural" (grp 2 m) (dict_set "date_iso" (grp 1 m) out)
  | None, Some m => dict_set "date_natural" (grp 2 m) (dict_set "date_iso" (grp 1 m) out)
  | None, None => dict_set "date_natural" val_clean out
  end.

(** The date branch for a generic key. *)
Definition date_generic (val_clean : str) (out : dict) : dict :=
  let iso_match := re_search iso_re val_clean in
  let out1 := match iso_match with
              | Some m => dict_set "date_iso" (grp 1 m) out
              | None => out
              end in
  match re_search nat_re val_clean with
  | Some m => dict_set "date_natural" (grp 1 m) out1
  | None =>
      match re_match paren_re val_clean with
      | Some m => dict_set "date_natural" (grp 2 m) (dict_set "date_iso" (grp 1 m) out1)
      | None =>
          match iso_match with
          | Some _ => out1
          | None => dict_set "date_natural" val_clean out1
          end
      end
  end.

Definition normalize_item (key val : str) (out : dict) : dict :=
  let key_clean := strip_bold key in
  let val_clean := strip_bold val in
  let lk := py_strip (lower key_clean) in
  if str_in "full court" lk then dict_set "court" val_clean out
  else if str_eqb lk "presiding judges" || str_in "presiding" lk
  then dict_set "judge" val_clean out
  else if str_in "case number" lk || str_in "citation" lk
  then dict_set "case_number" val_clean out
  else if str_in "parties" lk then dict_set "parties" val_clean out
  else if str_in "date" lk then
    if str_in "iso" lk && str_in "natural" lk then date_iso_natural val_clean out
    else if str_in "natural" lk then dict_set "date_natural" val_clean out
    else if str_in "iso" lk then dict_set "date_iso" val_clean out
    else date_generic val_clean out
  else out.

Definition normalize_metadata (raw : dict) : dict :=
  fold_left (fun out kv => normalize_item (fst kv) (snd kv) out) raw [].

(** [(?:heard by the|before the|in the court of|presided over by)\s+(.+?)
     (?:\s+(?:on|in|at)\s+\d|\.\s)], IGNORECASE *)
Definition court_re : re :=
  Seq [ Alts [ lit_ci "heard by the"; lit_ci "before the";
               lit_ci "in the court of"; lit_ci "presided over by" ];
        Plus Greedy space; Group 1 (Plus Lazy any);
        Alt (Seq [ Plus Greedy space; Alts [lit_ci "on"; lit_ci "in"; lit_ci "at"];
                   Plus Greedy space; digit ])
            (Seq [ chr "."; space ]) ].

(** [((?:Spl\.)?(?:S\.?C\.?|SC|Cr|CC|Crl\.?M\.?A)[\s.]*No\.?\s*[\d/]+\s*
     (?:of\s*\d{4})?)], IGNORECASE *)
Definition case_re : re :=
  Group 1
    (Seq [ Opt (lit_ci "Spl.");
           Alts [ Seq [chr_ci "S"; Opt (chr "."); chr_ci "C"; Opt (chr ".")];
                  lit_ci "SC"; lit_ci "Cr"; lit_ci "CC";
                  Seq [lit_ci "Crl"; Opt (chr "."); chr_ci "M"; Opt (chr "."); chr_ci "A"] ];
           Star Greedy (Chr (fun c => is_space c || Ascii.eqb c "."));
           lit_ci "No"; Opt (chr "."); Star Greedy space;
           Plus Greedy (digit_or "/"); Star Greedy space;
           Opt (Seq [lit_ci "of"; Star Greedy space; digit; digit; digit; digit]) ]).

(** [[*][*]([^*]+)[*][*].*?Judgment], IGNORECASE *)
Definition judgment_re : re :=
  Seq [ lit "**"; Group 1 (Plus Greedy (ncls "*")); lit "**"; Star Lazy any;
        lit_ci "Judgment" ].

(** [(State\s+of\s+\w+)\s+(?:against|vs\.?|versus)\s+
     (?:the\s+accused,?\s*(?:identified as\s+)?)?([A-Z][a-zA-Z\s.]+?)
     (?:,|\.\s|\s+a\s+\d)] *)
Definition parties_re : re :=
  Seq [ Group 1 (Seq [ lit "State"; Plus Greedy space; lit "of";
                       Plus Greedy space; Plus Greedy word ]);
        Plus Greedy space;
        Alts [ lit "against"; Seq [lit "vs"; Opt (chr ".")]; lit "versus" ];
        Plus Greedy space;
        Opt (Seq [ lit "the"; Plus Greedy space; lit "accused"; Opt (chr ",");
                   Star Greedy space;
                   Opt (Seq [lit "identified as"; Plus Greedy space]) ]);
        Group 2 (Seq [ Chr is_upper;
                       Plus Lazy (Chr (fun c => is_alpha c || is_space c
                                                || Ascii.eqb c ".")) ]);
        Alts [ chr ","; Seq [chr "."; space];
               Seq [Plus Greedy space; chr "a"; Plus Greedy space; digit] ] ].

Definition fallback_metadata_from_content (legal_summary timeline_content : str)
  : dict :=
  if negb (nonempty legal_summary) then []
  else
    let meta1 :=
      match re_search court_re legal_summary with
      | Some m => dict_set "court" (rstrip_by (one_of ",.") (grp 1 m)) []
      | None => []
      end in
    let meta2 :=
      match re_search case_re legal_summary with
      | Some m => dict_set "case_number" (grp 1 m) meta1
      | None => meta1
      end in
    let meta3 :=
      if nonempty timeline_content then
        match re_search judgment_re timeline_content with
        | Some m => dict_set "date_natural" (grp 1 m) meta2
        | None => meta2
        end
      else meta2 in
    match re_search parties_re legal_summary with
    | Some m => dict_set "parties" (grp 1 m ++ " vs " ++ grp 2 m) meta3
    | None => meta3
    end.

End Metadata.

Import Metadata.

Import Outcome Severity.

(** ** Section splitter and record assembler ([main.py],
    [parse_markdown_sections], [load_json_analyses], [load_analysis_list]) *)

Module Loader.

Local Open Scope Z_scope.

(** A section of a document: its text and the score and justification it
    may carry. *)
Record section := Section_ {
  content : str;
  severity_score : option Z;
  score_justification : option str
}.

Definition sections_t := list (str * section).

Fixpoint sec_get (title : str) (d : sections_t) : option section :=
  match d with
  | [] => None
  | (t, s) :: d' => if str_eqb title t then Some s else sec_get title d'
  end.

Fixpoint sec_set (title : str) (s : section) (d : sections_t) : sections_t :=
  match d with
  | [] => [(title, s)]
  | (t, s') :: d' =>
      if str_eqb title t then (t, s) :: d' else (t, s') :: sec_set title s d'
  end.

(** The content of a section, empty when the section is missing. *)
Definition content_of (title : str) (d : sections_t) : str :=
  match sec_get title d with Some s => content s | None => [] end.

(** [^##\s+(.[*])], MULTILINE *)
Definition section_re : re :=
  Seq [ Bol true; lit "##"; Plus Greedy space; Group 1 (Star Greedy any) ].

(** [\n*---+\s*$] *)
Definition trailing_rule_re : re :=
  Seq [ Star Greedy (chr newline); lit "--"; Plus Greedy (chr "-");
        Star Greedy space; Eol false ].

(** [>\s*[*][*][a-zA-Z\s]*Score:\s*(\d+)(?:/10)?.*?[*][*]], IGNORECASE *)
Definition quoted_score_re : re :=
  Seq [ chr ">"; Star Greedy space; lit "**";
        Star Greedy (Chr (fun c => is_alpha c || is_space c));
        lit_ci "Score:"; Star Greedy space; Group 1 (Plus Greedy digit);
        Opt (lit "/10"); Star Lazy any; lit "**" ].

(** [>\s*[*][*]Justification:[*][*]\s*(.[*]?)(?=\n|$)] *)
Definition quoted_justification_re : re :=
  Seq [ chr ">"; Star Greedy space; lit "**Justification:**"; Star Greedy space;
        Group 1 (Star Lazy any); Ahead (Alt (chr newline) (Eol false)) ].

(** [^>.*$], MULTILINE *)
Definition quote_line_re : re :=
  Seq [ Bol true; chr ">"; Star Greedy any; Eol true ].

Definition parse_section (title content0 : str) : section :=
  let content1 := py_strip (re_sub trailing_rule_re erase (py_strip content0)) in
  if str_in "Investigation Quality Audit" title then
    Section_
      (py_strip (re_sub quote_line_re erase content1))
      (match re_search quoted_score_re content1 with
       | Some m => int_group1 m
       | None => None
       end)
      (match re_search quoted_justification_re content1 with
       | Some m => Some (py_strip (backref 1 m))
       | None => None
       end)
  else Section_ content1 None None.

(** The loop [for i in range(1, len(parts), 2)] over the split text. *)
Fixpoint sections_of_parts (parts : list str) (sections : sections_t) : sections_t :=
  match parts with
  | title :: content0 :: parts' =>
      let t := py_strip title in
      sections_of_parts parts' (sec_set t (parse_section t content0) sections)
  | _ => sections
  end.

Definition parse_markdown_sections (md_text : str) : sections_t :=
  sections_of_parts (tl (re_split section_re md_text)) [].

(** A JSON export after [json.load]:
    [{file_name, processed_on, sections: {title: {content, ...}}}]. *)
Record json_doc := JsonDoc {
  file_name : option str;
  doc_processed_on : option str;
  sections : sections_t
}.

(** An entry of a list view. *)
Record summary := Summary {
  slug : str;
  filename : str;
  processed_on : str;
  outcome : str;
  court : str;
  judge : str;
  date_text : str;            (* the entry "date" *)
  case_number : str;
  parties : str;
  severity : option Z;        (* the entry "severity_score" *)
  summary_snippet : str;
  source : str
}.

Definition meta_get (k : str) (meta : dict) (default : str) : str :=
  match dict_get k meta with Some v => v | None => default end.

Definition snippet (legal_summary : str) : str :=
  if (200 <? length legal_summary)%nat then firstn 200 legal_summary ++ "..."
  else legal_summary.

(** The metadata of a document: the first row of the table, normalized, or
    the fallback when that is empty. *)
Definition metadata_of (sections : sections_t) (legal_summary : str) : dict :=
  let meta_rows := parse_markdown_table (content_of "Metadata Extraction" sections) in
  let meta := normalize_metadata (hd [] meta_rows) in
  match meta with
  | [] => fallback_metadata_from_content legal_summary
            (content_of "Chronological Event Timeline" sections)
  | _ :: _ => meta
  end.

Definition audit_severity (sections : sections_t) : option Z :=
  match sec_get "Investigation Quality Audit" sections with
  | Some audit => severity_list (severity_score audit) (content audit)
  | None => None
  end.

Definition make_summary (slug filename processed_on legal_summary source : str)
  (sections : sections_t) : summary :=
  let meta := metadata_of sections legal_summary in
  Summary slug filename processed_on
    (extract_outcome_from_filename filename legal_summary)
    (meta_get "court" meta []) (meta_get "judge" meta [])
    (meta_get "date_natural" meta (meta_get "date_iso" meta []))
    (meta_get "case_number" meta []) (meta_get "parties" meta [])
    (audit_severity sections) (snippet legal_summary) source.

(** [os.path.splitext(fname)[0]] for a name without directory. *)
Definition is_dot (c : ascii) : bool := Ascii.eqb c ".".

Definition splitext_stem (fname : str) : str :=
  match drop_while (fun c => negb (is_dot c)) (rev fname) with
  | [] => fname
  | _ :: before_rev =>
      if existsb (fun c => negb (is_dot c)) before_rev then rev before_rev
      else fname
  end.

(** A directory as the loaders see it: the names matching the glob, sorted,
    each with the outcome of opening and loading it; [None] is an exception
    raised in the [try] block. *)
Definition listing (A : Type) := list (str * option A).

Definition json_summary (source_label slug_prefix fname : str) (data : json_doc)
  : summary :=
  let stem := splitext_stem fname in
  let legal_summary :=
    match sec_get "Comprehensive Legal Summary" (sections data) with
    | Some s => content s
    | None => content_of "Judgment at a Glance" (sections data)
    end in
  make_summary (slug_prefix ++ "_" ++ stem)
    (match file_name data with Some n => n | None => fname end)
    (match doc_processed_on data with Some p => p | None => [] end)
    legal_summary source_label (sections data).

(** [load_json_analyses(directory, source_label, slug_prefix)] *)
Fixpoint load_json_analyses (json_files : listing json_doc)
  (source_label slug_prefix : str) : list summary :=
  match json_files with
  | [] => []
  | (fname, None) :: files' => load_json_analyses files' source_label slug_prefix
  | (fname, Some data) :: files' =>
      json_summary source_label slug_prefix fname data
      :: load_json_analyses files' source_label slug_prefix
  end.

(** [[*]Processed on:\s+(.[*]?)[*]] *)
Definition processed_on_re : re :=
  Seq [ lit "*Processed on:"; Plus Greedy space; Group 1 (Star Lazy any); chr "*" ].

Definition markdown_summary (fname md_text : str) : summary :=
  let sections := parse_markdown_sections md_text in
  let legal_summary :=
    match sec_get "Judgment at a Glance" sections with
    | Some s => content s
    | None => content_of "Comprehensive Legal Summary" sections
    end in
  make_summary (replace "_analysis.md" [] fname) fname
    (match re_search processed_on_re md_text with
     | Some m => py_strip (backref 1 m)
     | None => []
     end)
    legal_summary "Standard" sections.

Fixpoint load_markdown_analyses (md_files : listing str) : list summary :=
  match md_files with
  | [] => []
  | (fname, None) :: files' => load_markdown_analyses files'
  | (fname, Some md_text) :: files' =>
      markdown_summary fname md_text :: load_markdown_analyses files'
  end.

(** A counting [dict]: [d[k] = d.get(k, 0) + 1]. *)
Fixpoint count_incr (k : str) (d : list (str * Z)) : list (str * Z) :=
  match d with
  | [] => [(k, 1)]
  | (k', n) :: d' =>
      if str_eqb k k' then (k', n + 1) :: d' else (k', n) :: count_incr k d'
  end.

(** The two directories with their three globs. *)
Record store := Store {
  md_files : listing str;            (* ANALYSIS_DIR, *_analysis.md *)
  std_json_files : listing json_doc; (* ANALYSIS_DIR, *.json *)
  npa_json_files : listing json_doc  (* NPA_ANALYSIS_DIR, *.json *)
}.

(** The batch aggregate.  [avg_severity] is kept as the sum and the number
    of the scores present: the source divides and rounds them to one decimal
    in floating point (and yields 0 when there is none). *)
Record batch := Batch {
  analyses : list summary;
  total : nat;
  avg_severity : Z * nat;
  outcomes : list (str * Z)
}.

Definition present_scores (l : list summary) : list Z :=
  flat_map (fun a => match severity a with Some v => [v] | None => [] end) l.

(** [load_analysis_list()] *)
Definition load_analysis_list (fs : store) : batch :=
  let md := load_markdown_analyses (md_files fs) in
  let std_json := load_json_analyses (std_json_files fs) "Standard" "std" in
  let npa_json := load_json_analyses (npa_json_files fs) "NPA" "npa" in
  let analyses := md ++ std_json ++ npa_json in
  let severity_scores := present_scores md ++ present_scores (std_json ++ npa_json) in
  Batch analyses (length analyses)
    (fold_left Z.add severity_scores 0, length severity_scores)
    (fold_left (fun d a => count_incr (outcome a) d) analyses
       [("Acquitted", 0); ("Convicted", 0); ("Unknown", 0)]).

End Loader.

(** ** Detail lookup ([main.py], [load_analysis_detail]) *)

Module Detail.

(** [os.path.join(a, b)] on POSIX paths. *)
Definition path_join (a b : str) : str :=
  if startswith "/" b then b
  else if negb (nonempty a) || startswith "/" (rev a) then a ++ b
  else a ++ "/" ++ b.

Section Lookup.

(** The directory of [main.py], and the two readers the lookup hands over
    to: [load_json_analysis_detail] and the markdown branch that follows the
    prefix tests. *)
Variable BASE_DIR : str.
Variable detail : Type.
Variable load_json_analysis_detail : str -> str -> option detail.
Variable load_markdown_detail : str -> str -> option detail.

Definition ANALYSIS_DIR : str := path_join BASE_DIR "analysis_documents".
Definition NPA_ANALYSIS_DIR : str := path_join BASE_DIR "npa_analysis_documents".

Definition load_analysis_detail (slug : str) : option detail :=
  if startswith "npa_" slug then
    let stem := skipn 4 slug in
    load_json_analysis_detail (path_join NPA_ANALYSIS_DIR (stem ++ ".json")) slug
  else if startswith "std_" slug then
    let stem := skipn 4 slug in
    load_json_analysis_detail (path_join ANALYSIS_DIR (stem ++ ".json")) slug
  else
    load_markdown_detail (path_join ANALYSIS_DIR (slug ++ "_analysis.md")) slug.

End Lookup.

End Detail.

(** ** Vocabulary of the statements *)

(** [x] occurs in [t]. *)
Definition contains (x t : str) : Prop := exists u v, t = u ++ x ++ v.

(** [x] occurs in [t] in some letter case. *)
Definition contains_ci (x t : str) : Prop :=
  exists u w v, t = u ++ w ++ v /\ lower w = x.

(** [s] starts with [p]. *)
Definition has_prefix (p s : str) : Prop := exists t, s = p ++ t.

(** The texts a pattern can consume, the conditions on the context ([^],
    [$], [\b], look-ahead) left aside. *)
Inductive lang : re -> str -> Prop :=
| lang_empty : lang Empty []
| lang_chr p c : p c = true -> lang (Chr p) [c]
| lang_cat r1 r2 w1 w2 : lang r1 w1 -> lang r2 w2 -> lang (Cat r1 r2) (w1 ++ w2)
| lang_alt_l r1 r2 w : lang r1 w -> lang (Alt r1 r2) w
| lang_alt_r r1 r2 w : lang r2 w -> lang (Alt r1 r2) w
| lang_star_nil g r : lang (Star g r) []
| lang_star_cons g r w1 w2 :
    lang r w1 -> lang (Star g r) w2 -> lang (Star g r) (w1 ++ w2)
| lang_group n r w : lang r w -> lang (Group n r) w
| lang_bol ml : lang (Bol ml) []
| lang_eol ml : lang (Eol ml) []
| lang_wordb : lang WordB []
| lang_ahead r : lang (Ahead r) [].

(** The bodies of the groups numbered [n] in a pattern. *)
Fixpoint group_bodies (n : nat) (r : re) : list re :=
  match r with
  | Group i b => (if Nat.eqb i n then [b] else []) ++ group_bodies n b
  | Cat a b | Alt a b => group_bodies n a ++ group_bodies n b
  | Star _ a => group_bodies n a
  | _ => []
  end.

(** The character before the position reached after consuming [w]. *)
Definition prev_after (p : option ascii) (w : str) : option ascii :=
  fold_left (fun _ c => Some c) w p.

(** [st1] is reached from [st] by consuming a text of [r], the new captures
    being texts of the group bodies. *)
Definition reaches (r : re) (st st1 : mstate) : Prop :=
  exists w new,
    lang r w /\ rest st = w ++ rest st1
    /\ prev st1 = prev_after (prev st) w
    /\ caps st1 = new ++ caps st
    /\ forall n u, In (n, u) new -> exists b, In b (group_bodies n r) /\ lang b u.

(** *** Vertical tables, in the words of the specification

    The column names are the trimmed headers.  The cell of a row under a
    name is the cell of the last column so named (empty beyond the end of the
    row).  A vertical table is one mapping: each row maps its lower-cased,
    trimmed cell under the first name to its cell under the second name. *)
Fixpoint cell_under (headers : list str) (i : nat) (cols : list str) (k : str)
  (acc : option str) : option str :=
  match headers with
  | [] => acc
  | h :: hs =>
      cell_under hs (S i) cols k
        (if str_eqb k (py_strip h) then Some (nth i cols []) else acc)
  end.

Definition row_cell (headers : list str) (line : str) (k : str) : str :=
  match cell_under headers 0 (map py_strip (cells line)) k None with
  | Some v => v
  | None => []
  end.

Definition field_name (headers : list str) (line : str) : str :=
  py_strip (lower (row_cell headers line (py_strip (hd [] headers)))).

Definition second_name (headers : list str) : option str :=
  find (fun k => negb (str_eqb k (py_strip (hd [] headers))))
       (map py_strip headers).

Definition field_value (headers : list str) (line : str) : str :=
  match second_name headers with
  | Some k1 => row_cell headers line k1
  | None => []
  end.

Definition vertical_mapping (headers : list str) (lines : list str) : dict :=
  fold_left (fun d line => dict_set (field_name headers line)
                                    (field_value headers line) d) lines [].

(** A pattern that ends in the group [n] with body [b]. *)
Inductive ends_in_group (n : nat) (b : re) : re -> Prop :=
| ends_here : ends_in_group n b (Group n b)
| ends_later a r : ends_in_group n b r -> ends_in_group n b (Cat a r).


(** [f] starts with [P] in some letter case. *)
Definition has_prefix_ci (P f : str) : Prop :=
  exists p t, f = p ++ t /\ upper p = P.

(** *** Shapes of the texts the strict formats accept

    The text a directive consumes: a day of one or two digits (a blank may
    stand for the first), a month or year of digits, a month name in any
    letter case, the literal, or a run of blanks. *)
Definition piece_ok (d : directive) (w : str) : bool :=
  match d with
  | dd => match w with
          | [a; b] => (is_digit a || Ascii.eqb a " ") && is_digit b
          | [a] => is_digit a
          | _ => false
          end
  | dm => match w with
          | [a; b] => is_digit a && is_digit b
          | [a] => is_digit a
          | _ => false
          end
  | dy => match w with
          | [a; b] => is_digit a && is_digit b
          | _ => false
          end
  | dY => match w with
          | [a; b; c; e] => is_digit a && is_digit b && is_digit c && is_digit e
          | _ => false
          end
  | dB => str_mem (lower w) month_alternatives
  | dLit c => match w with
              | [x] => Ascii.eqb (lower_c x) (lower_c c)
              | _ => false
              end
  | dSpace => nonempty w && forallb is_space w
  end.

(** A text is of the shape of a format when it is cut into the texts of its
    directives. *)
Definition shaped (fmt : list directive) (t : str) : Prop :=
  exists pieces, t = concat pieces
                 /\ Forall2 (fun d w => piece_ok d w = true) fmt pieces.

(** An automaton that dies on a character of [A] followed by one of [B];
    its state tells whether the last character was of [A]. *)
Section PairAutomaton.

Variables A B : ascii -> bool.

Definition pstep (st : option bool) (c : ascii) : option bool :=
  match st with
  | None => None
  | Some b => if b && B c then None else Some (A c)
  end.

Definition prun (st : option bool) (w : str) : option bool :=
  fold_left pstep w st.

End PairAutomaton.

(** The automaton for a digit followed by a letter, on the text of a
    directive. *)
Definition digit_letter_dir (d : directive) (b : bool) : option bool :=
  match d with
  | dB => if b then None else Some false
  | dSpace => Some false
  | dLit c => if is_alpha c then (if b then None else Some false)
              else Some (is_digit c)
  | _ => Some true
  end.

Definition run_dirs (f : directive -> bool -> option bool) (fmt : list directive)
  (st : option bool) : option bool :=
  fold_left (fun st d => match st with Some b => f d b | None => None end) fmt st.

(** A fingerprint that tells the shapes of the formats apart: for a text
    with a letter, whether it starts with one; for a text without, the
    classes of its characters. *)
Definition cls (c : ascii) : nat :=
  if is_digit c then 0 else if is_space c then 1 else if is_alpha c then 2
  else 3 + code c.

Definition fingerprint (t : str) : list nat :=
  if existsb is_alpha t then
    match t with
    | c :: _ => if is_alpha c then [1001] else [1000]
    | [] => []
    end
  else map cls t.

Definition piece_classes (d : directive) : list (list nat) :=
  match d with
  | dd => [[0; 0]; [1; 0]; [0]]
  | dm => [[0; 0]; [0]]
  | dy => [[0; 0]]
  | dY => [[0; 0; 0; 0]]
  | dLit c => [[cls c]]
  | dB | dSpace => []
  end.

Fixpoint words (ls : list (list (list nat))) : list (list nat) :=
  match ls with
  | [] => [[]]
  | opts :: ls' => flat_map (fun o => map (app o) (words ls')) opts
  end.

Definition is_dB (d : directive) : bool :=
  match d with dB => true | _ => false end.

Definition numeric_dir (d : directive) : bool :=
  match d with
  | dB | dSpace => false
  | dLit c => negb (is_alpha c)
  | _ => true
  end.

Definition fingerprints (fmt : list directive) : list (list nat) :=
  if existsb is_dB fmt then
    match fmt with
    | dB :: _ => [[1001]]
    | _ => [[1000]]
    end
  else words (map piece_classes fmt).

Fixpoint word_eqb (a b : list nat) : bool :=
  match a, b with
  | [], [] => true
  | x :: a', y :: b' => Nat.eqb x y && word_eqb a' b'
  | _, _ => false
  end.

Definition disjoint_words (l1 l2 : list (list nat)) : bool :=
  forallb (fun k => negb (existsb (word_eqb k) l2)) l1.

(** The characters other than the letters of the ordinal suffixes, in
    either case: what no stripping of a suffix removes. *)
Definition ord_letter (c : ascii) : bool := one_of "stndrh" (lower_c c).
Definition not_ord (c : ascii) : bool := negb (ord_letter c).

(** The letters among them. *)
Definition kept_letter (c : ascii) : bool := is_alpha c && not_ord c.

(** The two formats with a month name. *)
Definition month_first : list directive := [dB; dSpace; dd; dLit ","; dSpace; dY].
Definition day_first : list directive := [dd; dSpace; dB; dLit ","; dSpace; dY].

(** A directive whose literal, if it is one, is no letter. *)
Definition dir_plain (d : directive) : bool :=
  match d with dLit c => negb (is_alpha c) | _ => true end.

(** What a match replaced by a template gives out. *)
Definition emit (repl : mstate -> str) (x : piece) : str :=
  match x with Lit c => [c] | Hit m => repl m end.

(** *** Batches *)

Definition is_loaded {A : Type} (e : str * option A) : bool :=
  match snd e with Some _ => true | None => false end.

(** The entries of a listing that could be read, and the number of those
    that could not. *)
Definition readable {A : Type} (l : Loader.listing A) : Loader.listing A :=
  filter is_loaded l.

Definition unreadable {A : Type} (l : Loader.listing A) : nat :=
  length (filter (fun e => negb (is_loaded e)) l).

Definition skipped (fs : Loader.store) : nat :=
  unreadable (Loader.md_files fs) + unreadable (Loader.std_json_files fs)
  + unreadable (Loader.npa_json_files fs).

(** ** Sample inputs *)

Module Samples.

Definition lines (l : list str) : str := join [newline] l.

Definition field_value_table : str :=
  lines [ "| Field | Value |"; "|---|---|"; "| Court | High Court |";
          "| Presiding Judge | Sri X |" ].

Definition single_column_table : str :=
  lines [ "| Field |"; "|---|"; "| a |"; "| b |" ].

Definition repeated_header_table : str :=
  lines [ "| Field | Field |"; "|---|---|"; "| a | b |" ].

Definition audit_with_rollup : str :=
  lines [ "### Police"; "Score: 4"; "### Overall Lapse Severity Score";
          "**Score: 7**"; "Rationale: delays." ].


End Samples.

(** ** The cases table ([database.py]: [clean_text], [load_from_json],
    [load_initial_data]; [migrate_dates.py]; [migrate_districts.py])

    The table is the list of its rows in the order of their ids.  A row is
    addressed by its id, the primary key, so an [UPDATE ... WHERE id = ?]
    inside a loop over the fetched rows changes the row at hand and no
    other.  A column holds a text or NULL ([None]); a date is stored as the
    text of [str(d)]. *)

Module Db.

Local Open Scope Z_scope.

(** [str(d)] of a [datetime.date]: [%04d-%02d-%02d]. *)
Definition digit_chr (n : Z) : ascii := ascii_of_nat (48 + Z.to_nat (n mod 10)).

Definition pad2 (n : Z) : str := [digit_chr (n / 10); digit_chr n].

Definition pad4 (n : Z) : str :=
  [digit_chr (n / 1000); digit_chr (n / 100); digit_chr (n / 10); digit_chr n].

Definition isoformat (d : date) : str :=
  pad4 (year d) ++ "-" ++ pad2 (month d) ++ "-" ++ pad2 (day d).

(** [%Y-%m-%d], the format of [load_initial_data]. *)
Definition iso_format : list directive := [dY; dLit "-"; dm; dLit "-"; dd].

(** [datetime.strptime(date_str, "%Y-%m-%d").date()] in a [try] whose
    [except] gives [None]. *)
Definition initial_filing_date (date_str : str) : option date :=
  strptime date_str iso_format.

(** The columns of [cases] but the id; [date_text] is the column [date]. *)
Record case_row := CaseRow {
  corno : option str;
  accused : option str;
  complaintant : option str;
  prosecution : option str;
  court : option str;
  judge : option str;
  district : option str;
  chargesheet : option str;
  plea : option str;
  defense : option str;
  sentence_issued : option str;
  date_text : option str;
  filing_date : option str;
  summary : option str
}.

Definition set_filing_date (v : option str) (r : case_row) : case_row :=
  CaseRow (corno r) (accused r) (complaintant r) (prosecution r) (court r)
    (judge r) (district r) (chargesheet r) (plea r) (defense r)
    (sentence_issued r) (date_text r) v (summary r).

Definition set_district (v : option str) (r : case_row) : case_row :=
  CaseRow (corno r) (accused r) (complaintant r) (prosecution r) (court r)
    (judge r) v (chargesheet r) (plea r) (defense r)
    (sentence_issued r) (date_text r) (filing_date r) (summary r).

(** [str(v)] of a column value. *)
Definition py_str (v : option str) : str :=
  match v with Some s => s | None => "None" end.

(** Truthiness of a column value. *)
Definition truthy (v : option str) : bool :=
  match v with Some (_ :: _) => true | _ => false end.

(** *** [migrate_dates.migrate]: one pass of the loop body over a row; the
    flag tells whether the row was updated. *)
Definition migrate_date_row (now_year : Z) (r : case_row) : case_row * bool :=
  match date_text r with
  | Some (c :: s) =>
      match parse_date now_year (c :: s) with
      | Some new_date =>
          if negb (str_eqb (isoformat new_date) (py_str (filing_date r)))
          then (set_filing_date (Some (isoformat new_date)) r, true)
          else (r, false)
      | None =>
          if truthy (filing_date r) then (set_filing_date None r, true)
          else (r, false)
      end
  | _ => (r, false)
  end.

(** The table after the run and the number of rows updated. *)
Definition migrate_dates (now_year : Z) (cases : list case_row)
  : list case_row * nat :=
  let out := map (migrate_date_row now_year) cases in
  (map fst out, length (filter snd out)).

(** *** [migrate_districts.migrate_districts] *)
Definition opt_str_eqb (a b : option str) : bool :=
  match a, b with
  | Some x, Some y => str_eqb x y
  | None, None => true
  | _, _ => false
  end.

Definition migrate_district_row (r : case_row) : case_row * bool :=
  let old_dist := district r in
  let new_dist := District.normalize_district old_dist in
  if negb (opt_str_eqb old_dist new_dist) then (set_district new_dist r, true)
  else (r, false).

Definition migrate_districts (cases : list case_row) : list case_row * nat :=
  let out := map migrate_district_row cases in
  (map fst out, length (filter snd out)).

(** *** [load_from_json]

    The values of an uploaded record: [null], a text, or a list of texts
    (other JSON values are not covered). *)
Inductive jvalue :=
| JNull
| JStr (s : str)
| JList (l : list str).

Definition item := list (str * jvalue).

(** [item.get(k)] *)
Fixpoint get (k : str) (it : item) : jvalue :=
  match it with
  | [] => JNull
  | (k', v) :: it' => if str_eqb k k' then v else get k it'
  end.

(** [item.get(k, "")] *)
Fixpoint get_or_empty (k : str) (it : item) : jvalue :=
  match it with
  | [] => JStr []
  | (k', v) :: it' => if str_eqb k k' then v else get_or_empty k it'
  end.

Definition jtruthy (v : jvalue) : bool :=
  match v with
  | JNull => false
  | JStr s => nonempty s
  | JList l => match l with [] => false | _ :: _ => true end
  end.

(** [clean_text(text)] *)
Definition clean_text (text : jvalue) : str :=
  if negb (jtruthy text) then []
  else match text with
       | JList l => join ", " l
       | JStr s => py_strip s
       | JNull => []
       end.

(** [s.endswith(x)] *)
Definition endswith (x s : str) : bool := startswith (rev x) (rev s).

(** [parse_date] and [normalize_district] on a value of a record: on a
    non-empty list they raise ([None]: [AttributeError], a list has no
    [strip]). *)
Definition parse_date_value (now_year : Z) (v : jvalue) : option (option date) :=
  match v with
  | JNull => Some None
  | JStr s => Some (parse_date now_year s)
  | JList [] => Some None
  | JList (_ :: _) => None
  end.

Definition normalize_district_value (v : jvalue) : option (option str) :=
  match v with
  | JNull => Some (District.normalize_district None)
  | JStr s => Some (District.normalize_district (Some s))
  | JList [] => Some (Some "Unknown")
  | JList (_ :: _) => None
  end.

(** The outcome of the loop body on one record. *)
Inductive step_result :=
| Raised
| Skipped
| Inserted (r : case_row).

Definition load_item (now_year : Z) (it : item) : step_result :=
  let corno := clean_text (get "corno" it) in
  if nonempty corno && startswith "[" corno && endswith "]" corno then Skipped
  else
    let complaintant :=
      if jtruthy (get "complaintant" it) then get "complaintant" it
      else get "complaininat" it in
    let date_str := get_or_empty "date" it in
    match parse_date_value now_year date_str with
    | None => Raised
    | Some filing_date =>
        match normalize_district_value (get_or_empty "district" it) with
        | None => Raised
        | Some None => Skipped
        | Some (Some district) =>
            Inserted
              (CaseRow (Some (clean_text (get "corno" it)))
                 (Some (clean_text (get "accused" it)))
                 (Some (clean_text complaintant))
                 (Some (clean_text (get "prosecution" it)))
                 (Some (clean_text (get "court" it)))
                 (Some (clean_text (get "judge" it)))
                 (Some district)
                 (Some (clean_text (get "chargesheet" it)))
                 (Some (clean_text (get "plea" it)))
                 (Some (clean_text (get "defense" it)))
                 (Some (clean_text (get "sentence_issued" it)))
                 (Some (clean_text date_str))
                 (option_map isoformat filing_date)
                 (Some (clean_text (get "summary" it))))
        end
    end.

(** The loop: the rows inserted so far and their count; [None] once a
    record has raised. *)
Fixpoint load_items (now_year : Z) (items : list item) (acc : list case_row)
  (count : nat) : option (list case_row * nat) :=
  match items with
  | [] => Some (acc, count)
  | it :: items' =>
      match load_item now_year it with
      | Raised => None
      | Skipped => load_items now_year items' acc count
      | Inserted r => load_items now_year items' (acc ++ [r]) (S count)
      end
  end.

(** The uploaded document: a list of records, one document with a
    [metadata] object, one flat record, or something else. *)
Inductive upload :=
| UList (items : list item)
| UDocument (meta : item) (summary : jvalue)
| UFlat (it : item)
| UOther.

Definition items_to_process (data : upload) : list item :=
  match data with
  | UList items => items
  | UDocument meta summary =>
      [[ ("corno", get "case_number" meta);
         ("accused", get "accused_name" meta);
         ("complaintant", get "complaintant" meta);
         ("prosecution", get "prosecution_advocate" meta);
         ("court", get "court" meta);
         ("judge", get "judge" meta);
         ("district", get "district" meta);
         ("chargesheet", get "charges" meta);
         ("plea", get "accused_plea" meta);
         ("defense", get "defense_advocate" meta);
         ("sentence_issued", get "sentence_issued" meta);
         ("date", get "date_of_judgment" meta);
         ("summary", summary) ]]
  | UFlat it => [it]
  | UOther => []
  end.

(** [load_from_json(data)]: the table after the call, and the count
    returned, or [None] when the call raised (after the rollback). *)
Definition load_from_json (now_year : Z) (cases : list case_row) (data : upload)
  : list case_row * option nat :=
  match load_items now_year (items_to_process data) [] 0 with
  | Some (rows, count) => (cases ++ rows, Some count)
  | None => (cases, None)
  end.

(** *** Vocabulary *)

(** A placeholder case number: [[...]]. *)
Definition bracketed (corno : str) : bool :=
  nonempty corno && startswith "[" corno && endswith "]" corno.

(** What holds of every row that an upload inserts. *)
Definition inserted_ok (now_year : Z) (r : case_row) : Prop :=
  (exists c, district r = Some c /\ c <> [])
  /\ (exists x, corno r = Some x /\ bracketed x = false)
  /\ (filing_date r = None
      \/ exists d, filing_date r = Some (isoformat d)
                   /\ valid_date d = true /\ year d <= now_year + 1).

(** A row with nothing but a date text, and one with nothing but a
    district. *)
Definition row_with_date (s : str) : case_row :=
  CaseRow None None None None None None None None None None None (Some s) None None.

Definition row_with_district (s : str) : case_row :=
  CaseRow None None None None None None (Some s) None None None None None None None.

End Db.

(** ** Further vocabulary *)

(** The fields that the templates read off a metadata mapping. *)
Definition metadata_fields : list str :=
  [ "court"; "judge"; "case_number"; "parties"; "date_iso"; "date_natural" ].

(** A mapping whose keys are fields of the templates, each once. *)
Definition fields_only (d : dict) : Prop :=
  NoDup (keys d) /\ forall k, In k (keys d) -> In k metadata_fields.

(** [d.get(k, 0)] on a counting [dict]. *)
Fixpoint count_get (k : str) (d : list (str * Z)) : Z :=
  match d with
  | [] => 0%Z
  | (k', n) :: d' => if str_eqb k k' then n else count_get k d'
  end.

(** The number of entries of a list view with a given outcome. *)
Definition with_outcome (k : str) (l : list Loader.summary) : nat :=
  length (filter (fun a => str_eqb (Loader.outcome a) k) l).

(** [x] occurs in [t] at its end only. *)
Definition only_at_end (x t : str) : Prop :=
  forall u v, t = u ++ x ++ v -> v = [].

(** ** The case model ([models.py], [Case.is_active] and [Case.verdict])

    The three fields the two properties read; a field is a text or
    [None]. *)

Module Models.

Record Case := {
  date : option str;
  sentence_issued : option str;
  summary : option str
}.

(** [(v or "")] *)
Definition or_empty (v : option str) : str :=
  match v with Some s => s | None => [] end.

Definition invalid_dates : list str :=
  [ "not specified"; "not mentioned"; "unknown"; "none"; "not provided" ].

Definition invalid_markers : list str :=
  [ "not specified"; "not mentioned"; "unknown"; "none" ].

Definition has_date (c : Case) : bool :=
  let lower_date := py_strip (lower (or_empty (date c))) in
  nonempty lower_date && negb (existsb (fun d => str_in d lower_date) invalid_dates).

(** The truth value of [has_valid_sentence]. *)
Definition has_valid_sentence (c : Case) : bool :=
  let lower_sentence := lower (or_empty (sentence_issued c)) in
  nonempty lower_sentence
  && negb (existsb (fun m => str_in m lower_sentence) invalid_markers).

Definition is_active (c : Case) : bool :=
  if has_date c then false
  else if has_valid_sentence c then false
  else true.

(** The part of [verdict] that reads the sentence; [None] when it falls
    through. *)
Definition verdict_of_sentence (lower_sentence : str) : option str :=
  if str_in "acquitte" lower_sentence || str_in "not guilty" lower_sentence
  then Some "Acquittal"
  else if str_in "convict" lower_sentence || str_in "guilty" lower_sentence
  then Some "Conviction"
  else if str_in "dismiss" lower_sentence then Some "Dismissed"
  else None.

(** The part that reads the summary. *)
Definition verdict_of_summary (lower_summary : str) : option str :=
  if str_in "acquittal" lower_summary || str_in "acquitted" lower_summary
     || str_in "not guilty" lower_summary
  then Some "Acquittal"
  else if str_in "conviction" lower_summary || str_in "convicted" lower_summary
          || str_in "guilty" lower_summary
  then Some "Conviction"
  else if str_in "dismiss" lower_summary then Some "Dismissed"
  else None.

Definition verdict (c : Case) : str :=
  if is_active c then "Pending"
  else
    let lower_sentence := lower (or_empty (sentence_issued c)) in
    let is_valid_sentence :=
      nonempty lower_sentence
      && negb (existsb (fun m => str_in m lower_sentence) invalid_markers) in
    match (if is_valid_sentence then verdict_of_sentence lower_sentence else None) with
    | Some v => v
    | None =>
        match (if nonempty (or_empty (summary c))
               then verdict_of_summary (lower (or_empty (summary c)))
               else None) with
        | Some v => v
        | None => "Decided"
        end
    end.

(** The values of [verdict]. *)
Definition verdicts : list str :=
  [ "Pending"; "Acquittal"; "Conviction"; "Dismissed"; "Decided" ].

End Models.

(** ** The HTML filter ([main.py], [md_to_html]) *)

Module Html.

Definition dq : ascii := ascii_of_nat 34.

(** An opening tag with its class attribute. *)
Definition tag_open (name cls_attr : str) : str :=
  "<" ++ name ++ " class=" ++ [dq] ++ cls_attr ++ [dq] ++ ">".

(** [^###\s+(.[*])$], [^##\s+(.[*])$], [^#\s+(.[*])$], MULTILINE *)
Definition h_re (marks : str) : re :=
  Seq [ Bol true; lit marks; Plus Greedy space; Group 1 (Star Greedy any); Eol true ].

Definition h3 (m : mstate) : str :=
  tag_open "h3" "text-sm font-bold mt-4 mb-2 text-slate-800 dark:text-slate-200"
  ++ backref 1 m ++ "</h3>".
Definition h2 (m : mstate) : str :=
  tag_open "h2" "text-base font-bold mt-5 mb-3 text-slate-800 dark:text-slate-200"
  ++ backref 1 m ++ "</h2>".
Definition h1 (m : mstate) : str :=
  tag_open "h1" "text-lg font-bold mt-6 mb-4 text-slate-900 dark:text-white"
  ++ backref 1 m ++ "</h1>".

(** [^---$], MULTILINE *)
Definition hr_re : re := Seq [ Bol true; lit "---"; Eol true ].
Definition hr : str := "<hr class='my-4 border-slate-300 dark:border-slate-600'/>".

(** [^>\s+(.[*])$], MULTILINE *)
Definition quote_re : re :=
  Seq [ Bol true; chr ">"; Plus Greedy space; Group 1 (Star Greedy any); Eol true ].
Definition blockquote (m : mstate) : str :=
  "<blockquote class='border-l-4 border-slate-300 dark:border-slate-600 pl-4 italic my-2 text-slate-600 dark:text-slate-400'>"
  ++ backref 1 m ++ "</blockquote>".

(** [</name>\s[*]<name[^>][*]>] *)
Definition adjacent_re (name : str) : re :=
  Seq [ lit ("</" ++ name ++ ">"); Star Greedy space; lit ("<" ++ name);
        Star Greedy (ncls ">"); chr ">" ].

(** [^\s[*][-[*]]\s+(.[*])$], MULTILINE *)
Definition ul_re : re :=
  Seq [ Bol true; Star Greedy space; Re.cls "-*"; Plus Greedy space;
        Group 1 (Star Greedy any); Eol true ].
Definition ul (m : mstate) : str :=
  tag_open "ul" "list-disc pl-5 my-1 text-slate-600 dark:text-slate-400"
  ++ "<li>" ++ backref 1 m ++ "</li></ul>".

(** [^\s[*]\d+\.\s+(.[*])$], MULTILINE *)
Definition ol_re : re :=
  Seq [ Bol true; Star Greedy space; Plus Greedy digit; chr "."; Plus Greedy space;
        Group 1 (Star Greedy any); Eol true ].
Definition ol (m : mstate) : str :=
  tag_open "ol" "list-decimal pl-5 my-1 text-slate-600 dark:text-slate-400"
  ++ "<li>" ++ backref 1 m ++ "</li></ol>".

(** [[*][*]([^[*]]+?)[*][*]] *)
Definition strong_re : re :=
  Seq [ lit "**"; Group 1 (Plus Lazy (ncls "*")); lit "**" ].
Definition strong (m : mstate) : str :=
  "<strong class='font-semibold text-slate-700 dark:text-slate-300'>"
  ++ backref 1 m ++ "</strong>".

(** [<br>\s[*]<(ul|ol|hr|blockquote)] replaced by [<\1] *)
Definition br_before_re : re :=
  Seq [ lit "<br>"; Star Greedy space; chr "<";
        Group 1 (Alts [lit "ul"; lit "ol"; lit "hr"; lit "blockquote"]) ].
Definition br_before (m : mstate) : str := "<" ++ backref 1 m.

(** [</(ul|ol|blockquote)>\s[*]<br>] replaced by [</\1>] *)
Definition br_after_re : re :=
  Seq [ lit "</"; Group 1 (Alts [lit "ul"; lit "ol"; lit "blockquote"]); chr ">";
        Star Greedy space; lit "<br>" ].
Definition br_after (m : mstate) : str := "</" ++ backref 1 m ++ ">".

(** [<hr[^>][*]>\s[*]<br>] *)
Definition hr_br_re : re :=
  Seq [ lit "<hr"; Star Greedy (ncls ">"); chr ">"; Star Greedy space; lit "<br>" ].

Definition md_to_html (text : str) : str :=
  if negb (nonempty text) then []
  else
    let text := re_sub (h_re "###") h3 text in
    let text := re_sub (h_re "##") h2 text in
    let text := re_sub (h_re "#") h1 text in
    let text := re_sub hr_re (fun _ => hr) text in
    let text := re_sub quote_re blockquote text in
    let text := re_sub (adjacent_re "blockquote") (fun _ => " ") text in
    let text := re_sub ul_re ul text in
    let text := re_sub (adjacent_re "ul") erase text in
    let text := re_sub ol_re ol text in
    let text := re_sub (adjacent_re "ol") erase text in
    let text := re_sub strong_re strong text in
    let text := replace [newline] "<br>" text in
    let text := re_sub br_before_re br_before text in
    let text := re_sub br_after_re br_after text in
    re_sub hr_br_re (fun _ => hr) text.

(** The characters that the filter gives a meaning to. *)
Definition markup (c : ascii) : bool :=
  one_of "#->*<" c || Ascii.eqb c newline || is_digit c.

End Html.

(** ** Patterns that need a character

    [needs bad r] tells, from the form of [r], that every text of [r] holds
    a character of [bad]. *)

Definition all_ascii : list ascii := map ascii_of_nat (seq 0 256).

Fixpoint needs (bad : ascii -> bool) (r : re) : bool :=
  match r with
  | Chr p => forallb (fun c => implb (p c) (bad c)) all_ascii
  | Cat a b => needs bad a || needs bad b
  | Alt a b => needs bad a && needs bad b
  | Group _ a => needs bad a
  | _ => false
  end.


(** A text on one line. *)
Definition no_newline (s : str) : Prop := Forall (fun x => x <> newline) s.


(** ** The queries ([services/analytics.py])

    The two SQL expressions that classify a row, as functions of the
    columns they read (a column is a text or NULL), and the pagination of
    [get_paginated_records]. *)

Module Analytics.
Local Open Scope Z_scope.

(** [v IS NULL OR v = '' OR lower(v) IN (...)] *)
Definition missing_or_in (v : option str) (values : list str) : bool :=
  match v with
  | None => true
  | Some s => negb (nonempty s) || existsb (str_eqb (lower s)) values
  end.

(** [lower(v) LIKE '%x%'], which is not true of NULL. *)
Definition lower_like (v : option str) (x : str) : bool :=
  match v with
  | None => false
  | Some s => str_in x (lower s)
  end.

(** The first [WHEN] of both expressions. *)
Definition pending_sql (date sentence_issued : option str) : bool :=
  missing_or_in date
    [ "not specified"; "not mentioned"; "unknown"; "none"; "not provided" ]
  && missing_or_in sentence_issued
       [ "not specified"; "not mentioned"; "unknown"; "none" ].

Definition IS_ACTIVE_SQL (date sentence_issued : option str) : Z :=
  if pending_sql date sentence_issued then 1 else 0.

Definition VERDICT_SQL (date sentence_issued summary : option str) : str :=
  if pending_sql date sentence_issued then "Pending"
  else if lower_like sentence_issued "acquitte"
          || lower_like sentence_issued "not guilty" then "Acquittal"
  else if lower_like sentence_issued "convict"
          || lower_like sentence_issued "guilty" then "Conviction"
  else if lower_like sentence_issued "dismiss" then "Dismissed"
  else if lower_like summary "acquittal" || lower_like summary "acquitted"
          || lower_like summary "not guilty" then "Acquittal"
  else if lower_like summary "conviction" || lower_like summary "convicted"
          || lower_like summary "guilty" then "Conviction"
  else if lower_like summary "dismiss" then "Dismissed"
  else "Decided".

(** An integer that can be bound to a parameter of a query. *)
Definition fits64 (n : Z) : bool := (- 2 ^ 63 <=? n) && (n <? 2 ^ 63).

(** [LIMIT ? OFFSET ?]: a negative limit is no limit and a negative offset
    is no offset. *)
Definition limit_offset {A : Type} (limit offset : Z) (rows : list A) : list A :=
  let rest := skipn (Z.to_nat offset) rows in
  if limit <? 0 then rest else firstn (Z.to_nat limit) rest.

Record page_result (A : Type) := PageResult {
  cases : list A;
  total_count : Z;
  page : Z;
  page_size : Z;
  total_pages : Z
}.

(** [selection] is what the query selects, in its order (the filters and
    [ORDER BY filing_date DESC, id DESC] applied).  [None] stands for an
    exception: a parameter that does not fit, or the division by zero. *)
Definition get_paginated_records {A : Type} (selection : list A)
  (page page_size : Z) : option (page_result A) :=
  let total_count := Z.of_nat (length selection) in
  let offset := (page - 1) * page_size in
  if negb (fits64 page_size && fits64 offset) then None
  else
    let rows := limit_offset page_size offset selection in
    if page_size =? 0 then None
    else Some (PageResult rows total_count page page_size
                 ((total_count + page_size - 1) / page_size)).

End Analytics.

(** The rows shown on a page, none when the call fails. *)
Definition page_rows {A : Type} (selection : list A) (page page_size : Z) : list A :=
  match Analytics.get_paginated_records selection page page_size with
  | Some r => Analytics.cases r
  | None => []
  end.

(** The pages from the first to the last, one after the other. *)
Definition all_pages {A : Type} (selection : list A) (page_size : Z) : list A :=
  match Analytics.get_paginated_records selection 1 page_size with
  | Some r =>
      flat_map (fun p => page_rows selection (Z.of_nat p) page_size)
               (seq 1 (Z.to_nat (Analytics.total_pages r)))
  | None => []
  end.


(** ** The credentials ([auth.py])

    The credentials file holds a JSON object: user names to user records, a
    record being an object with text values.  The state of the file is
    [None] while the file does not exist.  bcrypt is a parameter: [hashpw]
    with the salt that [gensalt] drew, and [checkpw]; [None] stands for an
    exception. *)

Module Auth.

Definition user := dict.
Definition creds := list (str * user).

(** [creds.get(k)] *)
Fixpoint creds_get (k : str) (c : creds) : option user :=
  match c with
  | [] => None
  | (k', u) :: c' => if str_eqb k k' then Some u else creds_get k c'
  end.

(** [k in creds] *)
Definition creds_mem (k : str) (c : creds) : bool :=
  existsb (fun e => str_eqb k (fst e)) c.

(** [creds[k] = u]: an existing key keeps its place, a new one comes last. *)
Fixpoint creds_put (k : str) (u : user) (c : creds) : creds :=
  match c with
  | [] => [(k, u)]
  | (k', u') :: c' =>
      if str_eqb k k' then (k', u) :: c' else (k', u') :: creds_put k u c'
  end.

(** What [creds.pop(k)] leaves. *)
Definition creds_pop (k : str) (c : creds) : creds :=
  filter (fun e => negb (str_eqb k (fst e))) c.

(** Truthiness of a user record: [if not user] *)
Definition is_user (u : user) : bool :=
  match u with [] => false | _ :: _ => true end.

(** The result of a call ([None] when it raises) and the file after it. *)
Definition outcome (A : Type) : Type := option A * option creds.

Section Bcrypt.

Variable hashpw : str -> str -> option str.
Variable checkpw : str -> str -> option bool.

Definition _hash_password (salt plain : str) : option str := hashpw plain salt.

Definition _verify_password (plain hashed : str) : bool :=
  match checkpw plain hashed with
  | Some b => b
  | None => false
  end.

Definition default_creds (password_hash : str) : creds :=
  [ ("admin", [ ("password_hash", password_hash);
                ("display_name", "Administrator") ]) ].

(** The credentials read, and the file after the call; [None] when the
    hashing of the default password raises. *)
Definition _load_credentials (salt0 : str) (file : option creds)
  : option (creds * option creds) :=
  match file with
  | None =>
      match _hash_password salt0 "admin123" with
      | Some h => Some (default_creds h, Some (default_creds h))
      | None => None
      end
  | Some c => Some (c, file)
  end.

Definition authenticate_user (salt0 salt : str) (username password : str)
  (file : option creds) : outcome bool :=
  if negb (nonempty username) || negb (nonempty password) then (Some false, file)
  else
    match _load_credentials salt0 file with
    | None => (None, file)
    | Some (creds, file1) =>
        match creds_get username creds with
        | None =>
            match _hash_password salt "dummy" with
            | Some _ => (Some false, file1)
            | None => (None, file1)
            end
        | Some user =>
            if negb (is_user user) then
              match _hash_password salt "dummy" with
              | Some _ => (Some false, file1)
              | None => (None, file1)
              end
            else
              match dict_get "password_hash" user with
              | None => (None, file1)
              | Some h => (Some (_verify_password password h), file1)
              end
        end
    end.

Definition change_password (salt0 salt : str)
  (username current_password new_password : str) (file : option creds)
  : outcome (bool * str) :=
  if negb (nonempty current_password) || negb (nonempty new_password)
  then (Some (false, "All fields are required."), file)
  else if (length new_password <? 6)%nat
  then (Some (false, "New password must be at least 6 characters."), file)
  else
    match _load_credentials salt0 file with
    | None => (None, file)
    | Some (creds, file1) =>
        match creds_get username creds with
        | None => (Some (false, "User not found."), file1)
        | Some user =>
            if negb (is_user user) then (Some (false, "User not found."), file1)
            else
              match dict_get "password_hash" user with
              | None => (None, file1)
              | Some h =>
                  if negb (_verify_password current_password h)
                  then (Some (false, "Current password is incorrect."), file1)
                  else
                    match _hash_password salt new_password with
                    | None => (None, file1)
                    | Some h' =>
                        (Some (true, "Password changed successfully."),
                         Some (creds_put username
                                 (dict_set "password_hash" h' user) creds))
                    end
              end
        end
    end.

Definition change_username (salt0 : str)
  (current_username new_username password : str) (file : option creds)
  : outcome (bool * str) :=
  if negb (nonempty new_username) || negb (nonempty password)
  then (Some (false, "All fields are required."), file)
  else if (length new_username <? 3)%nat
  then (Some (false, "Username must be at least 3 characters."), file)
  else
    match _load_credentials salt0 file with
    | None => (None, file)
    | Some (creds, file1) =>
        match creds_get current_username creds with
        | None => (Some (false, "User not found."), file1)
        | Some user =>
            if negb (is_user user) then (Some (false, "User not found."), file1)
            else
              match dict_get "password_hash" user with
              | None => (None, file1)
              | Some h =>
                  if negb (_verify_password password h)
                  then (Some (false, "Password is incorrect."), file1)
                  else if creds_mem new_username creds
                          && negb (str_eqb new_username current_username)
                  then (Some (false, "Username already exists."), file1)
                  else
                    (Some (true, "Username changed successfully."),
                     Some (creds_put new_username user
                             (creds_pop current_username creds)))
              end
        end
    end.

(** [user.get("display_name", username) if user else username] *)
Definition get_display_name (salt0 : str) (username : str) (file : option creds)
  : outcome str :=
  match _load_credentials salt0 file with
  | None => (None, file)
  | Some (creds, file1) =>
      match creds_get username creds with
      | None => (Some username, file1)
      | Some user =>
          if negb (is_user user) then (Some username, file1)
          else
            match dict_get "display_name" user with
            | Some n => (Some n, file1)
            | None => (Some username, file1)
            end
      end
  end.

End Bcrypt.

(** The record stored under a name. *)
Definition stored (file : option creds) (username : str) : option user :=
  match file with
  | Some c => creds_get username c
  | None => None
  end.

(** A stand-in for bcrypt, for examples: the hash of a password is the
    salt, a dollar sign and the password. *)
Definition toy_hashpw (plain salt : str) : option str := Some (salt ++ "$" ++ plain).
Definition toy_checkpw (plain hashed : str) : option bool :=
  Some (Db.endswith ("$" ++ plain) hashed).

Definition sample_file : option creds :=
  Some [ ("admin", [ ("password_hash", "s1$admin123");
                     ("display_name", "Administrator") ]);
         ("clerk", [ ("password_hash", "s2$records");
                     ("display_name", "Clerk") ]) ].

End Auth.


(** *** Scores in an audit text *)







(** Audit texts for the examples. *)
Module Audits.







End Audits.

(** *** District names *)

(** The words that the rules of [normalize_district] look for, and "dist",
    which the cleaning takes out. *)
Definition rule_words : list str :=
  District.ranga_reddy_aliases
  ++ [ "lucknow"; "nalgonda"; "miryalaguda"; "yadadri"; "bhongir";
       "mahabubnagar"; "nagarkurnool"; "wanaparthy"; "jogulamba"; "gadwal";
       "nizamabad"; "pali"; "ramareddy"; "dichpally"; "kamareddy"; "yellareddy";
       "adilabad"; "karimnagar"; "khammam"; "bhadradri"; "warangal";
       "hanamkonda"; "sangareddy"; "siddipet"; "medak"; "hyderabad";
       "secunderabad"; "medchal"; "malkajgiri"; "kukatpally"; "vikarabad";
       "dist" ].

(** A text of ASCII characters (code points below 128), on which the case
    mappings and the blanks of the embedding are those of Python. *)
Definition ascii_text (s : str) : Prop := Forall (fun c => (code c < 128)%nat) s.







(** What the cleaning of [normalize_district] leaves of a text that no rule
    matched, before the title-casing: a non-empty, trimmed, lower-case text
    without a period that is neither "r r" nor a placeholder. *)
Definition cleaned (clean : str) : Prop :=
  clean <> [] /\ py_strip clean = clean /\ lower clean = clean
  /\ ~ contains "." clean
  /\ str_eqb clean "r r" = false /\ str_mem clean District.placeholders = false.











(** * Properties *)

(** ** Strings *)

Module PyStrFacts.

Lemma eqb_true (a b : ascii) : Ascii.eqb a b = true -> a = b.
Proof. apply Ascii.eqb_eq. Qed.

Lemma startswith_app (p t : str) : startswith p (p ++ t) = true.
Proof.
  induction p as [|a p IH]; simpl; [reflexivity|].
  now rewrite Ascii.eqb_refl, IH.
Qed.

Lemma startswith_inv (p s : str) :
  startswith p s = true -> exists t, s = p ++ t.
Proof.
  revert s; induction p as [|a p IH]; intros s H.
  - now exists s.
  - destruct s as [|b s]; simpl in H; [discriminate|].
    apply andb_true_iff in H as [Hab Hp].
    apply eqb_true in Hab; subst b.
    destruct (IH _ Hp) as [t ->]. now exists t.
Qed.

Lemma startswith_spec (p s : str) :
  startswith p s = true <-> exists t, s = p ++ t.
Proof.
  split; [apply startswith_inv|].
  intros [t ->]; apply startswith_app.
Qed.

Lemma str_in_unfold (x s : str) :
  str_in x s
  = startswith x s || match s with [] => false | _ :: tl => str_in x tl end.
Proof. destruct s; reflexivity. Qed.

Lemma str_in_intro (x u v : str) : str_in x (u ++ x ++ v) = true.
Proof.
  induction u as [|c u IH]; simpl.
  - rewrite str_in_unfold, startswith_app. reflexivity.
  - rewrite IH. apply orb_true_r.
Qed.

Lemma str_in_inv (x t : str) : str_in x t = true -> contains x t.
Proof.
  induction t as [|c t IH]; simpl; intros H.
  - rewrite orb_false_r in H. destruct x; [|discriminate].
    now exists [], [].
  - apply orb_true_iff in H as [H|H].
    + destruct (startswith_inv x (c :: t) H) as [v Hv].
      exists [], v. exact Hv.
    + destruct (IH H) as (u & v & ->). now exists (c :: u), v.
Qed.

(** Python's [in] on strings is the occurrence relation. *)
Lemma str_in_spec (x t : str) : str_in x t = true <-> contains x t.
Proof.
  split; [apply str_in_inv|].
  intros (u & v & ->); apply str_in_intro.
Qed.

Lemma str_in_false (x t : str) : ~ contains x t -> str_in x t = false.
Proof.
  intros H. destruct (str_in x t) eqn:E; [|reflexivity].
  exfalso. apply H. now apply str_in_spec.
Qed.

Lemma str_eqb_spec (a b : str) : str_eqb a b = true <-> a = b.
Proof.
  revert b; induction a as [|x a IH]; intros [|y b]; simpl;
    try (split; [discriminate|discriminate]); try tauto.
  rewrite andb_true_iff, Ascii.eqb_eq, IH.
  split; [intros [-> ->]; reflexivity | intros [= -> ->]; auto].
Qed.

Lemma lower_app (a b : str) : lower (a ++ b) = lower a ++ lower b.
Proof. apply map_app. Qed.

Lemma upper_app (a b : str) : upper (a ++ b) = upper a ++ upper b.
Proof. apply map_app. Qed.

Lemma contains_lower (x t : str) : contains_ci x t -> contains x (lower t).
Proof.
  intros (u & w & v & -> & <-).
  exists (lower u), (lower v). now rewrite !lower_app.
Qed.

Lemma contains_trans (x t s : str) : contains x t -> contains t s -> contains x s.
Proof.
  intros (u & v & ->) (u' & v' & ->).
  exists (u' ++ u), (v ++ v'). now rewrite <- !app_assoc.
Qed.

(** Stripping keeps a block of the text. *)
Lemma drop_while_suffix (p : ascii -> bool) (s : str) :
  exists u, s = u ++ drop_while p s.
Proof.
  induction s as [|c s [u IH]]; simpl.
  - now exists [].
  - destruct (p c).
    + exists (c :: u). simpl. now f_equal.
    + now exists [].
Qed.

Lemma strip_by_block (p : ascii -> bool) (s : str) : contains (strip_by p s) s.
Proof.
  unfold strip_by, rstrip_by, lstrip_by.
  destruct (drop_while_suffix p s) as [u Hu].
  destruct (drop_while_suffix p (rev (drop_while p s))) as [v Hv].
  exists u, (rev v).
  rewrite Hu at 1. f_equal.
  rewrite <- (rev_involutive (drop_while p s)) at 1.
  rewrite Hv at 1. now rewrite rev_app_distr.
Qed.

(** Stripping does not reach past a character outside the stripped set. *)
Lemma drop_while_keeps (p : ascii -> bool) (a : str) (c : ascii) (r : str) :
  p c = false -> exists a', drop_while p (a ++ c :: r) = a' ++ c :: r.
Proof.
  intros Hc. induction a as [|x a [a' IH]]; simpl.
  - rewrite Hc. now exists [].
  - destruct (p x); [now exists a' | now exists (x :: a)].
Qed.

Lemma rstrip_by_keeps (p : ascii -> bool) (l : str) (c : ascii) (b : str) :
  p c = false -> exists b', rstrip_by p (l ++ c :: b) = l ++ c :: b'.
Proof.
  intros Hc. unfold rstrip_by.
  replace (rev (l ++ c :: b)) with (rev b ++ c :: rev l)
    by (rewrite rev_app_distr; simpl; now rewrite <- app_assoc).
  destruct (drop_while_keeps p (rev b) c (rev l) Hc) as [b' ->].
  exists (rev b').
  rewrite rev_app_distr. simpl. rewrite rev_involutive, <- app_assoc. reflexivity.
Qed.

Lemma strip_by_keeps (p : ascii -> bool) (a : str) (c : ascii) (w : str)
  (c' : ascii) (b : str) :
  p c = false -> p c' = false ->
  contains (c :: w ++ [c']) (strip_by p (a ++ (c :: w ++ [c']) ++ b)).
Proof.
  intros Hc Hc'. unfold strip_by, lstrip_by.
  simpl. destruct (drop_while_keeps p a c ((w ++ [c']) ++ b) Hc) as [a' ->].
  replace (a' ++ c :: (w ++ [c']) ++ b) with ((a' ++ c :: w) ++ c' :: b)
    by (rewrite <- !app_assoc; reflexivity).
  destruct (rstrip_by_keeps p (a' ++ c :: w) c' b Hc') as [b' ->].
  exists a', b'. simpl. rewrite <- !app_assoc. reflexivity.
Qed.

(** Case mapping does not touch blanks. *)
Lemma lower_c_space (c : ascii) : is_space (lower_c c) = is_space c.
Proof.
  destruct c as [[] [] [] [] [] [] [] []]; reflexivity.
Qed.

Lemma lower_c_idem (c : ascii) : lower_c (lower_c c) = lower_c c.
Proof.
  destruct c as [[] [] [] [] [] [] [] []]; reflexivity.
Qed.

Lemma existsb_false_forall {A} (f : A -> bool) (l : list A) :
  (forall x, In x l -> f x = false) -> existsb f l = false.
Proof.
  intros H. induction l as [|a l IH]; simpl; [reflexivity|].
  rewrite H by now left. apply IH. intros x Hx. apply H. now right.
Qed.

End PyStrFacts.

Import PyStrFacts.

(** ** District canonicalizer *)

Module DistrictFacts.

Import District.

Lemma contains_lower_strip (x s : str) :
  contains x (lower (py_strip s)) -> contains x (lower s).
Proof.
  intros H. apply (contains_trans H).
  destruct (strip_by_block is_space s) as (u & v & E).
  exists (lower u), (lower v).
  rewrite E at 1. now rewrite !lower_app.
Qed.

Lemma lower_not_space (c x : ascii) :
  lower_c c = x -> is_space x = false -> is_space c = false.
Proof. intros <-. now rewrite lower_c_space. Qed.

(** A word in some letter case, without blanks at its ends, survives the
    trimming and the lower-casing. *)
Lemma survives_strip (x s : str) (c c' : ascii) (m : str) :
  x = c :: m ++ [c'] -> is_space c = false -> is_space c' = false ->
  contains_ci x s -> contains x (lower (py_strip s)).
Proof.
  intros -> Hc Hc' (u & w & v & -> & Hw).
  destruct w as [|a w]; [discriminate|].
  injection Hw as Ha Hw.
  destruct (exists_last (l := w)) as (w' & a' & ->).
  { intros ->. destruct m; discriminate. }
  unfold lower in Hw. rewrite map_app in Hw. simpl in Hw.
  apply app_inj_tail in Hw as [Hw' Ha'].
  destruct (strip_by_keeps is_space u a w' a' v) as (u' & v' & E).
  - now apply (lower_not_space a Ha).
  - now apply (lower_not_space a' Ha').
  - unfold py_strip. rewrite E.
    exists (lower u'), (lower v').
    rewrite !lower_app. simpl. rewrite lower_app. simpl.
    unfold lower. now rewrite Ha, Hw', Ha'.
Qed.

(** C4, as the code has it: a text with "lucknow" in any letter case and
    none of the Ranga Reddy aliases (which are tested first) yields the
    exclusion signal [None], which is not the value "Unknown". *)
Theorem lucknow_excluded (s : str) :
  contains_ci "lucknow" s ->
  (forall x, In x ranga_reddy_aliases -> ~ contains x (lower s)) ->
  normalize_district (Some s) = None
  /\ normalize_district (Some s) <> Some "Unknown".
Proof.
  intros Hl Hrr.
  assert (E : normalize_district (Some s) = None).
  { unfold normalize_district.
    destruct s as [|c0 s0] eqn:Es.
    { destruct Hl as (u & w & v & Hs & Hw).
      destruct u; [destruct w; discriminate | discriminate]. }
    rewrite <- Es in *. clear Es c0 s0.
    rewrite existsb_false_forall.
    2:{ intros x Hx. apply str_in_false. intros Hc.
        apply (Hrr x Hx). now apply contains_lower_strip. }
    replace (str_in "lucknow" (lower (py_strip s))) with true; [reflexivity|].
    symmetry. apply str_in_spec.
    now apply (@survives_strip "lucknow" s "l" "w" "uckno"). }
  split; [exact E | rewrite E; discriminate].
Qed.

Lemma lucknow_excluded_witness :
  normalize_district (Some "Lucknow Bench") = None
  /\ normalize_district (Some "Lucknow Bench") <> Some "Unknown".
Proof.
  apply (@lucknow_excluded "Lucknow Bench").
  - exists [], "Lucknow", " Bench". split; reflexivity.
  - intros x Hx Hc. apply str_in_spec in Hc.
    simpl in Hx.
    repeat (destruct Hx as [<- | Hx]; [vm_compute in Hc; discriminate|]).
    exact Hx.
Defined.

(** C4 as stated fails: a Ranga Reddy alias next to "Lucknow" wins. *)
Lemma lucknow_with_alias_not_excluded :
  contains_ci "lucknow" "Lucknow Road, Cyberabad"
  /\ normalize_district (Some "Lucknow Road, Cyberabad") = Some "Ranga Reddy".
Proof.
  split; [|reflexivity].
  exists [], "Lucknow", " Road, Cyberabad". split; reflexivity.
Qed.

End DistrictFacts.

(** ** Outcome classifier *)

Module OutcomeFacts.

Import Outcome.

Lemma has_prefix_ci_spec (P f : str) :
  startswith P (upper f) = true <-> has_prefix_ci P f.
Proof.
  rewrite startswith_spec. split.
  - intros [t Ht]. unfold upper in Ht.
    apply map_eq_app in Ht as (p & t' & -> & Hp & _).
    now exists p, t'.
  - intros (p & t & -> & <-). exists (upper t). apply upper_app.
Qed.

Lemma no_prefix (P f : str) : ~ has_prefix_ci P f -> startswith P (upper f) = false.
Proof.
  intros H. destruct (startswith P (upper f)) eqn:E; [|reflexivity].
  exfalso. now apply H, has_prefix_ci_spec.
Qed.

Lemma existsb_in (kw t : str) (l : list str) :
  In kw l -> contains kw t -> existsb (fun k => str_in k t) l = true.
Proof.
  intros Hin Hc. apply existsb_exists. exists kw. split; [exact Hin|].
  now apply str_in_spec.
Qed.

(** C10: without an outcome prefix on the file name, a summary that holds a
    conviction phrase and an acquittal phrase is classified "Convicted". *)
Theorem conviction_tested_first (filename legal_summary kc ka : str) :
  ~ has_prefix_ci "ACQUITTED" filename ->
  ~ has_prefix_ci "CONVICTED" filename ->
  ~ has_prefix_ci "CONVICTION" filename ->
  In kc conviction_keywords -> contains_ci kc legal_summary ->
  In ka acquittal_keywords -> contains_ci ka legal_summary ->
  extract_outcome_from_filename filename legal_summary = "Convicted".
Proof.
  intros Ha Hc Hc' Hkc Hsc _ _.
  unfold extract_outcome_from_filename.
  rewrite (no_prefix Ha), (no_prefix Hc), (no_prefix Hc').
  assert (Hne : nonempty legal_summary = true).
  { destruct Hsc as (u & w & v & -> & Hw).
    destruct u; [|reflexivity].
    destruct w; [|reflexivity].
    simpl in Hw. subst kc. simpl in Hkc.
    repeat (destruct Hkc as [Hkc|Hkc]; [discriminate|]). contradiction. }
  rewrite Hne, (existsb_in _ Hkc (contains_lower Hsc)). reflexivity.
Qed.

Lemma conviction_tested_first_witness :
  extract_outcome_from_filename "case_2024_analysis.md"
    "He was Found Guilty on count 1 and acquitted on count 2."
  = "Convicted".
Proof.
  apply (@conviction_tested_first _ _ "found guilty" "acquitted").
  - intros H. apply has_prefix_ci_spec in H. discriminate.
  - intros H. apply has_prefix_ci_spec in H. discriminate.
  - intros H. apply has_prefix_ci_spec in H. discriminate.
  - simpl. auto.
  - exists "He was ", "Found Guilty", " on count 1 and acquitted on count 2.".
    split; reflexivity.
  - simpl. auto.
  - exists "He was Found Guilty on count 1 and ", "acquitted", " on count 2.".
    split; reflexivity.
Defined.

End OutcomeFacts.

(** ** Detail lookup *)

Module DetailFacts.

Import Detail.

(** C9: a slug with the prefix "npa_" is handed to the JSON reader with the
    file [stem.json] of the NPA directory, one with "std_" with the file
    [stem.json] of the standard directory, the stem being the slug without
    its four-character prefix; the markdown reader plays no part. *)
Theorem prefixed_slug_resolution
  (BASE_DIR : str) (detail : Type)
  (load_json load_md load_md' : str -> str -> option detail) :
  load_analysis_detail BASE_DIR load_json load_md "npa_12"
  = load_json (path_join (NPA_ANALYSIS_DIR BASE_DIR) "12.json") "npa_12"
  /\ load_analysis_detail BASE_DIR load_json load_md "std_ACQUITTED_x"
     = load_json (path_join (ANALYSIS_DIR BASE_DIR) "ACQUITTED_x.json")
         "std_ACQUITTED_x"
  /\ (forall stem,
        load_analysis_detail BASE_DIR load_json load_md ("npa_" ++ stem)
        = load_json (path_join (NPA_ANALYSIS_DIR BASE_DIR) (stem ++ ".json"))
            ("npa_" ++ stem))
  /\ (forall stem,
        load_analysis_detail BASE_DIR load_json load_md ("std_" ++ stem)
        = load_json (path_join (ANALYSIS_DIR BASE_DIR) (stem ++ ".json"))
            ("std_" ++ stem))
  /\ (forall slug,
        has_prefix "npa_" slug \/ has_prefix "std_" slug ->
        load_analysis_detail BASE_DIR load_json load_md slug
        = load_analysis_detail BASE_DIR load_json load_md' slug).
Proof.
  repeat split; try reflexivity.
  intros slug [[t ->] | [t ->]]; reflexivity.
Qed.

End DetailFacts.

(** ** The matcher *)

Module ReFacts.

Lemma prev_after_app (p : option ascii) (w1 w2 : str) :
  prev_after p (w1 ++ w2) = prev_after (prev_after p w1) w2.
Proof. apply fold_left_app. Qed.

Lemma reaches_refl (r : re) (st : mstate) : lang r [] -> reaches r st st.
Proof.
  intros H. exists [], []. repeat split; auto. intros n u [].
Qed.

Lemma reaches_cat (r1 r2 : re) (st st1 st2 : mstate) :
  reaches r1 st st1 -> reaches r2 st1 st2 -> reaches (Cat r1 r2) st st2.
Proof.
  intros (w1 & n1 & L1 & R1 & P1 & C1 & G1) (w2 & n2 & L2 & R2 & P2 & C2 & G2).
  exists (w1 ++ w2), (n2 ++ n1). repeat split.
  - now constructor.
  - now rewrite R1, R2, app_assoc.
  - now rewrite prev_after_app, <- P1.
  - now rewrite C2, C1, app_assoc.
  - intros n u Hin. simpl. apply in_app_or in Hin as [Hin|Hin].
    + destruct (G2 _ _ Hin) as (b & Hb & Lb). exists b. split; auto.
      apply in_or_app. now right.
    + destruct (G1 _ _ Hin) as (b & Hb & Lb). exists b. split; auto.
      apply in_or_app. now left.
Qed.

Lemma reaches_star (g : greed) (r : re) (st st1 st2 : mstate) :
  reaches r st st1 -> reaches (Star g r) st1 st2 -> reaches (Star g r) st st2.
Proof.
  intros (w1 & n1 & L1 & R1 & P1 & C1 & G1) (w2 & n2 & L2 & R2 & P2 & C2 & G2).
  exists (w1 ++ w2), (n2 ++ n1). repeat split.
  - now constructor.
  - now rewrite R1, R2, app_assoc.
  - now rewrite prev_after_app, <- P1.
  - now rewrite C2, C1, app_assoc.
  - intros n u Hin.
    apply in_app_or in Hin as [Hin|Hin]; [exact (G2 _ _ Hin)|exact (G1 _ _ Hin)].
Qed.

Lemma reaches_alt (r1 r2 : re) (st st1 : mstate) :
  reaches r1 st st1 \/ reaches r2 st st1 -> reaches (Alt r1 r2) st st1.
Proof.
  intros [(w & n & L & R & P & C & G) | (w & n & L & R & P & C & G)];
    exists w, n; repeat split; auto.
  - now apply lang_alt_l.
  - intros i u Hin. destruct (G _ _ Hin) as (b & Hb & Lb). exists b.
    split; auto. simpl. apply in_or_app. now left.
  - now apply lang_alt_r.
  - intros i u Hin. destruct (G _ _ Hin) as (b & Hb & Lb). exists b.
    split; auto. simpl. apply in_or_app. now right.
Qed.

Lemma firstn_consumed (w t : str) :
  firstn (length (w ++ t) - length t) (w ++ t) = w.
Proof.
  rewrite length_app, Nat.add_sub.
  rewrite firstn_app, Nat.sub_diag, firstn_all. simpl. apply app_nil_r.
Qed.

Lemma reaches_group (n : nat) (r : re) (st st1 : mstate) :
  reaches r st st1 ->
  reaches (Group n r) st
    (set_cap n (firstn (length (rest st) - length (rest st1)) (rest st)) st1).
Proof.
  intros (w & new & L & R & P & C & G).
  exists w, ((n, w) :: new). repeat split; auto.
  - now constructor.
  - simpl. rewrite R, firstn_consumed, C. reflexivity.
  - intros i u [[= <- <-] | Hin]; simpl.
    + exists r. rewrite Nat.eqb_refl. split; [now left | exact L].
    + destruct (G _ _ Hin) as (b & Hb & Lb). exists b. split; auto.
      apply in_or_app. now right.
Qed.

Section StarLoop.

Variables (body : mstate -> (mstate -> option mstate) -> option mstate)
          (r : re) (g : greed).

Hypothesis body_sound :
  forall st k x, body st k = Some x -> exists st1, reaches r st st1 /\ k st1 = Some x.

Lemma star_loop_sound (k : mstate -> option mstate) (fuel : nat) :
  forall st x, star_loop body g k fuel st = Some x ->
    exists st1, reaches (Star g r) st st1 /\ k st1 = Some x.
Proof.
  induction fuel as [|f IH]; intros st x H; simpl in H.
  - exists st. split; [apply reaches_refl; constructor | exact H].
  - assert (Again : forall y,
      body st (fun st1 => if length (rest st1) <? length (rest st)
                          then star_loop body g k f st1 else None) = Some y ->
      exists st1, reaches (Star g r) st st1 /\ k st1 = Some y).
    { intros y Hy. apply body_sound in Hy as (st' & R' & Hy).
      destruct (length (rest st') <? length (rest st)); [|discriminate].
      apply IH in Hy as (st1 & R1 & K1).
      exists st1. split; [now apply (reaches_star R')|exact K1]. }
    assert (Stop : forall y, k st = Some y ->
      exists st1, reaches (Star g r) st st1 /\ k st1 = Some y).
    { intros y Hy. exists st. split; [apply reaches_refl; constructor|exact Hy]. }
    destruct g.
    + destruct (body st _) eqn:E.
      * injection H as <-. now apply Again.
      * now apply Stop.
    + destruct (k st) eqn:E.
      * injection H as <-. now apply Stop.
      * now apply Again.
Qed.

End StarLoop.

(** Soundness of the matcher: a success went through the continuation at a
    state reached by consuming a text of the pattern. *)
Lemma rmatch_sound (r : re) :
  forall st k x, rmatch r st k = Some x ->
    exists st1, reaches r st st1 /\ k st1 = Some x.
Proof.
  induction r as [ | p | r1 IH1 r2 IH2 | r1 IH1 r2 IH2 | g r1 IH1 | n r1 IH1
                 | ml | ml | | r1 IH1 ]; intros st k x H; simpl in H.
  - exists st. split; [apply reaches_refl; constructor | exact H].
  - destruct (rest st) as [|c tl] eqn:E; [discriminate|].
    destruct (p c) eqn:Hp; [|discriminate].
    exists (step c tl st). split; [|exact H].
    exists [c], []. repeat split; auto.
    + now constructor.
    + intros n u [].
  - apply IH1 in H as (st1 & R1 & H). apply IH2 in H as (st2 & R2 & H).
    exists st2. split; [now apply (reaches_cat R1)|exact H].
  - destruct (rmatch r1 st k) eqn:E.
    + injection H as <-. apply IH1 in E as (st1 & R1 & E).
      exists st1. split; [apply reaches_alt; now left|exact E].
    + apply IH2 in H as (st1 & R1 & H).
      exists st1. split; [apply reaches_alt; now right|exact H].
  - apply star_loop_sound with (r := r1) in H; [exact H | exact IH1].
  - apply IH1 in H as (st1 & R1 & H).
    eexists. split; [apply (reaches_group n R1)|exact H].
  - destruct (at_bol ml st); [|discriminate].
    exists st. split; [apply reaches_refl; constructor | exact H].
  - destruct (at_eol ml st); [|discriminate].
    exists st. split; [apply reaches_refl; constructor | exact H].
  - destruct (at_wordb st); [|discriminate].
    exists st. split; [apply reaches_refl; constructor | exact H].
  - destruct (rmatch r1 st Some); [|discriminate].
    exists st. split; [apply reaches_refl; constructor | exact H].
Qed.

Lemma exec_sound (r : re) (p : option ascii) (s : str) (m : mstate) :
  exec r p s = Some m -> reaches r (init p s) m.
Proof.
  intros H. apply rmatch_sound in H as (st1 & R & [= <-]). exact R.
Qed.

(** What a match captured in a group is a text of a body of that group. *)
Lemma exec_group (r : re) (p : option ascii) (s : str) (m : mstate) (n : nat) (u : str) :
  exec r p s = Some m -> group n m = Some u ->
  exists b, In b (group_bodies n r) /\ lang b u.
Proof.
  intros H Hg. apply exec_sound in H as (w & new & _ & _ & _ & C & G).
  simpl in C. rewrite app_nil_r in C.
  apply (G n u). unfold group in Hg. rewrite C in Hg. clear C G.
  induction new as [|[i v] new IH]; simpl in Hg; [discriminate|].
  destruct (Nat.eqb i n) eqn:E.
  - apply Nat.eqb_eq in E. injection Hg as ->. subst i. now left.
  - right. now apply IH.
Qed.

Lemma search_from_exec (r : re) (s : str) :
  forall p m, search_from r p s = Some m -> exists p' s', exec r p' s' = Some m.
Proof.
  induction s as [|c s IH]; intros p m H; simpl in H.
  - destruct (exec r p []) eqn:E; [|discriminate].
    injection H as <-. eauto.
  - destruct (exec r p (c :: s)) eqn:E.
    + injection H as <-. eauto.
    + eapply IH, H.
Qed.

Lemma scan_exec (r : re) (s : str) :
  forall p skip m, In (Hit m) (scan r p s skip) ->
    exists p' s', exec r p' s' = Some m.
Proof.
  induction s as [|c s IH]; intros p skip m H.
  - destruct skip; simpl in H; [|contradiction].
    destruct (exec r p []) eqn:E; [|contradiction].
    destruct H as [[= <-]|[]]. eauto.
  - destruct skip; simpl in H; [|eapply IH, H].
    destruct (exec r p (c :: s)) eqn:E.
    + destruct H as [[= <-]|H]; [eauto|].
      apply in_app_or in H as [H|H].
      * destruct (Nat.eqb _ 0); [destruct H as [H|[]]; discriminate | contradiction].
      * eapply IH, H.
    + destruct H as [H|H]; [discriminate|]. eapply IH, H.
Qed.

(** A pattern that ends in a group always captures it. *)
Lemma rmatch_ends_in_group (n : nat) (b r : re) :
  ends_in_group n b r ->
  forall st m, rmatch r st Some = Some m ->
    exists w, group n m = Some w /\ lang b w.
Proof.
  induction 1 as [|a r _ IH]; intros st m H; simpl in H.
  - apply rmatch_sound in H as (st1 & (w & new & L & R & _) & [= <-]).
    exists w. split; [|exact L].
    unfold group. simpl. rewrite Nat.eqb_refl, R, firstn_consumed. reflexivity.
  - apply rmatch_sound in H as (st1 & _ & H). now apply (IH st1).
Qed.

(** *** Running the matcher on a text of known shape *)

Lemma rmatch_chr (p : ascii -> bool) (c : ascii) (tl : str) (pv : option ascii)
  (cs : list (nat * str)) (k : mstate -> option mstate) :
  p c = true ->
  rmatch (Chr p) (MState pv (c :: tl) cs) k = k (MState (Some c) tl cs).
Proof. intros H. simpl. now rewrite H. Qed.



Lemma lang_lit_ci (w h : str) : lang (lit_ci w) h -> lower h = lower w.
Proof.
  revert h. induction w as [|c w IH]; intros h H.
  - now inversion H.
  - destruct w as [|c' w'].
    + inversion H as [ | p x Hx | | | | | | | | | | ]; subst. simpl.
      apply Ascii.eqb_eq in Hx. now rewrite Hx.
    + change (lit_ci (c :: c' :: w')) with (Cat (chr_ci c) (lit_ci (c' :: w'))) in H.
      inversion H as [ | | r1 r2 w1 w2 H1 H2 | | | | | | | | | ]; subst.
      inversion H1 as [ | p x Hx | | | | | | | | | | ]; subst.
      apply Ascii.eqb_eq in Hx. simpl. rewrite Hx. f_equal.
      now apply IH.
Qed.


(** A lazy repetition of a character class passes over a run of the class
    on which the continuation fails. *)
Lemma star_lazy_skip (p : ascii -> bool) (k : mstate -> option mstate)
  (cs : list (nat * str)) (t : str) (run : str) :
  Forall (fun c => p c = true) run ->
  (forall c tl pv, In c run -> k (MState pv (c :: tl) cs) = None) ->
  forall pv,
    star_loop (rmatch (Chr p)) Lazy k (length (run ++ t)) (MState pv (run ++ t) cs)
    = star_loop (rmatch (Chr p)) Lazy k (length t)
        (MState (prev_after pv run) t cs).
Proof.
  induction run as [|c run IH]; intros Hp Hk pv; [reflexivity|].
  inversion Hp as [|? ? Hc Hrun]; subst.
  cbn [app length star_loop].
  rewrite Hk by now left.
  rewrite rmatch_chr by exact Hc.
  cbn [rest length].
  replace (length (run ++ t) <? S (length (run ++ t)))%nat with true
    by (symmetry; apply Nat.ltb_lt; lia).
  apply IH; [exact Hrun|].
  intros c' tl pv' Hin. apply Hk. now right.
Qed.



End ReFacts.

Import ReFacts.

(** ** Integers read from matched digits *)

Module IntFacts.

Local Open Scope Z_scope.

Lemma lang_star_chr (g : greed) (p : ascii -> bool) (w : str) :
  lang (Star g (Chr p)) w -> Forall (fun c => p c = true) w.
Proof.
  intros H. remember (Star g (Chr p)) as r eqn:Er.
  induction H; try discriminate.
  - constructor.
  - injection Er as -> ->.
    apply Forall_app. split; [|now apply IHlang2].
    inversion H; subst. now repeat constructor.
Qed.

Lemma lang_plus_chr (g : greed) (p : ascii -> bool) (w : str) :
  lang (Plus g (Chr p)) w -> w <> [] /\ Forall (fun c => p c = true) w.
Proof.
  intros H. inversion H as [ | | r1 r2 w1 w2 H1 H2 | | | | | | | | | ]; subst.
  inversion H1; subst. split; [discriminate|].
  constructor; [assumption|]. now apply lang_star_chr in H2.
Qed.

Lemma digit_not_space (c : ascii) : is_digit c = true -> is_space c = false.
Proof. destruct c as [[] [] [] [] [] [] [] []]; vm_compute; congruence. Qed.

Lemma digit_not_sign (c : ascii) :
  is_digit c = true -> Ascii.eqb c "-" = false /\ Ascii.eqb c "+" = false.
Proof. destruct c as [[] [] [] [] [] [] [] []]; vm_compute; auto; discriminate. Qed.

Lemma drop_while_none (p : ascii -> bool) (w : str) :
  Forall (fun c => p c = false) w -> drop_while p w = w.
Proof. intros H. destruct H as [|c w Hc]; simpl; [reflexivity|now rewrite Hc]. Qed.

Lemma strip_by_none (p : ascii -> bool) (w : str) :
  Forall (fun c => p c = false) w -> strip_by p w = w.
Proof.
  intros H. unfold strip_by, rstrip_by, lstrip_by.
  rewrite (@drop_while_none p w H), drop_while_none; [apply rev_involutive|].
  now apply Forall_rev.
Qed.

Lemma digits_val_nonneg (w : str) :
  Forall (fun c => is_digit c = true) w ->
  forall acc, 0 <= acc -> exists v, digits_val acc w = Some v /\ 0 <= v.
Proof.
  induction 1 as [|c w Hc _ IH]; intros acc Hacc; cbn [digits_val].
  - now exists acc.
  - rewrite Hc. apply IH. unfold digit_val. lia.
Qed.

(** [int] of a non-empty run of digits is a natural number. *)
Lemma py_int_digits (w : str) :
  w <> [] -> Forall (fun c => is_digit c = true) w ->
  exists v, py_int w = Some v /\ 0 <= v.
Proof.
  intros Hne Hd. unfold py_int. unfold py_strip.
  rewrite strip_by_none.
  2:{ eapply Forall_impl; [|exact Hd]. apply digit_not_space. }
  destruct w as [|c ds]; [contradiction|].
  assert (Hc : is_digit c = true) by now inversion Hd.
  destruct (digit_not_sign c Hc) as [-> ->].
  now apply digits_val_nonneg.
Qed.

Lemma py_int_empty : py_int [] = None.
Proof. reflexivity. Qed.

(** The integer read from group 1 of a match, when all groups 1 of the
    pattern are [(\d+)]. *)
Lemma int_backref_nonneg (r : re) (p : option ascii) (s : str) (m : mstate) (v : Z) :
  group_bodies 1 r = [Plus Greedy digit] ->
  exec r p s = Some m -> py_int (backref 1 m) = Some v -> 0 <= v.
Proof.
  intros Hg He Hv. unfold backref in Hv.
  destruct (group 1 m) as [u|] eqn:Gu; [|discriminate].
  destruct (exec_group _ _ _ _ He Gu) as (b & Hb & Lb).
  rewrite Hg in Hb. destruct Hb as [<-|[]].
  apply lang_plus_chr in Lb as [Hne Hd].
  destruct (py_int_digits Hne Hd) as (v' & E & Hv').
  congruence.
Qed.

End IntFacts.

Import IntFacts.

(** ** Severity score extractor *)

Module SeverityFacts.

Import Severity.
Local Open Scope Z_scope.

Lemma overall_score_nonneg (c : str) (v : Z) : overall_score c = Some v -> 0 <= v.
Proof.
  unfold overall_score, re_search.
  destruct (search_from overall_re None c) as [m|] eqn:E; [|discriminate].
  destruct (search_from_exec _ _ _ E) as (p' & s' & He).
  now apply (@int_backref_nonneg overall_re p' s' m v).
Qed.

Lemma lapse_score_nonneg (c : str) (v : Z) : lapse_score c = Some v -> 0 <= v.
Proof.
  unfold lapse_score, re_search.
  destruct (search_from lapse_re None c) as [m|] eqn:E; [|discriminate].
  destruct (search_from_exec _ _ _ E) as (p' & s' & He).
  now apply (@int_backref_nonneg lapse_re p' s' m v).
Qed.

Lemma last_line_score_nonneg (c : str) (v : Z) : last_line_score c = Some v -> 0 <= v.
Proof.
  unfold last_line_score.
  destruct (rev (re_findall any_score_re c)) as [|w l] eqn:E; [discriminate|].
  intros Hv.
  assert (Hin : In w (re_findall any_score_re c)).
  { apply in_rev. rewrite E. now left. }
  unfold re_findall in Hin. apply in_flat_map in Hin as ([ch|m] & Hp & Hw).
  - contradiction.
  - destruct Hw as [<-|[]].
    destruct (scan_exec _ _ _ _ _ Hp) as (p' & s' & He).
    now apply (@int_backref_nonneg any_score_re p' s' m v).
Qed.

(** *** The rollup score after the heading *)






Lemma ends_overall : ends_in_group 1 (Plus Greedy digit) overall_re.
Proof. unfold overall_re. cbn [Seq]. repeat constructor. Qed.

Lemma ends_lapse : ends_in_group 1 (Plus Greedy digit) lapse_re.
Proof. unfold lapse_re. cbn [Seq]. repeat constructor. Qed.

(** [int] does not fail on the group of a match. *)
Lemma int_group1_defined (r : re) (c : str) (m : mstate) :
  ends_in_group 1 (Plus Greedy digit) r ->
  re_search r c = Some m -> exists v, int_group1 m = Some v.
Proof.
  intros He H. apply search_from_exec in H as (p' & s' & H).
  destruct (rmatch_ends_in_group He _ H) as (w & Hw & L).
  apply lang_plus_chr in L as [Hne Hd].
  destruct (py_int_digits Hne Hd) as (v & Hv & _).
  exists v. unfold int_group1, backref. now rewrite Hw.
Qed.

Lemma overall_score_none (c : str) :
  overall_score c = None -> re_search overall_re c = None.
Proof.
  unfold overall_score. destruct (re_search overall_re c) as [m|] eqn:E; [|reflexivity].
  destruct (@int_group1_defined overall_re c m ends_overall E) as [v ->]. discriminate.
Qed.

Lemma lapse_score_none (c : str) :
  lapse_score c = None -> re_search lapse_re c = None.
Proof.
  unfold lapse_score. destruct (re_search lapse_re c) as [m|] eqn:E; [|reflexivity].
  destruct (@int_group1_defined lapse_re c m ends_lapse E) as [v ->]. discriminate.
Qed.

(** The three tiers, as functions of the content. *)
Lemma severity_list_tiers (stored : option Z) (c : str) :
  severity_list stored c =
  if nonempty c then
    match re_search overall_re c with
    | Some _ => overall_score c
    | None => match re_search lapse_re c with
              | Some _ => lapse_score c
              | None => match stored with
                        | Some v => Some v
                        | None => last_line_score c
                        end
              end
    end
  else stored.
Proof.
  unfold severity_list, overall_score, lapse_score.
  destruct (nonempty c); [|reflexivity].
  destruct (re_search overall_re c); [reflexivity|].
  destruct (re_search lapse_re c); reflexivity.
Qed.

Lemma severity_list_by_scores (stored : option Z) (c : str) :
  severity_list stored c =
  match overall_score c with
  | Some n => Some n
  | None => match lapse_score c with
            | Some n => Some n
            | None => match stored with
                      | Some v => Some v
                      | None => last_line_score c
                      end
            end
  end.
Proof.
  destruct c as [|x c'] eqn:Ec.
  { vm_compute. now destruct stored. }
  rewrite <- Ec. rewrite severity_list_tiers.
  replace (nonempty c) with true by now subst c.
  destruct (overall_score c) as [n|] eqn:E1.
  - unfold overall_score in E1. now destruct (re_search overall_re c).
  - rewrite (overall_score_none _ E1).
    destruct (lapse_score c) as [n|] eqn:E2.
    + unfold lapse_score in E2. now destruct (re_search lapse_re c).
    + now rewrite (lapse_score_none _ E2).
Qed.

End SeverityFacts.

(** ** Date normalizer *)

Module DateFacts.

Local Open Scope Z_scope.

(** Evaluate the closed calls of the strategies in the goal. *)
Ltac eval_strategies :=
  repeat match goal with
  | |- context [strptime ?a ?b] =>
      let v := eval vm_compute in (strptime a b) in
      replace (strptime a b) with v by (vm_compute; reflexivity)
  | |- context [verbose_candidate ?a] =>
      let v := eval vm_compute in (verbose_candidate a) in
      replace (verbose_candidate a) with v by (vm_compute; reflexivity)
  end.

Ltac unfold_parse_date :=
  cbv beta iota zeta delta [parse_date try_formats try_format formats
                            verbose_date nonempty negb].

(** C1, third input: the day pattern of the verbose extractor accepts no
    leading zero, so the day "09" is not found and no date is built,
    whatever the current year. *)
Theorem parse_date_verbose_zero_padded_day (now_year : Z) :
  parse_date now_year "Thursday, this the 09 day of October, 2025." = None
  /\ re_search day_re (verbose_clean "Thursday, this the 09 day of October, 2025.")
     = None.
Proof.
  split; [|vm_compute; reflexivity].
  unfold_parse_date. eval_strategies. reflexivity.
Qed.

(** The first two inputs of C1, and the verbose form with a day that has no
    leading zero, for a current year from 2024 on. *)
Lemma parse_date_examples (now_year : Z) :
  2024 <= now_year ->
  parse_date now_year "03-10-2025" = Some (Date 2025 10 3)
  /\ parse_date now_year "30th December, 2025" = Some (Date 2025 12 30)
  /\ parse_date now_year "Thursday, this the 19 day of October, 2025."
     = Some (Date 2025 10 19).
Proof.
  intros Hnow.
  assert (F : forall m d, too_far now_year (Date 2025 m d) = false).
  { intros m d. unfold too_far. simpl. lia. }
  repeat split; unfold_parse_date; eval_strategies; cbv beta iota;
    rewrite F; reflexivity.
Qed.

Lemma mk_date_valid (y m d : Z) (dt : date) :
  mk_date y m d = Some dt -> valid_date dt = true.
Proof.
  unfold mk_date. destruct (valid_date (Date y m d)) eqn:E; [|discriminate].
  now intros [= <-].
Qed.

Lemma strptime_valid (t : str) (fmt : list directive) (d : date) :
  strptime t fmt = Some d -> valid_date d = true.
Proof.
  unfold strptime. destruct (re_match _ t) as [m|]; [|discriminate].
  destruct (nonempty (rest m)); [discriminate|].
  destruct (found_year m), (found_month m), (found_day m); try discriminate.
  apply mk_date_valid.
Qed.

Lemma verbose_candidate_valid (s : str) (d : date) :
  verbose_candidate s = Some d -> valid_date d = true.
Proof.
  unfold verbose_candidate.
  destruct (option_map _ (re_search year_re _)) as [y|]; [|discriminate].
  destruct (find_month _ _) as [mo|]; [|discriminate].
  destruct (option_map _ (re_search day_re _)) as [dd|]; [|discriminate].
  destruct (_ && _); [|discriminate].
  destruct (py_int y), (py_int dd); try discriminate.
  apply mk_date_valid.
Qed.

(** What the loop over the formats returns is a date that one of the
    formats built and that passed the check of the year. *)
Lemma try_formats_some (now_year : Z) (s_clean s : str) (fmts : list (list directive))
  (d : date) :
  try_formats now_year s_clean s fmts = Some d ->
  too_far now_year d = false
  /\ In d (flat_map (fun fmt =>
              match strptime s_clean fmt with
              | Some d => [d]
              | None => match strptime s fmt with Some d => [d] | None => [] end
              end) fmts)
  /\ valid_date d = true.
Proof.
  induction fmts as [|fmt fmts IH]; cbn [try_formats flat_map]; [discriminate|].
  unfold try_format.
  destruct (strptime s_clean fmt) as [d1|] eqn:E1.
  - destruct (too_far now_year d1) eqn:F1.
    + intros H. destruct (IH H) as (F & Hin & V).
      split; [exact F|]. split; [|exact V]. now right.
    + intros [= <-]. split; [exact F1|]. split; [now left|].
      now apply strptime_valid in E1.
  - destruct (strptime s fmt) as [d2|] eqn:E2.
    + destruct (too_far now_year d2) eqn:F2.
      * intros H. destruct (IH H) as (F & Hin & V).
        split; [exact F|]. split; [|exact V]. now right.
      * intros [= <-]. split; [exact F2|]. split; [now left|].
        now apply strptime_valid in E2.
    + intros H. destruct (IH H) as (F & Hin & V).
      split; [exact F|]. split; [exact Hin|exact V].
Qed.

Lemma parse_date_some (now_year : Z) (date_str : str) (d : date) :
  parse_date now_year date_str = Some d ->
  valid_date d = true /\ too_far now_year d = false /\ In d (candidates date_str).
Proof.
  unfold parse_date, candidates.
  destruct (negb (nonempty date_str)); [discriminate|]. cbv zeta.
  destruct (try_formats _ _ _ _) as [d1|] eqn:E.
  - intros [= <-]. apply try_formats_some in E as (F & Hin & V).
    repeat split; auto. apply in_or_app. now left.
  - unfold verbose_date.
    destruct (verbose_candidate _) as [d2|] eqn:E2; [|discriminate].
    destruct (too_far now_year d2) eqn:F; [discriminate|].
    intros [= <-]. repeat split; auto.
    + now apply verbose_candidate_valid in E2.
    + apply in_or_app. right. now left.
Qed.

End DateFacts.

(** ** Shapes of the texts the strict formats accept *)

Module ShapeFacts.

Local Open Scope Z_scope.

Lemma lang_lit (x w : str) : lang (lit x) w -> w = x.
Proof.
  revert w. induction x as [|c x IH]; intros w H.
  - now inversion H.
  - destruct x as [|c' x'].
    + inversion H as [ | p y Hy | | | | | | | | | | ]; subst.
      apply Ascii.eqb_eq in Hy. now subst.
    + change (lit (c :: c' :: x')) with (Cat (chr c) (lit (c' :: x'))) in H.
      inversion H as [ | | r1 r2 w1 w2 H1 H2 | | | | | | | | | ]; subst.
      inversion H1 as [ | p y Hy | | | | | | | | | | ]; subst.
      apply Ascii.eqb_eq in Hy. subst. simpl. f_equal. now apply IH.
Qed.

Lemma lang_alts (rs : list re) (w : str) :
  lang (Alts rs) w -> exists r, In r rs /\ lang r w.
Proof.
  induction rs as [|r rs IH]; intros H.
  - inversion H as [ | p y Hy | | | | | | | | | | ]; discriminate.
  - destruct rs as [|r' rs'].
    + exists r. split; [now left|exact H].
    + change (Alts (r :: r' :: rs')) with (Alt r (Alts (r' :: rs'))) in H.
      inversion H as [ | | | r1 r2 w1 H1 | r1 r2 w1 H1 | | | | | | | ]; subst.
      * exists r. split; [now left|assumption].
      * destruct (IH H1) as (r0 & Hin & L). exists r0. split; [now right|exact L].
Qed.

Lemma lang_seq (rs : list re) (w : str) :
  lang (Seq rs) w -> exists pieces, w = concat pieces /\ Forall2 lang rs pieces.
Proof.
  revert w. induction rs as [|r rs IH]; intros w H.
  - inversion H. exists []. split; [reflexivity|constructor].
  - destruct rs as [|r' rs'].
    + exists [w]. split; [simpl; now rewrite app_nil_r|now repeat constructor].
    + change (Seq (r :: r' :: rs')) with (Cat r (Seq (r' :: rs'))) in H.
      inversion H as [ | | r1 r2 w1 w2 H1 H2 | | | | | | | | | ]; subst.
      destruct (IH _ H2) as (ps & -> & F).
      exists (w1 :: ps). split; [reflexivity|now constructor].
Qed.

Lemma lang_cat_inv (r1 r2 : re) (w : str) :
  lang (Cat r1 r2) w -> exists w1 w2, w = w1 ++ w2 /\ lang r1 w1 /\ lang r2 w2.
Proof. intros H. inversion H; subst. eauto. Qed.

Lemma lang_group_inv (n : nat) (r : re) (w : str) : lang (Group n r) w -> lang r w.
Proof. intros H. now inversion H. Qed.

Ltac lang_inv :=
  repeat match goal with
  | H : lang (Cat _ _) _ |- _ => inversion H; clear H; subst
  | H : lang (Alt _ _) _ |- _ => inversion H; clear H; subst
  | H : lang (Chr _) _ |- _ => inversion H; clear H; subst
  | H : lang (Group _ _) _ |- _ => inversion H; clear H; subst
  | H : lang Empty _ |- _ => inversion H; clear H; subst
  end.

(** The text of a directive has the form of its piece. *)
Lemma lang_piece (d : directive) (w : str) :
  lang (directive_re d) w -> piece_ok d w = true.
Proof.
  destruct d; intros H.
  - (* %Y *) cbv [directive_re Seq digit] in H. lang_inv. simpl.
    repeat match goal with E : is_digit _ = true |- _ => rewrite E; clear E end.
    reflexivity.
  - (* %m *) cbv [directive_re Alts chr range] in H. lang_inv; simpl;
      repeat match goal with
      | E : Ascii.eqb _ _ = true |- _ => apply Ascii.eqb_eq in E; subst
      end;
      repeat match goal with
      | E : between _ _ ?c = true |- _ =>
          assert (is_digit c = true)
            by (revert E; clear; destruct c as [[] [] [] [] [] [] [] []];
                vm_compute; congruence);
          clear E
      end;
      repeat match goal with E : is_digit _ = true |- _ => rewrite E; clear E end;
      reflexivity.
  - (* %d *) cbv [directive_re Alts chr range digit] in H. lang_inv; simpl;
      repeat match goal with
      | E : Ascii.eqb _ _ = true |- _ => apply Ascii.eqb_eq in E; subst
      end;
      repeat match goal with
      | E : between _ _ ?c = true |- _ =>
          assert (is_digit c = true)
            by (revert E; clear; destruct c as [[] [] [] [] [] [] [] []];
                vm_compute; congruence);
          clear E
      end;
      repeat match goal with E : is_digit _ = true |- _ => rewrite E; clear E end;
      reflexivity.
  - (* %y *) cbv [directive_re digit] in H. lang_inv. simpl.
    repeat match goal with E : is_digit _ = true |- _ => rewrite E; clear E end.
    reflexivity.
  - (* %B *) cbn [directive_re] in H. apply lang_group_inv in H.
    apply lang_alts in H as (r & Hin & L).
    apply in_map_iff in Hin as (name & <- & Hin).
    apply lang_lit_ci in L. cbn [piece_ok]. unfold str_mem. apply existsb_exists.
    exists name. split; [exact Hin|]. apply str_eqb_spec. rewrite L.
    revert Hin. clear. simpl.
    intros H; repeat (destruct H as [<-|H]; [reflexivity|]); contradiction.
  - (* literal *) cbv [directive_re chr_ci] in H. lang_inv. simpl. assumption.
  - (* blanks *) cbn [directive_re] in H. apply lang_plus_chr in H as [Hne Hs].
    cbn [piece_ok]. destruct w; [contradiction|]. cbn [nonempty andb].
    apply forallb_forall. now apply Forall_forall.
Qed.

Lemma forall2_pieces (fmt : list directive) (pieces : list str) :
  Forall2 lang (map directive_re fmt) pieces ->
  Forall2 (fun d w => piece_ok d w = true) fmt pieces.
Proof.
  revert pieces. induction fmt as [|d fmt IH]; intros pieces H; inversion H; subst.
  - constructor.
  - constructor; [now apply lang_piece|now apply IH].
Qed.

(** A text that [strptime] accepts with a format is of its shape. *)
Lemma strptime_shaped (t : str) (fmt : list directive) (d : date) :
  strptime t fmt = Some d -> shaped fmt t.
Proof.
  unfold strptime, re_match.
  destruct (exec (pattern fmt) None t) as [m|] eqn:E; [|discriminate].
  destruct (rest m) as [|c r] eqn:Er; [|discriminate]. intros _.
  apply exec_sound in E as (w & new & L & R & _).
  simpl in R. rewrite Er, app_nil_r in R. subst w.
  apply lang_seq in L as (pieces & -> & F).
  exists pieces. split; [reflexivity|now apply forall2_pieces].
Qed.

(** *** Adjacent characters *)

Section PairFacts.

Variables A B : ascii -> bool.

Lemma prun_none (w : str) : prun A B None w = None.
Proof. induction w; simpl; auto. Qed.

Lemma prun_app (st : option bool) (u v : str) :
  prun A B st (u ++ v) = prun A B (prun A B st u) v.
Proof. apply fold_left_app. Qed.

(** A pair makes the automaton die. *)
Lemma prun_pair (u : str) (x1 x2 : ascii) (v : str) (st : option bool) :
  A x1 = true -> B x2 = true -> prun A B st (u ++ x1 :: x2 :: v) = None.
Proof.
  intros H1 H2. rewrite prun_app.
  destruct (prun A B st u) as [b|]; [|apply prun_none].
  simpl. destruct (b && B x1); simpl; [apply prun_none|].
  rewrite H1, H2. simpl. apply prun_none.
Qed.

(** Without characters of [B] it lives. *)
Lemma prun_no_B (w : str) :
  Forall (fun c => B c = false) w ->
  forall b, prun A B (Some b) w = Some (fold_left (fun _ c => A c) w b).
Proof.
  induction 1 as [|c w Hc _ IH]; intros b; simpl; [reflexivity|].
  rewrite Hc, andb_false_r. apply IH.
Qed.

(** Without characters of [A] it stays where no pair is pending. *)
Lemma prun_no_A (w : str) :
  Forall (fun c => A c = false) w -> prun A B (Some false) w = Some false.
Proof.
  induction 1 as [|c w Hc _ IH]; simpl; [reflexivity|].
  now rewrite Hc.
Qed.

Lemma prun_starts_B (c : ascii) (w : str) :
  B c = true -> prun A B (Some true) (c :: w) = None.
Proof. intros H. simpl. rewrite H. apply prun_none. Qed.

End PairFacts.

Lemma fold_last_false (A : ascii -> bool) (w : str) (b : bool) :
  w <> [] -> Forall (fun c => A c = false) w ->
  fold_left (fun _ c => A c) w b = false.
Proof.
  intros Hne H. revert b. induction H as [|c w Hc Hw IH]; intros b; [contradiction|].
  simpl. destruct w as [|c' w']; [exact Hc|]. apply IH. discriminate.
Qed.

Lemma lower_c_alpha (c : ascii) : is_alpha (lower_c c) = is_alpha c.
Proof. destruct c as [[] [] [] [] [] [] [] []]; reflexivity. Qed.

Lemma lower_c_digit (c : ascii) : is_digit (lower_c c) = is_digit c.
Proof. destruct c as [[] [] [] [] [] [] [] []]; reflexivity. Qed.

Lemma digit_not_alpha (c : ascii) : is_digit c = true -> is_alpha c = false.
Proof. destruct c as [[] [] [] [] [] [] [] []]; vm_compute; congruence. Qed.

Lemma space_not_alpha (c : ascii) : is_space c = true -> is_alpha c = false.
Proof. destruct c as [[] [] [] [] [] [] [] []]; vm_compute; congruence. Qed.

Lemma space_not_digit (c : ascii) : is_space c = true -> is_digit c = false.
Proof. destruct c as [[] [] [] [] [] [] [] []]; vm_compute; congruence. Qed.

(** The letters of a month name. *)
Lemma month_letters (w : str) :
  str_mem (lower w) month_alternatives = true ->
  w <> [] /\ Forall (fun c => is_alpha c = true) w.
Proof.
  intros H. apply existsb_exists in H as (name & Hin & E).
  apply str_eqb_spec in E.
  assert (Hn : name <> [] /\ forallb is_alpha name = true).
  { revert Hin. clear. simpl.
    intros H; repeat (destruct H as [<-|H]; [split; [discriminate|reflexivity]|]).
    contradiction. }
  destruct Hn as [Hne Ha]. rewrite <- E in *. split.
  - intros ->. now apply Hne.
  - rewrite forallb_forall in Ha. apply Forall_forall. intros c Hc.
    rewrite <- lower_c_alpha. apply Ha. unfold lower. now apply in_map.
Qed.

Ltac digit_facts :=
  repeat match goal with
  | H : _ && _ = true |- _ => apply andb_true_iff in H; destruct H
  | H : _ || _ = true |- _ => apply orb_true_iff in H; destruct H
  | H : Ascii.eqb _ _ = true |- _ => apply Ascii.eqb_eq in H; subst
  end.

Ltac no_alpha :=
  repeat constructor; solve [apply digit_not_alpha; assumption | reflexivity].

(** The automaton of digit-then-letter on the text of a directive. *)
Lemma prun_piece (d : directive) (w : str) (b : bool) :
  piece_ok d w = true ->
  prun is_digit is_alpha (Some b) w = digit_letter_dir d b.
Proof.
  destruct d; cbn [piece_ok digit_letter_dir]; intros H.
  - destruct w as [|a1 [|a2 [|a3 [|a4 [|]]]]]; try discriminate.
    digit_facts. rewrite prun_no_B by no_alpha. simpl. now f_equal.
  - destruct w as [|a1 [|a2 [|]]]; try discriminate; digit_facts;
      (rewrite prun_no_B by no_alpha); simpl; now f_equal.
  - destruct w as [|a1 [|a2 [|]]]; try discriminate; digit_facts;
      (rewrite prun_no_B by no_alpha); simpl; now f_equal.
  - destruct w as [|a1 [|a2 [|]]]; try discriminate; digit_facts;
      (rewrite prun_no_B by no_alpha); simpl; now f_equal.
  - apply month_letters in H as [Hne Ha]. destruct b.
    + destruct w as [|c w]; [contradiction|].
      apply prun_starts_B. now inversion Ha.
    + apply prun_no_A. eapply Forall_impl; [|exact Ha].
      intros c Hc. destruct (is_digit c) eqn:E; [|reflexivity].
      apply digit_not_alpha in E. congruence.
  - destruct w as [|x [|]]; try discriminate. apply Ascii.eqb_eq in H.
    simpl. rewrite <- (lower_c_alpha x), <- (lower_c_digit x), H.
    rewrite lower_c_alpha, lower_c_digit.
    destruct (is_alpha c) eqn:Ea, b; try reflexivity.
    simpl. destruct (is_digit c) eqn:Ed; [|reflexivity].
    apply digit_not_alpha in Ed. congruence.
  - apply andb_true_iff in H as [Hne Hs].
    rewrite forallb_forall in Hs.
    rewrite prun_no_B.
    + f_equal. apply fold_last_false.
      * now destruct w.
      * apply Forall_forall. intros x Hx. apply space_not_digit. now apply Hs.
    + apply Forall_forall. intros x Hx. apply space_not_alpha. now apply Hs.
Qed.

Lemma run_dirs_none (f : directive -> bool -> option bool) (fmt : list directive) :
  run_dirs f fmt None = None.
Proof. induction fmt; simpl; auto. Qed.

Lemma prun_shape (fmt : list directive) (pieces : list str) :
  Forall2 (fun d w => piece_ok d w = true) fmt pieces ->
  forall st, prun is_digit is_alpha st (concat pieces)
             = run_dirs digit_letter_dir fmt st.
Proof.
  induction 1 as [|d w fmt pieces Hd _ IH]; intros st; [reflexivity|].
  simpl. rewrite prun_app. destruct st as [b|].
  - rewrite (prun_piece d w b Hd). apply IH.
  - rewrite prun_none, prun_none. unfold run_dirs. simpl.
    symmetry. apply run_dirs_none.
Qed.

(** In a text of the shape of a format no digit stands before a letter. *)
Lemma shaped_no_digit_letter (fmt : list directive) (t : str) :
  In fmt formats -> shaped fmt t ->
  forall u c l v, t = u ++ c :: l :: v ->
    is_digit c = true -> is_alpha l = true -> False.
Proof.
  intros Hin (pieces & -> & F) u c l v E Hc Hl.
  pose proof (prun_shape F (Some false)) as R.
  rewrite E, prun_pair in R by assumption.
  revert R. clear -Hin. simpl in Hin.
  repeat (destruct Hin as [<-|Hin]; [discriminate|]). contradiction.
Qed.

(** Without a match anywhere, [re.sub] returns the text. *)
Lemma scan_no_hit (r : re) (s : str) :
  (forall a b p, s = a ++ b -> exec r p b = None) ->
  forall p, scan r p s 0 = map Lit s.
Proof.
  induction s as [|c s IH]; intros H p; simpl.
  - now rewrite (H [] [] p eq_refl).
  - rewrite (H [] (c :: s) p eq_refl). f_equal. apply IH.
    intros a b p' ->. apply (H (c :: a) b p' eq_refl).
Qed.

Lemma re_sub_no_hit (r : re) (repl : mstate -> str) (s : str) :
  (forall a b p, s = a ++ b -> exec r p b = None) ->
  re_sub r repl s = s.
Proof.
  intros H. unfold re_sub. rewrite (scan_no_hit _ H).
  induction s as [|c s IH]; simpl; [reflexivity|]. f_equal. apply IH.
  intros a b p ->. apply (H (c :: a) b p eq_refl).
Qed.

(** A match of digits followed by a suffix shows a digit before the first
    letter of the suffix. *)
Lemma suffix_match_pair (x0 : ascii) (x : str) (p : option ascii) (b : str)
  (m : mstate) :
  exec (Cat (Group 1 (Plus Greedy digit)) (lit (x0 :: x))) p b = Some m ->
  exists u c v, b = u ++ c :: x0 :: v /\ is_digit c = true.
Proof.
  intros H. apply exec_sound in H as (w & new & L & R & _).
  apply lang_cat_inv in L as (w1 & w2 & -> & H1 & H2).
  apply lang_group_inv, lang_plus_chr in H1 as [Hne Hd].
  apply lang_lit in H2. subst w2.
  destruct (exists_last Hne) as (ds & c & ->).
  apply Forall_app in Hd as [_ Hc]. inversion Hc; subst.
  exists ds, c, (x ++ rest m). split; [|assumption].
  simpl in R. rewrite R. now rewrite <- !app_assoc.
Qed.

(** On a text of the shape of a format the ordinal suffixes find
    nothing to strip. *)
Lemma strip_suffix_shaped (fmt : list directive) (t x : str) :
  In fmt formats -> shaped fmt t -> In x suffixes -> strip_suffix t x = t.
Proof.
  intros Hin Hs Hx. unfold strip_suffix. apply re_sub_no_hit.
  intros a b p -> .
  destruct (exec _ p b) as [m|] eqn:E; [exfalso|reflexivity].
  assert (Hx' : exists x0 x', x = x0 :: x' /\ is_alpha x0 = true).
  { simpl in Hx. repeat (destruct Hx as [<-|Hx]; [eexists _, _; split; reflexivity|]).
    contradiction. }
  destruct Hx' as (x0 & x' & -> & Ha).
  apply suffix_match_pair in E as (u & c & v & -> & Hc).
  apply (shaped_no_digit_letter Hin Hs (a ++ u) c x0 v); auto.
  now rewrite <- app_assoc.
Qed.

Lemma strip_all_shaped (fmt : list directive) (t : str) :
  In fmt formats -> shaped fmt t -> fold_left strip_suffix suffixes t = t.
Proof.
  intros Hin Hs. unfold suffixes. simpl.
  rewrite !(@strip_suffix_shaped fmt t _ Hin Hs); simpl; auto 6.
Qed.

(** *** The formats exclude each other *)

Lemma word_eqb_refl (a : list nat) : word_eqb a a = true.
Proof. induction a; simpl; [reflexivity|]. now rewrite Nat.eqb_refl. Qed.

Lemma disjoint_words_absurd (k : list nat) (l1 l2 : list (list nat)) :
  In k l1 -> In k l2 -> disjoint_words l1 l2 = true -> False.
Proof.
  intros H1 H2 D. unfold disjoint_words in D.
  rewrite forallb_forall in D. specialize (D k H1).
  apply negb_true_iff in D.
  assert (E : existsb (word_eqb k) l2 = true).
  { apply existsb_exists. exists k. split; [exact H2|apply word_eqb_refl]. }
  congruence.
Qed.

Lemma lower_c_cases (x : ascii) : lower_c x = x \/ is_alpha x = true.
Proof. destruct x as [[] [] [] [] [] [] [] []]; vm_compute; auto. Qed.

Lemma lower_c_fixed (c : ascii) : is_alpha c = false -> lower_c c = c.
Proof. destruct (lower_c_cases c) as [H|H]; [auto|congruence]. Qed.

(** A character equal to a non-letter up to case is that character. *)
Lemma literal_char (x c : ascii) :
  is_alpha c = false -> lower_c x = lower_c c -> x = c.
Proof.
  intros Hc E. rewrite (lower_c_fixed c Hc) in E.
  destruct (lower_c_cases x) as [H|H]; [congruence|].
  rewrite <- lower_c_alpha, E in H. congruence.
Qed.

Lemma cls_digit (c : ascii) : is_digit c = true -> cls c = 0%nat.
Proof. intros H. unfold cls. now rewrite H. Qed.

Ltac use_digits :=
  repeat match goal with
  | E : is_digit ?c = true |- _ =>
      rewrite ?(cls_digit c E), ?(digit_not_alpha c E); clear E
  end.

(** The classes of the text of a directive of a numeric format. *)
Lemma piece_classes_ok (d : directive) (w : str) :
  numeric_dir d = true -> piece_ok d w = true ->
  existsb is_alpha w = false /\ In (map cls w) (piece_classes d).
Proof.
  destruct d; cbn [numeric_dir piece_ok piece_classes]; intros Hn H;
    try discriminate.
  - destruct w as [|a1 [|a2 [|a3 [|a4 [|]]]]]; try discriminate.
    digit_facts. simpl. use_digits. auto.
  - destruct w as [|a1 [|a2 [|]]]; try discriminate; digit_facts; simpl;
      use_digits; auto.
  - destruct w as [|a1 [|a2 [|]]]; try discriminate; digit_facts; simpl;
      use_digits; auto.
  - destruct w as [|a1 [|a2 [|]]]; try discriminate; digit_facts; simpl;
      use_digits; auto.
  - destruct w as [|x [|]]; try discriminate. apply Ascii.eqb_eq in H.
    apply negb_true_iff in Hn. apply (@literal_char x c Hn) in H. subst x.
    simpl. rewrite Hn. auto.
Qed.

Lemma in_words (o : list nat) (k : list nat) (opts : list (list nat))
  (ls : list (list (list nat))) :
  In o opts -> In k (words ls) -> In (o ++ k) (words (opts :: ls)).
Proof.
  intros Ho Hk. simpl. apply in_flat_map. exists o. split; [exact Ho|].
  now apply in_map.
Qed.

Lemma numeric_shape (fmt : list directive) (pieces : list str) :
  Forall2 (fun d w => piece_ok d w = true) fmt pieces ->
  forallb numeric_dir fmt = true ->
  existsb is_alpha (concat pieces) = false
  /\ In (map cls (concat pieces)) (words (map piece_classes fmt)).
Proof.
  induction 1 as [|d w fmt pieces Hd _ IH]; intros Hn.
  - split; [reflexivity|now left].
  - simpl in Hn. apply andb_true_iff in Hn as [Hn1 Hn2].
    destruct (IH Hn2) as [Ea Ew].
    destruct (piece_classes_ok d w Hn1 Hd) as [Ea1 Ew1].
    cbn [concat map]. rewrite existsb_app, map_app, Ea, Ea1. split; [reflexivity|].
    now apply in_words.
Qed.

Lemma hd_piece_dd (w : str) :
  piece_ok dd w = true -> exists c w', w = c :: w' /\ is_alpha c = false.
Proof.
  cbn [piece_ok]. intros H.
  destruct w as [|a1 [|a2 [|]]]; try discriminate; digit_facts;
    eexists _, _; (split; [reflexivity|]);
    solve [now apply digit_not_alpha | reflexivity].
Qed.

Lemma fingerprint_shaped (fmt : list directive) (t : str) :
  In fmt formats -> shaped fmt t -> In (fingerprint t) (fingerprints fmt).
Proof.
  intros Hin (pieces & -> & F). simpl in Hin.
  destruct Hin as [<-|[<-|[<-|[<-|[<-|[<-|Hin]]]]]].
  1-6: destruct (numeric_shape F eq_refl) as [Ea Ew];
       unfold fingerprint, fingerprints; rewrite Ea; exact Ew.
  destruct Hin as [<-|[<-|[]]].
  - (* %d %B, %Y *)
    inversion F as [|? w1 ? ps1 H1 F1]; subst.
    inversion F1 as [|? w2 ? ps2 H2 F2]; subst.
    inversion F2 as [|? w3 ? ps3 H3 F3]; subst.
    apply hd_piece_dd in H1 as (c & w' & -> & Hc).
    cbn [piece_ok] in H3. apply month_letters in H3 as [Hne Ha].
    unfold fingerprint, fingerprints. cbn [concat app existsb is_dB orb hd].
    rewrite Hc. cbn [orb].
    assert (E : existsb is_alpha (w' ++ w2 ++ w3 ++ concat ps3) = true).
    { rewrite !existsb_app.
      destruct w3 as [|c3 w3]; [contradiction|]. inversion Ha; subst.
      cbn [existsb]. rewrite H1. now rewrite !orb_true_r. }
    rewrite E. now left.
  - (* %B %d, %Y *)
    inversion F as [|? w1 ? ps1 H1 F1]; subst.
    cbn [piece_ok] in H1. apply month_letters in H1 as [Hne Ha].
    destruct w1 as [|c1 w1]; [contradiction|]. inversion Ha; subst.
    unfold fingerprint, fingerprints. cbn [concat app existsb is_dB orb].
    rewrite H1. cbn [orb]. now left.
Qed.

(** A text is accepted by one format at most. *)
Lemma formats_exclusive (t : str) (f1 f2 : list directive) :
  In f1 formats -> In f2 formats -> shaped f1 t -> shaped f2 t -> f1 = f2.
Proof.
  intros H1 H2 S1 S2.
  pose proof (fingerprint_shaped H1 S1) as K1.
  pose proof (fingerprint_shaped H2 S2) as K2.
  revert K1 K2. generalize (fingerprint t). clear S1 S2.
  simpl in H1, H2.
  repeat (destruct H1 as [<-|H1]; [|]); try contradiction;
    repeat (destruct H2 as [<-|H2]; [|]); try contradiction;
    intros k K1 K2;
    first [ reflexivity
          | exfalso; apply (disjoint_words_absurd _ _ _ K1 K2);
            vm_compute; reflexivity ].
Qed.

End ShapeFacts.

(** ** Substitutions and projections *)

Module SubFacts.

Lemma re_sub_emit (r : re) (repl : mstate -> str) (s : str) :
  re_sub r repl s = flat_map (emit repl) (scan r None s 0).
Proof. reflexivity. Qed.

(** A projection that does not see what the replacements change is not
    changed by [re.sub]. *)
Lemma scan_filter (q : ascii -> bool) (r : re) (repl : mstate -> str) :
  (forall p s m, exec r p s = Some m ->
     filter q (repl m) = filter q (firstn (length s - length (rest m)) s)) ->
  forall s p skip,
    filter q (flat_map (emit repl) (scan r p s skip)) = filter q (skipn skip s).
Proof.
  intros H. induction s as [|c s IH]; intros p skip.
  - destruct skip; [|reflexivity]. simpl.
    destruct (exec r p []) as [m|] eqn:E; [|reflexivity].
    simpl. rewrite app_nil_r, (H _ _ _ E). now rewrite firstn_nil.
  - destruct skip as [|k]; [|apply IH].
    cbn [scan skipn].
    destruct (exec r p (c :: s)) as [m|] eqn:E.
    + cbn [flat_map emit]. rewrite flat_map_app, !filter_app, IH, (H _ _ _ E).
      set (len := (length (c :: s) - length (rest m))%nat).
      destruct len as [|l].
      * simpl. destruct (q c); reflexivity.
      * cbn [Nat.eqb flat_map app filter Nat.sub]. rewrite Nat.sub_0_r.
        rewrite <- filter_app.
        change (skipn l s) with (skipn (S l) (c :: s)).
        now rewrite firstn_skipn.
    + cbn [flat_map emit app filter]. rewrite IH. reflexivity.
Qed.

Lemma re_sub_filter (q : ascii -> bool) (r : re) (repl : mstate -> str) (s : str) :
  (forall p s m, exec r p s = Some m ->
     filter q (repl m) = filter q (firstn (length s - length (rest m)) s)) ->
  filter q (re_sub r repl s) = filter q s.
Proof. intros H. rewrite re_sub_emit. apply (scan_filter q r repl H s None 0). Qed.

Lemma group_of_skip (n : nat) (new l : list (nat * str)) :
  (forall u, ~ In (n, u) new) -> group_of n (new ++ l) = group_of n l.
Proof.
  induction new as [|[i v] new IH]; intros H; [reflexivity|].
  simpl. destruct (Nat.eqb i n) eqn:E.
  - apply Nat.eqb_eq in E. subst. exfalso. apply (H v). now left.
  - apply IH. intros u Hu. apply (H u). now right.
Qed.

(** A pattern made of a group and a rest without that group: the match is
    the text of the group followed by a text of the rest. *)
Lemma exec_group_then (n : nat) (r1 r2 : re) (p : option ascii) (s : str) (m : mstate) :
  group_bodies n r2 = [] ->
  exec (Cat (Group n r1) r2) p s = Some m ->
  exists w1 w2, s = w1 ++ w2 ++ rest m /\ group n m = Some w1
                /\ lang r1 w1 /\ lang r2 w2.
Proof.
  intros Hg H. unfold exec in H. cbn [rmatch] in H.
  apply rmatch_sound in H as (st1 & (w1 & new1 & L1 & R1 & _ & C1 & _) & H).
  apply rmatch_sound in H as (st2 & (w2 & new2 & L2 & R2 & _ & C2 & G2) & [= <-]).
  exists w1, w2. simpl in R1, R2, C2. repeat split; auto.
  - now rewrite R1, R2.
  - unfold group. rewrite C2, group_of_skip.
    + simpl. rewrite Nat.eqb_refl. f_equal. rewrite R1. apply firstn_consumed.
    + intros u Hu. destruct (G2 _ _ Hu) as (b & Hb & _).
      rewrite Hg in Hb. contradiction.
Qed.

Lemma firstn_matched (w t : str) : firstn (length (w ++ t) - length t) (w ++ t) = w.
Proof. apply firstn_consumed. Qed.

Lemma lower_c_ord (c : ascii) : ord_letter (lower_c c) = ord_letter c.
Proof. unfold ord_letter. now rewrite lower_c_idem. Qed.

Lemma filter_lower (q : ascii -> bool) (s : str) :
  (forall c, q (lower_c c) = q c) ->
  filter q (lower s) = lower (filter q s).
Proof.
  intros H. induction s as [|c s IH]; simpl; [reflexivity|].
  rewrite H. destruct (q c); simpl; now rewrite IH.
Qed.

(** Stripping a suffix removes letters of the suffixes only. *)
Lemma strip_suffix_not_ord (s x : str) :
  In x suffixes -> filter not_ord (strip_suffix s x) = filter not_ord s.
Proof.
  intros Hx. unfold strip_suffix. apply re_sub_filter.
  intros p t m E.
  apply exec_group_then in E as (w1 & w2 & -> & G & _ & L2).
  - apply ShapeFacts.lang_lit in L2. subst w2.
    unfold backref. rewrite G.
    rewrite app_assoc, firstn_matched, filter_app.
    replace (filter not_ord x) with (@nil ascii); [now rewrite app_nil_r|].
    simpl in Hx. repeat (destruct Hx as [<-|Hx]; [reflexivity|]). contradiction.
  - simpl in Hx. repeat (destruct Hx as [<-|Hx]; [reflexivity|]). contradiction.
Qed.

Lemma strip_all_not_ord (s : str) :
  filter not_ord (fold_left strip_suffix suffixes s) = filter not_ord s.
Proof.
  unfold suffixes. simpl.
  rewrite !strip_suffix_not_ord; simpl; auto 6.
Qed.

(** So does the stripping of the verbose extractor. *)
Lemma ordinal_sub_not_ord (s : str) :
  filter not_ord (re_sub ordinal_re (backref 1) s) = filter not_ord s.
Proof.
  apply re_sub_filter. intros p t m E.
  unfold ordinal_re in E.
  apply exec_group_then in E as (w1 & w2 & -> & G & _ & L2); [|reflexivity].
  unfold backref. rewrite G.
  rewrite app_assoc, firstn_matched, filter_app.
  replace (filter not_ord w2) with (@nil ascii); [now rewrite app_nil_r|].
  apply ShapeFacts.lang_group_inv, ShapeFacts.lang_alts in L2 as (r & Hin & L).
  repeat (destruct Hin as [<-|Hin];
          [apply ShapeFacts.lang_lit in L; subst w2; reflexivity|]).
  contradiction.
Qed.

(** The text the verbose extractor cleans and the lower-cased text without
    its ordinal suffixes agree outside the letters of the suffixes. *)
Lemma verbose_projection (s : str) :
  filter not_ord (re_sub ordinal_re (backref 1) (lower s))
  = filter not_ord (lower (fold_left strip_suffix suffixes s)).
Proof.
  rewrite ordinal_sub_not_ord.
  rewrite !filter_lower by (intros c; unfold not_ord; now rewrite lower_c_ord).
  now rewrite strip_all_not_ord.
Qed.

(** *** Blocks of a text *)

Lemma contains_cons (g : str) (c : ascii) (x : str) :
  contains g (c :: x) -> has_prefix g (c :: x) \/ contains g x.
Proof.
  intros (u & v & E). destruct u as [|c' u].
  - left. exists v. exact E.
  - right. injection E as _ E. now exists u, v.
Qed.

Lemma contains_tail (g : str) (c : ascii) (x : str) :
  contains g x -> contains g (c :: x).
Proof. intros (u & v & ->). now exists (c :: u), v. Qed.

Lemma prefix_contains (g x : str) : has_prefix g x -> contains g x.
Proof. intros (v & ->). now exists [], v. Qed.

(** A block that shares no character with [N] lies after it. *)
Lemma contains_drop (g N x : str) :
  g <> [] -> (forall c, In c g -> ~ In c N) ->
  contains g (N ++ x) -> contains g x.
Proof.
  intros Hne Hd. induction N as [|n N IH]; intros H; [exact H|].
  simpl in H. apply contains_cons in H as [(v & E)|H].
  - destruct g as [|g1 g]; [contradiction|]. injection E as <- _.
    exfalso. apply (Hd n); now left.
  - apply IH; [|exact H]. intros c Hc Hn. apply (Hd c Hc). now right.
Qed.

Lemma contains_full (g Y : str) : contains g Y -> length g = length Y -> g = Y.
Proof.
  intros (u & v & ->) H. rewrite !length_app in H.
  destruct u as [|a u]; [|simpl in H; lia].
  destruct v as [|b v]; [|simpl in H; lia].
  simpl. now rewrite app_nil_r.
Qed.

Lemma contains_filter (q : ascii -> bool) (x t : str) :
  contains x t -> contains (filter q x) (filter q t).
Proof.
  intros (u & v & ->). exists (filter q u), (filter q v).
  now rewrite !filter_app.
Qed.

Lemma filter_all (q : ascii -> bool) (x : str) :
  Forall (fun c => q c = true) x -> filter q x = x.
Proof. induction 1 as [|c x Hc _ IH]; simpl; [reflexivity|]. now rewrite Hc, IH. Qed.

Lemma contains_exists (f : ascii -> bool) (x t : str) :
  contains x t -> existsb f x = true -> existsb f t = true.
Proof.
  intros (u & v & ->) H. rewrite !existsb_app, H. now rewrite orb_true_r.
Qed.

(** *** [str.replace] *)

Lemma replace_go_absent (old new : str) (s : str) :
  ~ contains old s -> replace_go old new s 0 = s.
Proof.
  induction s as [|c s IH]; intros H; [reflexivity|].
  cbn [replace_go].
  destruct (startswith old (c :: s)) eqn:E.
  - exfalso. apply H, prefix_contains. now apply startswith_spec.
  - f_equal. apply IH. intros K. apply H. now apply contains_tail.
Qed.

(** Nothing is replaced where [old] does not occur. *)
Lemma replace_absent (old new s : str) :
  old <> [] -> ~ contains old s -> replace old new s = s.
Proof.
  intros Hne H. destruct old as [|o old]; [contradiction|].
  now apply replace_go_absent.
Qed.

Lemma replace_go_forall (P : ascii -> Prop) (old new : str) :
  Forall P new ->
  forall s skip, Forall P s -> Forall P (replace_go old new s skip).
Proof.
  intros Hn. induction s as [|c s IH]; intros skip H; [constructor|].
  inversion H; subst. cbn [replace_go]. destruct skip as [|k]; [|now apply IH].
  destruct (startswith old (c :: s)).
  - apply Forall_app. split; [exact Hn|now apply IH].
  - constructor; [assumption|now apply IH].
Qed.

(** A replacement brings only the characters of [new]. *)
Lemma replace_forall (P : ascii -> Prop) (old new s : str) :
  old <> [] -> Forall P new -> Forall P s -> Forall P (replace old new s).
Proof.
  intros Hne Hn H. destruct old as [|o old]; [contradiction|].
  now apply replace_go_forall.
Qed.

Lemma replace_go_prefix (old new : str) (w : str) :
  new <> [] -> (forall c, In c w -> ~ In c new) ->
  forall s, has_prefix w (replace_go old new s 0) -> has_prefix w s.
Proof.
  intros Hne. induction w as [|a w IH]; intros Hd s H; [now exists s|].
  destruct H as (v & E). destruct s as [|c s]; [discriminate|].
  cbn [replace_go] in E.
  destruct (startswith old (c :: s)).
  - destruct new as [|n0 new]; [contradiction|]. injection E as <- _.
    exfalso. apply (Hd n0); now left.
  - injection E as <- E.
    destruct (IH (fun x Hx => Hd x (or_intror Hx)) s) as (v' & ->).
    + now exists v.
    + now exists v'.
Qed.

Lemma replace_go_contains (old new : str) (w : str) :
  w <> [] -> new <> [] -> (forall c, In c w -> ~ In c new) ->
  forall s skip, contains w (replace_go old new s skip) -> contains w s.
Proof.
  intros Hw Hne Hd. induction s as [|c s IH]; intros skip H; [exact H|].
  cbn [replace_go] in H. destruct skip as [|k].
  - destruct (startswith old (c :: s)).
    + apply contains_tail, (IH (length old - 1)%nat).
      now apply contains_drop in H.
    + apply contains_cons in H as [H|H].
      * apply prefix_contains.
        destruct w as [|a w]; [contradiction|].
        destruct H as (v & E). injection E as <- E.
        destruct (@replace_go_prefix old new w Hne
                    (fun x Hx => Hd x (or_intror Hx)) s) as (v' & ->).
        -- now exists v.
        -- now exists v'.
      * apply contains_tail, (IH 0%nat), H.
  - apply contains_tail, (IH k), H.
Qed.

(** A block without a character of a non-empty [new] that is found after
    the replacement was there before it. *)
Lemma replace_contains (old new w s : str) :
  old <> [] -> w <> [] -> new <> [] -> (forall c, In c w -> ~ In c new) ->
  contains w (replace old new s) -> contains w s.
Proof.
  intros Ho Hw Hn Hd H. destruct old as [|o old]; [contradiction|].
  exact (@replace_go_contains (o :: old) new w Hw Hn Hd s 0%nat H).
Qed.

End SubFacts.

Import SubFacts.

(** ** The verbose extractor on a text that a strict format accepts *)

Module VerboseFacts.

Import ShapeFacts.

(** A pattern that ends in a group: the group holds the end of the match. *)
Lemma rmatch_ends_in_group_at (n : nat) (b r : re) :
  ends_in_group n b r ->
  forall st m, rmatch r st Some = Some m ->
    exists w0 w, rest st = w0 ++ w ++ rest m /\ group n m = Some w /\ lang b w.
Proof.
  induction 1 as [|a r _ IH]; intros st m H; simpl in H.
  - apply rmatch_sound in H as (st1 & (w & new & L & R & _) & [= <-]).
    exists [], w. repeat split; [exact R| |exact L].
    unfold group. simpl. rewrite Nat.eqb_refl, R, firstn_consumed. reflexivity.
  - apply rmatch_sound in H as (st1 & (wa & _ & _ & R & _) & H).
    destruct (IH st1 m H) as (w0 & w & R' & G & L).
    exists (wa ++ w0), w. repeat split; auto.
    now rewrite R, R', <- app_assoc.
Qed.

Lemma search_from_suffix (r : re) (s : str) :
  forall p m, search_from r p s = Some m ->
    exists p' u s', s = u ++ s' /\ exec r p' s' = Some m.
Proof.
  induction s as [|c s IH]; intros p m H; simpl in H.
  - destruct (exec r p []) eqn:E; [|discriminate].
    injection H as <-. now exists p, [], [].
  - destruct (exec r p (c :: s)) eqn:E.
    + injection H as <-. now exists p, [], (c :: s).
    + destruct (IH _ _ H) as (p' & u & s' & -> & E').
      now exists p', (c :: u), s'.
Qed.

(** The year the verbose extractor finds is a block of four digits. *)
Lemma year_re_match (x : str) (m : mstate) :
  re_search year_re x = Some m ->
  exists g, backref 1 m = g /\ contains g x /\ length g = 4%nat
            /\ Forall (fun c => is_digit c = true) g.
Proof.
  intros H. apply search_from_suffix in H as (p & u & x' & -> & E).
  unfold exec, year_re in E. cbn [Seq rmatch] in E.
  destruct (at_wordb (init p x')); [|discriminate].
  change (exec (Cat (Group 1 (Cat (lit "20") (Cat digit digit))) WordB) p x' = Some m) in E.
  apply exec_group_then in E as (g & w2 & -> & G & L & _); [|reflexivity].
  exists g. unfold backref. rewrite G. split; [reflexivity|].
  split; [now exists u, (w2 ++ rest m)|].
  apply lang_cat_inv in L as (a & b & -> & La & Lb).
  apply lang_lit in La. subst a. unfold digit in Lb. lang_inv.
  split; [reflexivity|]. repeat constructor; assumption.
Qed.

(** They end in the year: its text is the end of the text. *)
Lemma month_format_year (fmt : list directive) (t : str) (d : date) :
  fmt = day_first \/ fmt = month_first ->
  strptime t fmt = Some d ->
  exists w0 w, t = w0 ++ w /\ length w = 4%nat /\ py_int w = Some (year d).
Proof.
  intros Hf. unfold strptime, re_match.
  destruct (exec (pattern fmt) None t) as [m|] eqn:E; [|discriminate].
  destruct (rest m) as [|c r] eqn:Er; [|discriminate]. cbn [nonempty].
  assert (Hg : group gy m = None).
  { destruct (group gy m) as [u|] eqn:Gy; [|reflexivity].
    destruct (exec_group _ _ _ gy E Gy) as (b & Hb & _).
    destruct Hf as [-> | ->]; vm_compute in Hb; contradiction. }
  assert (He : ends_in_group gY (Seq [digit; digit; digit; digit]) (pattern fmt)).
  { destruct Hf as [-> | ->]; cbv [pattern day_first month_first map Seq directive_re];
      repeat constructor. }
  destruct (rmatch_ends_in_group_at He _ E) as (w0 & w & R & G & L).
  simpl in R. rewrite Er, app_nil_r in R.
  unfold found_year. rewrite Hg, G.
  destruct (py_int w) as [y|] eqn:Ey; [|discriminate].
  destruct (found_month m) as [mo|]; [|discriminate].
  destruct (found_day m) as [dv|]; [|discriminate].
  unfold mk_date. destruct (valid_date _); [|discriminate].
  intros [= <-]. exists w0, w. repeat split; auto.
  cbv [Seq digit] in L. lang_inv. reflexivity.
Qed.

(** *** The texts of the directives outside the letters of the suffixes *)

Lemma ord_letter_alpha (c : ascii) : ord_letter c = true -> is_alpha c = true.
Proof. destruct c as [[] [] [] [] [] [] [] []]; vm_compute; congruence. Qed.

Lemma not_ord_plain (c : ascii) : is_alpha c = false -> not_ord c = true.
Proof.
  intros H. unfold not_ord. destruct (ord_letter c) eqn:E; [|reflexivity].
  apply ord_letter_alpha in E. congruence.
Qed.

Lemma proj_plain (w : str) :
  Forall (fun c => is_alpha c = false) w -> filter not_ord (lower w) = w.
Proof.
  induction 1 as [|c w Hc _ IH]; [reflexivity|].
  cbn [lower map filter]. rewrite (lower_c_fixed c Hc), (not_ord_plain c Hc).
  f_equal. exact IH.
Qed.

Lemma piece_no_alpha (d : directive) (w : str) :
  is_dB d = false -> dir_plain d = true -> piece_ok d w = true ->
  Forall (fun c => is_alpha c = false) w.
Proof.
  destruct d; cbn [is_dB dir_plain piece_ok]; intros Hb Hp H; try discriminate.
  - destruct w as [|a1 [|a2 [|a3 [|a4 [|]]]]]; try discriminate.
    digit_facts. no_alpha.
  - destruct w as [|a1 [|a2 [|]]]; try discriminate; digit_facts; no_alpha.
  - destruct w as [|a1 [|a2 [|]]]; try discriminate; digit_facts; no_alpha.
  - destruct w as [|a1 [|a2 [|]]]; try discriminate; digit_facts; no_alpha.
  - destruct w as [|x [|]]; try discriminate.
    apply Ascii.eqb_eq in H. apply negb_true_iff in Hp.
    rewrite (literal_char x c Hp H). now repeat constructor.
  - apply andb_true_iff in H as [_ H].
    apply Forall_forall. intros x Hx.
    apply space_not_alpha. revert x Hx. now apply forallb_forall.
Qed.

(** What holds of every month name, cleared of the letters of the suffixes,
    holds of the text of [%B]. *)
Lemma month_piece (P : str -> bool) (w : str) :
  forallb P (map (filter not_ord) month_alternatives) = true ->
  piece_ok dB w = true -> P (filter not_ord (lower w)) = true.
Proof.
  intros HP H. cbn [piece_ok] in H.
  apply existsb_exists in H as (name & Hin & E).
  apply str_eqb_spec in E. rewrite E.
  revert HP. rewrite forallb_forall. intros HP. apply HP.
  now apply in_map.
Qed.

Lemma formats_plain (fmt : list directive) :
  In fmt formats -> forallb dir_plain fmt = true.
Proof.
  revert fmt. apply forallb_forall. reflexivity.
Qed.

(** *** Pairs of characters that a strict format rules out *)

Section Quiet.

Variables A B : ascii -> bool.
Hypothesis A_alpha : forall c, A c = true -> is_alpha c = true.
Hypothesis months_quiet :
  forallb (fun w => match prun A B (Some false) w with
                    | Some false => true
                    | _ => false
                    end) (map (filter not_ord) month_alternatives) = true.

Lemma pieces_quiet (fmt : list directive) (pieces : list str) :
  Forall2 (fun d w => piece_ok d w = true) fmt pieces ->
  forallb dir_plain fmt = true ->
  prun A B (Some false) (filter not_ord (lower (concat pieces))) = Some false.
Proof.
  induction 1 as [|d w fmt pieces Hd _ IH]; intros Hp; [reflexivity|].
  cbn [forallb] in Hp. apply andb_true_iff in Hp as [Hp1 Hp2].
  cbn [concat]. rewrite lower_app, filter_app, prun_app.
  assert (Q : prun A B (Some false) (filter not_ord (lower w)) = Some false).
  { destruct (is_dB d) eqn:Eb.
    - destruct d; try discriminate.
      pose proof (@month_piece _ w months_quiet Hd) as H. cbv beta in H.
      destruct (prun A B (Some false) (filter not_ord (lower w))) as [[|]|];
        try discriminate. reflexivity.
    - pose proof (@piece_no_alpha d w Eb Hp1 Hd) as F.
      rewrite (proj_plain F). apply prun_no_A.
      eapply Forall_impl; [|exact F]. intros c Hc. cbv beta in Hc.
      destruct (A c) eqn:E; [|reflexivity].
      apply A_alpha in E. congruence. }
  rewrite Q. now apply IH.
Qed.

(** No character of [A] is followed by one of [B] in such a text. *)
Lemma shaped_quiet (fmt : list directive) (t : str) (a b : ascii) :
  In fmt formats -> shaped fmt t -> A a = true -> B b = true ->
  ~ contains [a; b] (filter not_ord (lower t)).
Proof.
  intros Hin (pieces & -> & F) Ha Hb (u & v & E).
  pose proof (pieces_quiet F (formats_plain Hin)) as Q.
  rewrite E in Q. cbn [app] in Q.
  rewrite (prun_pair A B u a b v (Some false) Ha Hb) in Q. discriminate.
Qed.

End Quiet.

(** *** Numeric formats: the verbose extractor finds no month *)

Lemma kept_filter (x : str) :
  existsb kept_letter (filter not_ord x) = existsb kept_letter x.
Proof.
  induction x as [|c x IH]; [reflexivity|].
  cbn [filter existsb]. destruct (not_ord c) eqn:E; cbn [existsb]; rewrite IH.
  - reflexivity.
  - unfold kept_letter at 2. now rewrite E, andb_false_r.
Qed.

Lemma existsb_false_inv {A} (f : A -> bool) (l : list A) :
  existsb f l = false -> Forall (fun x => f x = false) l.
Proof.
  induction l as [|a l IH]; intros H; [constructor|].
  cbn [existsb] in H. apply orb_false_iff in H as [H1 H2].
  constructor; auto.
Qed.

Lemma forall_existsb_false {A} (f : A -> bool) (l : list A) :
  Forall (fun x => f x = false) l -> existsb f l = false.
Proof.
  intros H. apply existsb_false_forall. now apply Forall_forall.
Qed.

Lemma kept_lower (x : str) :
  existsb is_alpha x = false -> existsb kept_letter (lower x) = false.
Proof.
  intros H. apply existsb_false_inv in H. apply forall_existsb_false.
  unfold lower. apply Forall_map.
  eapply Forall_impl; [|exact H]. intros c Hc. cbv beta in Hc.
  unfold kept_letter. now rewrite lower_c_alpha, Hc.
Qed.

(** Without a letter left after the stripping of the suffixes, the text the
    verbose extractor searches has none but letters of the suffixes. *)
Lemma verbose_clean_no_kept (s : str) :
  existsb is_alpha (fold_left strip_suffix suffixes s) = false ->
  Forall (fun c => kept_letter c = false) (verbose_clean s).
Proof.
  intros H. unfold verbose_clean.
  repeat (apply replace_forall;
          [discriminate | repeat constructor | ]).
  apply existsb_false_inv.
  rewrite <- kept_filter, verbose_projection, kept_filter.
  now apply kept_lower.
Qed.

Lemma months_kept (name : str) (v : Z) :
  In (name, v) months -> existsb kept_letter name = true.
Proof.
  intros H.
  assert (A : forallb (fun p => existsb kept_letter (fst p)) months = true)
    by reflexivity.
  rewrite forallb_forall in A. exact (A _ H).
Qed.

Lemma find_month_none (tbl : list (str * Z)) (x : str) :
  (forall name v, In (name, v) tbl -> existsb kept_letter name = true) ->
  Forall (fun c => kept_letter c = false) x ->
  find_month tbl x = None.
Proof.
  intros Hk Hx. induction tbl as [|[name v] tbl IH]; [reflexivity|].
  cbn [find_month]. rewrite str_in_false.
  - apply IH. intros n' v' H'. apply (Hk n' v'). now right.
  - intros C. apply (contains_exists kept_letter) in C.
    + apply forall_existsb_false in Hx. congruence.
    + apply (Hk name v). now left.
Qed.

Lemma verbose_numeric (s : str) (fmt : list directive) (d : date) :
  forallb numeric_dir fmt = true ->
  strptime (fold_left strip_suffix suffixes s) fmt = Some d ->
  verbose_candidate s = None.
Proof.
  intros Hn Hs. apply strptime_shaped in Hs as (pieces & E & F).
  destruct (numeric_shape F Hn) as [Ha _]. rewrite <- E in Ha.
  unfold verbose_candidate. cbv zeta.
  rewrite (@find_month_none months _ months_kept (verbose_clean_no_kept s Ha)).
  now destruct (option_map _ _).
Qed.

(** *** Formats with a month name: the verbose extractor finds the same year *)

Lemma app_suffix_eq (a b x y : str) :
  a ++ x = b ++ y -> length x = length y -> x = y.
Proof.
  revert b. induction a as [|c a IH]; intros b E L.
  - destruct b as [|c' b]; [exact E|].
    apply (f_equal (@length ascii)) in E. rewrite !length_app in E. simpl in E. lia.
  - destruct b as [|c' b].
    + apply (f_equal (@length ascii)) in E. rewrite !length_app in E.
      simpl in E. lia.
    + injection E as _ E. now apply (IH b).
Qed.

(** Four digits in a row, in a text whose only other digits are one or two
    before a character that is none, are its last four characters. *)
Lemma year_token (g N1 D N2 Y : str) :
  N2 <> [] ->
  Forall (fun c => is_digit c = false) N1 ->
  Forall (fun c => is_digit c = false) N2 ->
  (length D <= 2)%nat -> length Y = 4%nat ->
  length g = 4%nat -> Forall (fun c => is_digit c = true) g ->
  contains g (N1 ++ D ++ N2 ++ Y) -> g = Y.
Proof.
  intros Hne H1 H2 HD HY Hg Dg C.
  assert (Gne : g <> []) by (destruct g; [discriminate|discriminate]).
  assert (Dis : forall N, Forall (fun c => is_digit c = false) N ->
                          forall c, In c g -> ~ In c N).
  { intros N HN c Hc Hc'.
    rewrite Forall_forall in Dg, HN. specialize (Dg c Hc). specialize (HN c Hc').
    congruence. }
  apply contains_drop in C; [|exact Gne|now apply Dis].
  destruct N2 as [|n N2]; [contradiction|]. inversion H2 as [|? ? Hn H2']; subst.
  destruct g as [|g1 [|g2 [|g3 [|g4 [|]]]]]; try discriminate.
  inversion Dg as [|? ? G1 Dg1]; subst. inversion Dg1 as [|? ? G2 Dg2]; subst.
  inversion Dg2 as [|? ? G3 Dg3]; subst. inversion Dg3 as [|? ? G4 _]; subst.
  assert (K : contains [g1; g2; g3; g4] ((n :: N2) ++ Y)).
  { destruct D as [|a [|b [|]]]; [exact C| | |simpl in HD; lia].
    - cbn [app] in C. apply contains_cons in C as [(v & E)|C]; [|exact C].
      injection E as _ E _. congruence.
    - cbn [app] in C. apply contains_cons in C as [(v & E)|C].
      + injection E as _ _ E _. congruence.
      + apply contains_cons in C as [(v & E)|C]; [|exact C].
        injection E as _ E _. congruence. }
  apply contains_drop in K; [|discriminate|apply Dis; now constructor].
  now apply contains_full.
Qed.

Lemma forall2_six {A B} (R : A -> B -> Prop) (a1 a2 a3 a4 a5 a6 : A) (l : list B) :
  Forall2 R [a1; a2; a3; a4; a5; a6] l ->
  exists b1 b2 b3 b4 b5 b6,
    l = [b1; b2; b3; b4; b5; b6]
    /\ R a1 b1 /\ R a2 b2 /\ R a3 b3 /\ R a4 b4 /\ R a5 b5 /\ R a6 b6.
Proof.
  intros F.
  repeat match goal with
         | H : Forall2 _ (_ :: _) _ |- _ => inversion H; clear H; subst
         | H : Forall2 _ [] _ |- _ => inversion H; clear H; subst
         end.
  repeat eexists; eauto.
Qed.

Lemma piece_day_length (w : str) : piece_ok dd w = true -> (length w <= 2)%nat.
Proof.
  cbn [piece_ok]. destruct w as [|a [|b [|]]]; try discriminate; simpl; lia.
Qed.

Lemma piece_year_length (w : str) : piece_ok dY w = true -> length w = 4%nat.
Proof.
  cbn [piece_ok]. destruct w as [|a1 [|a2 [|a3 [|a4 [|]]]]]; try discriminate.
  reflexivity.
Qed.

Lemma piece_blank (w : str) :
  piece_ok dSpace w = true ->
  w <> [] /\ Forall (fun c => is_digit c = false) w
  /\ filter not_ord (lower w) = w.
Proof.
  intros H. pose proof (@piece_no_alpha dSpace w eq_refl eq_refl H) as Fa.
  cbn [piece_ok] in H. apply andb_true_iff in H as [Hne H].
  split; [now destruct w|]. split; [|now apply proj_plain].
  apply Forall_forall. intros x Hx. apply space_not_digit.
  revert x Hx. now apply forallb_forall.
Qed.

Lemma piece_comma (w : str) :
  piece_ok (dLit ",") w = true ->
  Forall (fun c => is_digit c = false) w /\ filter not_ord (lower w) = w.
Proof.
  intros H. pose proof (@piece_no_alpha (dLit ",") w eq_refl eq_refl H) as Fa.
  split; [|now apply proj_plain].
  cbn [piece_ok] in H. destruct w as [|x [|]]; try discriminate.
  apply Ascii.eqb_eq in H.
  rewrite (@literal_char x "," eq_refl H). now repeat constructor.
Qed.

Lemma piece_month (w : str) :
  piece_ok dB w = true ->
  Forall (fun c => is_digit c = false) (filter not_ord (lower w)).
Proof.
  intros H.
  pose proof (@month_piece (forallb (fun c => negb (is_digit c))) w eq_refl H) as K.
  apply Forall_forall. intros x Hx.
  rewrite forallb_forall in K. specialize (K x Hx).
  now apply negb_true_iff in K.
Qed.

Lemma piece_day (w : str) :
  piece_ok dd w = true -> filter not_ord (lower w) = w.
Proof.
  intros H. apply proj_plain. exact (@piece_no_alpha dd w eq_refl eq_refl H).
Qed.

Lemma piece_year (w : str) :
  piece_ok dY w = true -> filter not_ord (lower w) = w.
Proof.
  intros H. apply proj_plain. exact (@piece_no_alpha dY w eq_refl eq_refl H).
Qed.

(** In a text of a format with a month name, four digits in a row are the
    year at its end. *)
Lemma month_format_token (fmt : list directive) (t g : str) :
  fmt = day_first \/ fmt = month_first -> shaped fmt t ->
  length g = 4%nat -> Forall (fun c => is_digit c = true) g ->
  contains g (filter not_ord (lower t)) ->
  exists w0, t = w0 ++ g.
Proof.
  intros Hf (pieces & -> & F) Lg Dg C.
  destruct Hf as [-> | ->];
    apply forall2_six in F
      as (w1 & w2 & w3 & w4 & w5 & w6 & -> & H1 & H2 & H3 & H4 & H5 & H6);
    cbn [concat] in *; rewrite app_nil_r in *;
    rewrite !lower_app, !filter_app in C.
  - apply piece_blank in H2 as (Ne2 & D2 & E2).
    apply piece_blank in H5 as (Ne5 & D5 & E5).
    apply piece_comma in H4 as (D4 & E4).
    pose proof (piece_month _ H3) as D3.
    rewrite (piece_day _ H1), E2, E4, E5, (piece_year _ H6) in C.
    exists (w1 ++ w2 ++ w3 ++ w4 ++ w5).
    rewrite <- !app_assoc. do 5 f_equal. symmetry.
    apply (@year_token g [] w1 (w2 ++ filter not_ord (lower w3) ++ w4 ++ w5) w6);
      auto using piece_day_length, piece_year_length.
    + destruct w2; [contradiction|discriminate].
    + repeat (apply Forall_app; split); assumption.
    + cbn [app]. now rewrite <- !app_assoc.
  - apply piece_blank in H2 as (Ne2 & D2 & E2).
    apply piece_blank in H5 as (Ne5 & D5 & E5).
    apply piece_comma in H4 as (D4 & E4).
    pose proof (piece_month _ H1) as D1.
    rewrite (piece_day _ H3), E2, E4, E5, (piece_year _ H6) in C.
    exists (w1 ++ w2 ++ w3 ++ w4 ++ w5).
    rewrite <- !app_assoc. do 5 f_equal. symmetry.
    apply (@year_token g (filter not_ord (lower w1) ++ w2) w3 (w4 ++ w5) w6);
      auto using piece_day_length, piece_year_length.
    + destruct w5; [contradiction|]. now destruct w4.
    + repeat (apply Forall_app; split); assumption.
    + repeat (apply Forall_app; split); assumption.
    + now rewrite <- !app_assoc.
Qed.

Lemma digit_not_blank (g : str) :
  Forall (fun c => is_digit c = true) g -> forall c, In c g -> ~ In c " ".
Proof.
  intros Dg c Hc [<-|[]]. rewrite Forall_forall in Dg.
  specialize (Dg _ Hc). discriminate.
Qed.

Lemma verbose_month_format (s : str) (fmt : list directive) (d d' : date) :
  fmt = day_first \/ fmt = month_first ->
  strptime (fold_left strip_suffix suffixes s) fmt = Some d ->
  verbose_candidate s = Some d' ->
  year d' = year d.
Proof.
  intros Hf Hs Hv.
  assert (Hin : In fmt formats) by (destruct Hf as [-> | ->]; simpl; auto 10).
  pose proof (@strptime_shaped _ _ _ Hs) as Sh.
  destruct (@month_format_year fmt _ d Hf Hs) as (w0 & w & Et & Lw & Pw).
  pose proof (verbose_projection s) as Pr.
  set (t := fold_left strip_suffix suffixes s) in *.
  set (y := re_sub ordinal_re (backref 1) (lower s)) in *.
  assert (N1 : ~ contains "day of" y).
  { intros K. apply (contains_filter not_ord) in K. rewrite Pr in K.
    apply (@shaped_quiet (Ascii.eqb "o") (Ascii.eqb "f")) with (a := "o"%char)
      (b := "f"%char) (fmt := fmt) (t := t); auto.
    - intros c H. apply Ascii.eqb_eq in H. now subst.
    - eapply contains_trans; [|exact K]. now exists "ay ", []. }
  assert (N2 : ~ contains "on this" y).
  { intros K. apply (contains_filter not_ord) in K. rewrite Pr in K.
    apply (@shaped_quiet (Ascii.eqb "o") (Ascii.eqb " ")) with (a := "o"%char)
      (b := " "%char) (fmt := fmt) (t := t); auto.
    - intros c H. apply Ascii.eqb_eq in H. now subst.
    - eapply contains_trans; [|exact K]. now exists [], "i". }
  unfold verbose_candidate in Hv. cbv zeta in Hv.
  destruct (re_search year_re (verbose_clean s)) as [m|] eqn:Em; [|discriminate].
  cbn [option_map] in Hv.
  destruct (@year_re_match _ m Em) as (g & Eg & Cg & Lg & Dg). rewrite Eg in Hv.
  destruct (find_month months (verbose_clean s)) as [mo|]; [|discriminate].
  destruct (option_map _ _) as [dt|]; [|discriminate].
  destruct (_ && _); [|discriminate].
  destruct (py_int g) as [yv|] eqn:Ey; [|discriminate].
  destruct (py_int dt) as [dv|]; [|discriminate].
  unfold mk_date in Hv. destruct (valid_date _); [|discriminate].
  injection Hv as <-. cbn [year].
  unfold verbose_clean in Cg. fold y in Cg.
  rewrite (@replace_absent "day of" [] y), (@replace_absent "on this" [] y) in Cg
    by (assumption || discriminate).
  assert (Gne : g <> []) by (destruct g; discriminate).
  apply replace_contains in Cg;
    [|discriminate|exact Gne|discriminate|now apply digit_not_blank].
  apply replace_contains in Cg;
    [|discriminate|exact Gne|discriminate|now apply digit_not_blank].
  apply (contains_filter not_ord) in Cg.
  rewrite (@filter_all not_ord g) in Cg.
  2:{ eapply Forall_impl; [|exact Dg]. intros c Hc.
      now apply not_ord_plain, digit_not_alpha. }
  rewrite Pr in Cg.
  destruct (@month_format_token fmt t g Hf Sh Lg Dg Cg) as (w0' & Et').
  assert (E : w = g).
  { apply (@app_suffix_eq w0 w0'); [congruence|congruence]. }
  subst w. congruence.
Qed.

(** The year the verbose extractor builds its date with, after a strict
    format has accepted the text, is the year of that format's date. *)
Lemma verbose_same_year (s : str) (fmt : list directive) (d d' : date) :
  In fmt formats ->
  strptime (fold_left strip_suffix suffixes s) fmt = Some d ->
  verbose_candidate s = Some d' ->
  year d' = year d.
Proof.
  intros Hin Hs Ev.
  assert (Hm : fmt = day_first \/ fmt = month_first).
  { simpl in Hin.
    repeat (destruct Hin as [<-|Hin];
            [first [ now left | now right
                   | match type of Hs with
                     | strptime _ ?f = _ =>
                         rewrite (@verbose_numeric s f d eq_refl Hs) in Ev
                     end; discriminate ]|]).
    contradiction. }
  exact (@verbose_month_format s fmt d d' Hm Hs Ev).
Qed.

(** So a year refused there is refused here. *)
Lemma verbose_after_strict (now_year : Z) (s : str) (fmt : list directive) (d : date) :
  In fmt formats ->
  strptime (fold_left strip_suffix suffixes s) fmt = Some d ->
  too_far now_year d = true ->
  verbose_date now_year s = None.
Proof.
  intros Hin Hs Hf. unfold verbose_date.
  destruct (verbose_candidate s) as [d'|] eqn:Ev; [|reflexivity].
  unfold too_far in *.
  rewrite (@verbose_same_year s fmt d d' Hin Hs Ev). now rewrite Hf.
Qed.

(** After a strict format has accepted the text and its date was refused,
    no other format accepts it. *)
Lemma try_formats_rejected (now_year : Z) (s : str) (fmt : list directive) (d : date) :
  In fmt formats ->
  strptime (fold_left strip_suffix suffixes s) fmt = Some d ->
  too_far now_year d = true ->
  forall fmts, (forall f, In f fmts -> In f formats) ->
    try_formats now_year (fold_left strip_suffix suffixes s) s fmts = None.
Proof.
  intros Hin Hs Hf. induction fmts as [|f fmts IH]; intros Hsub; [reflexivity|].
  cbn [try_formats].
  assert (Hf' : In f formats) by (apply Hsub; now left).
  replace (try_format now_year (fold_left strip_suffix suffixes s) s f)
    with (@None date).
  { apply IH. intros f' H'. apply Hsub. now right. }
  symmetry. unfold try_format.
  destruct (strptime (fold_left strip_suffix suffixes s) f) as [d1|] eqn:E1.
  - assert (f = fmt).
    { apply (@formats_exclusive (fold_left strip_suffix suffixes s)); auto;
        eapply strptime_shaped; eassumption. }
    subst f. rewrite Hs in E1. injection E1 as <-. now rewrite Hf.
  - destruct (strptime s f) as [d2|] eqn:E2; [|reflexivity].
    pose proof (@strptime_shaped _ _ _ E2) as Sh.
    rewrite (@strip_all_shaped f s Hf' Sh) in E1. congruence.
Qed.

(** A text that a strict format accepts with a year too far ahead yields no
    date at all. *)
Lemma rejected_by_format (now_year : Z) (date_str : str) (fmt : list directive)
  (d : date) :
  In fmt formats ->
  strptime (fold_left strip_suffix suffixes (py_strip date_str)) fmt = Some d
  \/ strptime (py_strip date_str) fmt = Some d ->
  too_far now_year d = true ->
  parse_date now_year date_str = None.
Proof.
  intros Hin Hs Hf.
  assert (Hs' : strptime (fold_left strip_suffix suffixes (py_strip date_str)) fmt
                = Some d).
  { destruct Hs as [Hs|Hs]; [exact Hs|].
    now rewrite (@strip_all_shaped fmt _ Hin (@strptime_shaped _ _ _ Hs)). }
  unfold parse_date. destruct (negb (nonempty date_str)); [reflexivity|].
  cbv zeta.
  rewrite (@try_formats_rejected now_year _ fmt d Hin Hs' Hf formats (fun f H => H)).
  exact (@verbose_after_strict now_year _ fmt d Hin Hs' Hf).
Qed.

(** What the strict formats build from an input is built from its text
    stripped of the ordinal suffixes. *)
Lemma strict_candidate (date_str : str) (d : date) :
  In d (flat_map (fun fmt =>
          match strptime (fold_left strip_suffix suffixes (py_strip date_str)) fmt with
          | Some d => [d]
          | None => match strptime (py_strip date_str) fmt with
                    | Some d => [d]
                    | None => []
                    end
          end) formats) ->
  exists fmt, In fmt formats
    /\ strptime (fold_left strip_suffix suffixes (py_strip date_str)) fmt = Some d.
Proof.
  intros H. apply in_flat_map in H as (fmt & Hin & H). exists fmt. split; [exact Hin|].
  destruct (strptime (fold_left _ _ _) fmt) as [d1|] eqn:E1.
  - destruct H as [<-|[]]. reflexivity.
  - destruct (strptime (py_strip date_str) fmt) as [d2|] eqn:E2; [|contradiction].
    destruct H as [<-|[]].
    rewrite (@strip_all_shaped fmt _ Hin (@strptime_shaped _ _ _ E2)) in E1.
    congruence.
Qed.

(** An input with a candidate too far ahead yields no date. *)
Lemma rejected_candidate (now_year : Z) (date_str : str) (d : date) :
  In d (candidates date_str) -> too_far now_year d = true ->
  parse_date now_year date_str = None.
Proof.
  intros Hin Hf. unfold candidates in Hin. cbv zeta in Hin.
  apply in_app_or in Hin as [Hin|Hin].
  - apply strict_candidate in Hin as (fmt & Hfmt & Hs).
    apply (@rejected_by_format now_year date_str fmt d Hfmt); auto.
  - destruct (verbose_candidate (py_strip date_str)) as [d'|] eqn:Ev; [|contradiction].
    destruct Hin as [<-|[]].
    unfold parse_date. destruct (negb (nonempty date_str)); [reflexivity|].
    cbv zeta.
    destruct (try_formats _ _ _ _) as [d1|] eqn:Et.
    + exfalso. apply DateFacts.try_formats_some in Et as (F1 & H1 & _).
      apply strict_candidate in H1 as (fmt & Hfmt & Hs).
      pose proof (@verbose_same_year _ fmt d1 d' Hfmt Hs Ev) as Y.
      unfold too_far in *. rewrite Y in Hf. congruence.
    + unfold verbose_date. rewrite Ev. now rewrite Hf.
Qed.

End VerboseFacts.

(** ** [parse_date]: no date beyond the next year *)

Module ParseDateFacts.

Import DateFacts VerboseFacts.
Local Open Scope Z_scope.

(** C3: a date that [parse_date] yields is a valid calendar date no more
    than one year ahead, and it is one of the candidates of the input.  An
    input with a candidate further ahead yields no date: the date is not
    clamped, and once a strict format has accepted the text (stripped of its
    ordinal suffixes, or as it is) with such a year, no other format and not
    the verbose extractor bring a date. *)
Theorem parse_date_never_beyond_next_year (now_year : Z) (date_str : str) :
  (forall d, parse_date now_year date_str = Some d ->
     valid_date d = true /\ year d <= now_year + 1 /\ In d (candidates date_str))
  /\ (forall d, In d (candidates date_str) -> year d > now_year + 1 ->
        parse_date now_year date_str = None)
  /\ (forall fmt d, In fmt formats ->
        strptime (fold_left strip_suffix suffixes (py_strip date_str)) fmt = Some d
        \/ strptime (py_strip date_str) fmt = Some d ->
        year d > now_year + 1 ->
        parse_date now_year date_str = None).
Proof.
  split; [|split].
  - intros d H. apply parse_date_some in H as (V & F & Hin).
    repeat split; auto. unfold too_far in F. lia.
  - intros d Hin Hy.
    apply (@rejected_candidate now_year date_str d Hin).
    unfold too_far. lia.
  - intros fmt d Hin Hs Hy.
    apply (@rejected_by_format now_year date_str fmt d Hin Hs).
    unfold too_far. lia.
Qed.

Lemma parse_date_never_beyond_next_year_witness :
  (valid_date (Date 2025 10 3) = true /\ 2025 <= 2026 + 1
   /\ In (Date 2025 10 3) (candidates "03-10-2025"))
  /\ parse_date 2026 "Friday, 5 December 2095" = None
  /\ parse_date 2026 "30th December, 2095" = None.
Proof.
  split; [|split].
  - apply (proj1 (parse_date_never_beyond_next_year 2026 "03-10-2025")).
    vm_compute. reflexivity.
  - apply (proj1 (proj2 (parse_date_never_beyond_next_year 2026
                           "Friday, 5 December 2095")) (Date 2095 12 5)).
    + vm_compute. now left.
    + reflexivity.
  - apply (proj2 (proj2 (parse_date_never_beyond_next_year 2026 "30th December, 2095"))
             day_first (Date 2095 12 30)).
    + vm_compute. auto 10.
    + left. vm_compute. reflexivity.
    + reflexivity.
Defined.

End ParseDateFacts.

(** ** Markdown table parser *)

Module TableFacts.

Lemma str_eqb_refl (a : str) : str_eqb a a = true.
Proof. now apply str_eqb_spec. Qed.

Lemma str_eqb_neq (a b : str) : a <> b -> str_eqb a b = false.
Proof.
  intros H. destruct (str_eqb a b) eqn:E; [|reflexivity].
  now apply str_eqb_spec in E.
Qed.

Lemma dict_get_set_same (k v : str) (d : dict) : dict_get k (dict_set k v d) = Some v.
Proof.
  induction d as [|[k' v'] d IH]; simpl.
  - now rewrite str_eqb_refl.
  - destruct (str_eqb k k') eqn:E; simpl; rewrite E; auto.
Qed.

Lemma dict_get_set_other (k k' v : str) (d : dict) :
  k <> k' -> dict_get k (dict_set k' v d) = dict_get k d.
Proof.
  intros Hne. induction d as [|[k2 v2] d IH]; simpl.
  - now rewrite str_eqb_neq.
  - destruct (str_eqb k' k2) eqn:E; simpl.
    + apply str_eqb_spec in E. subst k2. now rewrite str_eqb_neq.
    + destruct (str_eqb k k2); auto.
Qed.

Lemma dict_get_set (k k' v : str) (d : dict) :
  dict_get k (dict_set k' v d) = if str_eqb k k' then Some v else dict_get k d.
Proof.
  destruct (str_eqb k k') eqn:E.
  - apply str_eqb_spec in E. subst. apply dict_get_set_same.
  - apply dict_get_set_other. intros ->. now rewrite str_eqb_refl in E.
Qed.

Lemma keys_set (k v : str) (d : dict) :
  keys (dict_set k v d)
  = if existsb (str_eqb k) (keys d) then keys d else keys d ++ [k].
Proof.
  unfold keys.
  induction d as [|[k' v'] d IH]; simpl; [reflexivity|].
  destruct (str_eqb k k') eqn:E; simpl; [reflexivity|].
  rewrite IH.
  now destruct (existsb (str_eqb k) (map fst d)).
Qed.

Lemma dict_set_not_nil (k v : str) (d : dict) : dict_set k v d <> [].
Proof. destruct d as [|[k' v'] d]; simpl; [|destruct (str_eqb k k')]; discriminate. Qed.

(** The row loop maps every name to the cell of the last column so named. *)
Lemma dict_get_fill_row (headers : list str) (cols : list str) (k : str) :
  forall i d,
    dict_get k (fill_row headers i cols d)
    = cell_under headers i cols k (dict_get k d).
Proof.
  induction headers as [|h hs IH]; intros i d; simpl; [reflexivity|].
  now rewrite IH, dict_get_set.
Qed.

Lemma keys_fill_row_prefix (headers : list str) (cols : list str) :
  forall i d, exists tl, keys (fill_row headers i cols d) = keys d ++ tl.
Proof.
  induction headers as [|h hs IH]; intros i d; simpl.
  - exists []. now rewrite app_nil_r.
  - destruct (IH (S i) (dict_set (py_strip h) (nth i cols []) d)) as [tl ->].
    rewrite keys_set. destruct (existsb _ _).
    + now exists tl.
    + exists ([py_strip h] ++ tl). now rewrite app_assoc.
Qed.

Lemma keys_fill_row_second (hs : list str) (cols : list str) (k0 k1 : str) :
  find (fun k => negb (str_eqb k k0)) (map py_strip hs) = Some k1 ->
  forall i d, keys d = [k0] ->
    exists tl, keys (fill_row hs i cols d) = k0 :: k1 :: tl.
Proof.
  induction hs as [|h hs IH]; intros Hf i d Hd; simpl in *; [discriminate|].
  destruct (str_eqb (py_strip h) k0) eqn:E; simpl in Hf.
  - apply (IH Hf). rewrite keys_set, Hd. simpl. now rewrite E.
  - injection Hf as <-.
    destruct (keys_fill_row_prefix hs cols (S i)
                (dict_set (py_strip h) (nth i cols []) d)) as [tl ->].
    rewrite keys_set, Hd. simpl. rewrite E. simpl. now exists tl.
Qed.

Lemma cell_under_some (hs : list str) (cols : list str) (k : str) :
  forall i v, exists v', cell_under hs i cols k (Some v) = Some v'.
Proof.
  induction hs as [|h hs IH]; intros i v; simpl; [now exists v|].
  destruct (str_eqb k (py_strip h)); apply IH.
Qed.

Lemma cell_under_found (hs : list str) (cols : list str) (k : str) :
  In k (map py_strip hs) ->
  forall i acc, exists v', cell_under hs i cols k acc = Some v'.
Proof.
  induction hs as [|h hs IH]; intros Hin i acc; simpl in *; [contradiction|].
  destruct Hin as [<-|Hin].
  - rewrite str_eqb_refl. apply cell_under_some.
  - now apply IH.
Qed.

Section Vertical.

Variables (headers : list str) (h0 : str) (hs : list str) (k1 : str).
Hypothesis headers_eq : headers = h0 :: hs.
Hypothesis second : second_name headers = Some k1.

Lemma second_in_tail :
  find (fun k => negb (str_eqb k (py_strip h0))) (map py_strip hs) = Some k1.
Proof.
  clear -headers_eq second.
  unfold second_name in second. rewrite headers_eq in second. simpl in second.
  now rewrite str_eqb_refl in second.
Qed.

(** One row of a vertical table sets one item of the mapping. *)
Lemma map_rows_step (line : str) (rows : list dict) (mapped : dict) :
  map_rows (parse_row headers line :: rows) mapped
  = map_rows rows (dict_set (field_name headers line)
                            (field_value headers line) mapped).
Proof.
  pose proof second_in_tail as Hf.
  assert (Hk1 : In k1 (map py_strip headers)).
  { rewrite headers_eq. right. now apply find_some in Hf as [? _]. }
  unfold field_name, field_value, row_cell. rewrite second.
  set (cols := map py_strip (cells line)).
  assert (Hk : exists tl, keys (parse_row headers line) = py_strip h0 :: k1 :: tl).
  { unfold parse_row. fold cols. rewrite headers_eq. simpl.
    now apply keys_fill_row_second. }
  destruct Hk as [tl Hk].
  simpl. rewrite Hk.
  unfold parse_row. fold cols. rewrite !dict_get_fill_row. simpl.
  replace (hd [] headers) with h0 by (now rewrite headers_eq).
  assert (Hk0 : In (py_strip h0) (map py_strip headers)).
  { rewrite headers_eq. now left. }
  destruct (cell_under_found headers cols (py_strip h0) Hk0 0 None) as [f ->].
  destruct (cell_under_found headers cols k1 Hk1 0 None) as [v ->].
  reflexivity.
Qed.

Lemma map_rows_vertical (lines : list str) :
  forall mapped,
    map_rows (map (parse_row headers) lines) mapped
    = fold_left (fun d line => dict_set (field_name headers line)
                                        (field_value headers line) d) lines mapped.
Proof.
  induction lines as [|line lines IH]; intros mapped; [reflexivity|].
  cbn [map fold_left]. rewrite map_rows_step. apply IH.
Qed.

End Vertical.

Lemma fold_set_not_nil (f g : str -> str) (lines : list str) :
  forall d, d <> [] \/ lines <> [] ->
    fold_left (fun d line => dict_set (f line) (g line) d) lines d <> [].
Proof.
  induction lines as [|l lines IH]; intros d H; simpl.
  - destruct H; [assumption|contradiction].
  - apply IH. left. apply dict_set_not_nil.
Qed.

(** The items of the mapping: the keys are the field names of the rows, and
    the value of a key is the one of the last row with that field name. *)
Lemma fold_set_keys (f g : str -> str) (lines : list str) :
  forall d k, In k (keys (fold_left (fun d line => dict_set (f line) (g line) d) lines d)) ->
    In k (keys d) \/ exists line, In line lines /\ k = f line.
Proof.
  induction lines as [|l lines IH]; intros d k H; simpl in H; [now left|].
  apply IH in H as [H|(line & Hin & ->)].
  - rewrite keys_set in H. destruct (existsb _ _); [now left|].
    apply in_app_or in H as [H|[<-|[]]]; [now left|].
    right. exists l. split; [now left|reflexivity].
  - right. exists line. split; [now right|reflexivity].
Qed.

Lemma fold_set_get_last (f g : str -> str) (pre : list str) (line : str) (post : list str) :
  (forall l, In l post -> f l <> f line) ->
  forall d,
    dict_get (f line)
      (fold_left (fun d line => dict_set (f line) (g line) d) (pre ++ line :: post) d)
    = Some (g line).
Proof.
  intros Hpost d. rewrite fold_left_app. simpl.
  set (d1 := dict_set (f line) (g line) _).
  assert (H1 : dict_get (f line) d1 = Some (g line)) by apply dict_get_set_same.
  clearbody d1. revert d1 H1.
  induction post as [|l post IH]; intros d1 H1; simpl; [exact H1|].
  apply IH.
  - intros l' Hl'. apply Hpost. now right.
  - rewrite dict_get_set_other; [exact H1|].
    intros E. apply (Hpost l); [now left|now symmetry].
Qed.

Lemma lower_idem (s : str) : lower (lower s) = lower s.
Proof.
  unfold lower. rewrite map_map. apply map_ext. apply lower_c_idem.
Qed.

Lemma lower_drop_while (s : str) :
  lower (drop_while is_space s) = drop_while is_space (lower s).
Proof.
  induction s as [|c s IH]; simpl; [reflexivity|].
  rewrite lower_c_space. destruct (is_space c); [exact IH|reflexivity].
Qed.

Lemma lower_strip (s : str) : lower (py_strip s) = py_strip (lower s).
Proof.
  unfold py_strip, strip_by, rstrip_by, lstrip_by, lower.
  rewrite map_rev. fold (lower (drop_while is_space (rev (drop_while is_space s)))).
  rewrite lower_drop_while. unfold lower. rewrite map_rev.
  fold (lower (drop_while is_space s)). now rewrite lower_drop_while.
Qed.

(** A field name is in lower case. *)
Lemma field_name_lower (headers : list str) (line : str) :
  lower (field_name headers line) = field_name headers line.
Proof.
  unfold field_name. now rewrite lower_strip, lower_idem.
Qed.

(** C7, as the code has it: when the header row has a second column name
    besides its first, which reads "field" or "metadata field" in any letter
    case, the parser returns one mapping, from the lower-cased field names
    of the rows to their values, not the sequence of row records. *)
Theorem vertical_table_single_mapping
  (md_table hdr sep row1 : str) (rows : list str) (k1 : str) :
  nonempty (py_strip md_table) = true ->
  table_lines (strip_code_fences md_table) = hdr :: sep :: row1 :: rows ->
  In (py_strip (lower (hd [] (parse_headers hdr)))) ["field"; "metadata field"] ->
  second_name (parse_headers hdr) = Some k1 ->
  let headers := parse_headers hdr in
  let d := vertical_mapping headers (row1 :: rows) in
  parse_markdown_table md_table = [d]
  /\ (forall k, In k (keys d) ->
        lower k = k /\ exists line, In line (row1 :: rows) /\ k = field_name headers line)
  /\ (forall pre line post,
        row1 :: rows = pre ++ line :: post ->
        (forall l, In l post -> field_name headers l <> field_name headers line) ->
        dict_get (field_name headers line) d = Some (field_value headers line)).
Proof.
  intros Hne Htl Hfield Hsecond. cbv zeta.
  destruct (parse_headers hdr) as [|h0 hs] eqn:Eh; [discriminate|].
  set (headers := h0 :: hs) in *.
  set (d := vertical_mapping headers (row1 :: rows)).
  split; [|split].
  - unfold parse_markdown_table.
    assert (Hmd : nonempty md_table = true).
    { destruct md_table; [discriminate|reflexivity]. }
    rewrite Hmd, Hne. simpl.
    destruct (strip_code_fences md_table) as [|c cl] eqn:Ec; [discriminate|].
    cbn [nonempty negb]. rewrite Htl. cbn [length Nat.ltb Nat.leb].
    unfold table_of_lines. cbn [hd skipn]. cbv zeta. rewrite Eh. fold headers.
    assert (Hlen : is_vertical headers = true).
    { unfold is_vertical. apply andb_true_iff. split.
      - destruct hs; [|reflexivity].
        unfold second_name in Hsecond. simpl in Hsecond.
        now rewrite str_eqb_refl in Hsecond.
      - unfold str_mem. apply existsb_exists.
        simpl in Hfield.
        destruct Hfield as [E|[E|[]]]; eexists;
          (split; [|apply str_eqb_spec; symmetry; exact E]); simpl; auto. }
    cbn [map]. rewrite Hlen.
    rewrite (@map_rows_step headers h0 hs k1 eq_refl Hsecond).
    rewrite (@map_rows_vertical headers h0 hs k1 eq_refl Hsecond).
    assert (Hd : d <> []).
    { unfold d, vertical_mapping. apply fold_set_not_nil. right. discriminate. }
    unfold d, vertical_mapping in *. cbn [fold_left] in *.
    destruct (fold_left _ rows _) eqn:Ed; [contradiction|reflexivity].
  - intros k Hk. unfold d, vertical_mapping in Hk.
    apply fold_set_keys in Hk as [[]|(line & Hin & ->)].
    split; [apply field_name_lower|]. now exists line.
  - intros pre line post E Hpost. unfold d, vertical_mapping. rewrite E.
    now apply fold_set_get_last.
Qed.

Lemma vertical_table_single_mapping_witness :
  parse_markdown_table Samples.field_value_table
  = [[("court", "High Court"); ("presiding judge", "Sri X")]].
Proof.
  apply (proj1 (@vertical_table_single_mapping Samples.field_value_table
                  "| Field | Value |" "|---|---|" "| Court | High Court |"
                  ["| Presiding Judge | Sri X |"] "Value"
                  eq_refl eq_refl (or_introl eq_refl) eq_refl)).
Defined.

(** C7 as stated fails: with the single column "Field" the rows come back
    as row records, and with no second column name nothing comes back. *)
Lemma field_header_without_second_column :
  table_lines (strip_code_fences Samples.single_column_table)
  = ["| Field |"; "|---|"; "| a |"; "| b |"]
  /\ py_strip (lower (hd [] (parse_headers "| Field |"))) = "field"
  /\ parse_markdown_table Samples.single_column_table
     = [[("Field", "a")]; [("Field", "b")]]
  /\ parse_markdown_table Samples.repeated_header_table = [].
Proof. repeat split; vm_compute; reflexivity. Qed.

End TableFacts.

(** ** Batch loading *)

Module LoaderFacts.

Import Loader.

Lemma load_json_readable (files : listing json_doc) (label prefix : str) :
  load_json_analyses files label prefix
  = map (fun e => json_summary label prefix (fst e)
                    (match snd e with Some d => d | None => JsonDoc None None [] end))
        (readable files).
Proof.
  induction files as [|[fname [data|]] files IH]; simpl; [reflexivity| |exact IH].
  now rewrite IH.
Qed.

Lemma load_markdown_readable (files : listing str) :
  load_markdown_analyses files
  = map (fun e => markdown_summary (fst e)
                    (match snd e with Some t => t | None => [] end))
        (readable files).
Proof.
  induction files as [|[fname [text|]] files IH]; simpl; [reflexivity| |exact IH].
  now rewrite IH.
Qed.

Lemma readable_idem {A : Type} (l : listing A) : readable (readable l) = readable l.
Proof.
  unfold readable. induction l as [|e l IH]; simpl; [reflexivity|].
  destruct (is_loaded e) eqn:E; simpl; [|exact IH]. now rewrite E, IH.
Qed.

(** C8, as the code has it: a document that cannot be read or loaded is
    skipped and the batch goes on; the batch holds one entry per loaded
    document, in order, and [total] counts these; the skipped documents
    leave no trace, the batch being the one of the readable documents
    alone. *)
Theorem unreadable_documents_skipped_uncounted (fs : store) :
  let clean := Store (readable (md_files fs)) (readable (std_json_files fs))
                     (readable (npa_json_files fs)) in
  load_analysis_list fs = load_analysis_list clean
  /\ total (load_analysis_list fs) = length (analyses (load_analysis_list fs))
  /\ total (load_analysis_list fs)
     = (length (readable (md_files fs)) + length (readable (std_json_files fs))
        + length (readable (npa_json_files fs)))%nat
  /\ (forall label prefix files,
        load_json_analyses files label prefix
        = load_json_analyses (readable files) label prefix
        /\ length (load_json_analyses files label prefix) = length (readable files)).
Proof.
  cbv zeta. repeat split.
  - unfold load_analysis_list. simpl.
    rewrite !load_json_readable, !load_markdown_readable, !readable_idem.
    reflexivity.
  - unfold load_analysis_list. simpl.
    rewrite !load_json_readable, !load_markdown_readable.
    now rewrite !length_app, !length_map, Nat.add_assoc.
  - now rewrite !load_json_readable, readable_idem.
  - now rewrite load_json_readable, length_map.
Qed.

(** C8 as stated fails: no error or skip count can be read off the batch,
    since a batch with an unreadable document equals the batch without it. *)
Lemma no_skip_count_in_batch :
  ~ exists count_of : batch -> nat,
      forall fs, count_of (load_analysis_list fs) = skipped fs.
Proof.
  intros [count_of H].
  pose proof (H (Store [] [] [])) as H0.
  pose proof (H (Store [("a_analysis.md", None)] [] [])) as H1.
  change (load_analysis_list (Store [("a_analysis.md", None)] [] []))
    with (load_analysis_list (Store [] [] [])) in H1.
  rewrite H0 in H1. discriminate H1.
Qed.

End LoaderFacts.

(** ** [parse_date]: what the strict formats accept *)

Module StrictDateFacts.

Import DateFacts ShapeFacts VerboseFacts.
Local Open Scope Z_scope.

(** The loop over the formats stops at the one format that accepts the
    text. *)
Lemma try_formats_accepts (now_year : Z) (s : str) (fmt : list directive) (d : date) :
  In fmt formats ->
  strptime (fold_left strip_suffix suffixes s) fmt = Some d ->
  too_far now_year d = false ->
  forall fmts, (forall f, In f fmts -> In f formats) -> In fmt fmts ->
    try_formats now_year (fold_left strip_suffix suffixes s) s fmts = Some d.
Proof.
  intros Hin Hs Hf. induction fmts as [|f fmts IH]; intros Hsub Hmem; [contradiction|].
  cbn [try_formats]. unfold try_format.
  assert (Hf' : In f formats) by (apply Hsub; now left).
  destruct (strptime (fold_left strip_suffix suffixes s) f) as [d1|] eqn:E1.
  - assert (f = fmt).
    { apply (@formats_exclusive (fold_left strip_suffix suffixes s)); auto;
        eapply strptime_shaped; eassumption. }
    subst f. rewrite Hs in E1. injection E1 as <-. now rewrite Hf.
  - destruct (strptime s f) as [d2|] eqn:E2.
    + pose proof (@strptime_shaped _ _ _ E2) as Sh.
      rewrite (@strip_all_shaped f s Hf' Sh) in E1. congruence.
    + apply IH.
      * intros f' H'. apply Hsub. now right.
      * destruct Hmem as [->|Hmem]; [congruence|exact Hmem].
Qed.

Lemma strptime_empty (fmt : list directive) :
  In fmt formats -> strptime [] fmt = None.
Proof.
  intros H. simpl in H.
  repeat (destruct H as [<-|H]; [reflexivity|]). contradiction.
Qed.

Lemma accepted_by_format (now_year : Z) (date_str : str) (fmt : list directive)
  (d : date) :
  In fmt formats ->
  strptime (fold_left strip_suffix suffixes (py_strip date_str)) fmt = Some d
  \/ strptime (py_strip date_str) fmt = Some d ->
  too_far now_year d = false ->
  parse_date now_year date_str = Some d.
Proof.
  intros Hin Hs Hf.
  assert (Hs' : strptime (fold_left strip_suffix suffixes (py_strip date_str)) fmt
                = Some d).
  { destruct Hs as [Hs|Hs]; [exact Hs|].
    now rewrite (@strip_all_shaped fmt _ Hin (@strptime_shaped _ _ _ Hs)). }
  unfold parse_date. destruct date_str as [|c0 s0] eqn:Ed.
  { change (fold_left strip_suffix suffixes (py_strip [])) with (@nil ascii) in Hs'.
    rewrite (strptime_empty Hin) in Hs'. discriminate. }
  rewrite <- Ed in *. assert (Hne : nonempty date_str = true) by now rewrite Ed.
  rewrite Hne. cbn [negb]. cbv zeta.
  now rewrite (@try_formats_accepts now_year _ fmt d Hin Hs' Hf formats (fun f H => H) Hin).
Qed.

(** X1: a text that one of the eight strict formats accepts (as it is, or
    with its ordinal suffixes stripped) with a year no more than one ahead of
    the current one is parsed to the date of that format: no other format
    and no other strategy gets in the way. *)
Theorem parse_date_strict_format (now_year : Z) (date_str : str)
  (fmt : list directive) (d : date) :
  In fmt formats ->
  strptime (fold_left strip_suffix suffixes (py_strip date_str)) fmt = Some d
  \/ strptime (py_strip date_str) fmt = Some d ->
  year d <= now_year + 1 ->
  parse_date now_year date_str = Some d.
Proof.
  intros Hin Hs Hy. apply (@accepted_by_format now_year date_str fmt d Hin Hs).
  unfold too_far. lia.
Qed.

Lemma parse_date_strict_format_witness :
  parse_date 2026 "  3rd October, 2025 " = Some (Date 2025 10 3).
Proof.
  apply (@parse_date_strict_format 2026 "  3rd October, 2025 " day_first).
  - simpl. auto 10.
  - left. vm_compute. reflexivity.
  - simpl. lia.
Defined.

(** What [parse_date] returns comes from a strict format or, when none
    accepts the text, from the verbose extractor. *)
Lemma parse_date_origin (now_year : Z) (date_str : str) (d : date) :
  parse_date now_year date_str = Some d ->
  too_far now_year d = false
  /\ ((exists fmt, In fmt formats
         /\ strptime (fold_left strip_suffix suffixes (py_strip date_str)) fmt = Some d)
      \/ (nonempty date_str = true
          /\ try_formats now_year (fold_left strip_suffix suffixes (py_strip date_str))
               (py_strip date_str) formats = None
          /\ verbose_candidate (py_strip date_str) = Some d)).
Proof.
  unfold parse_date. destruct (nonempty date_str); [|discriminate].
  cbn [negb]. cbv zeta.
  destruct (try_formats _ _ _ _) as [d1|] eqn:Et.
  - intros [= <-]. apply try_formats_some in Et as (F & Hin & _).
    split; [exact F|]. left. now apply strict_candidate.
  - unfold verbose_date.
    destruct (verbose_candidate _) as [d2|] eqn:Ev; [|discriminate].
    destruct (too_far now_year d2) eqn:F; [discriminate|].
    intros [= <-]. split; [exact F|]. right. auto.
Qed.

(** X2: the current year matters through the refusal of far years only: a
    date returned in one year is returned in every later year. *)
Theorem parse_date_later_year (now_year later : Z) (date_str : str) (d : date) :
  parse_date now_year date_str = Some d -> now_year <= later ->
  parse_date later date_str = Some d.
Proof.
  intros H Hle. pose proof H as H0.
  apply parse_date_origin in H as (F & [(fmt & Hin & Hs)|(Hne & Et & Ev)]).
  - apply (@accepted_by_format later date_str fmt d Hin (or_introl Hs)).
    unfold too_far in *. lia.
  - assert (F' : too_far later d = false) by (unfold too_far in *; lia).
    unfold parse_date. rewrite Hne. cbn [negb]. cbv zeta.
    destruct (try_formats later _ _ _) as [d1|] eqn:Et'.
    + apply try_formats_some in Et' as (F1 & Hin1 & _).
      apply strict_candidate in Hin1 as (fmt & Hin & Hs).
      pose proof (@verbose_same_year _ fmt d1 d Hin Hs Ev) as Y.
      assert (F2 : too_far now_year d1 = false).
      { unfold too_far in *. rewrite <- Y. exact F. }
      pose proof (@accepted_by_format now_year date_str fmt d1 Hin (or_introl Hs) F2) as K.
      congruence.
    + unfold verbose_date. rewrite Ev. now rewrite F'.
Qed.

Lemma parse_date_later_year_witness :
  parse_date 2031 "Friday, 5 December 2025" = Some (Date 2025 12 5).
Proof.
  apply (@parse_date_later_year 2025 2031).
  - vm_compute. reflexivity.
  - lia.
Defined.

(** *** Surrounding blanks *)

Lemma drop_while_idem (p : ascii -> bool) (s : str) :
  drop_while p (drop_while p s) = drop_while p s.
Proof.
  induction s as [|c s IH]; simpl; [reflexivity|].
  destruct (p c) eqn:E; [exact IH|]. simpl. now rewrite E.
Qed.

Lemma drop_while_head (p : ascii -> bool) (s : str) :
  match drop_while p s with [] => True | c :: _ => p c = false end.
Proof.
  induction s as [|c s IH]; simpl; [exact I|].
  destruct (p c) eqn:E; [exact IH|exact E].
Qed.

Lemma strip_by_idem (p : ascii -> bool) (s : str) :
  strip_by p (strip_by p s) = strip_by p s.
Proof.
  unfold strip_by, lstrip_by.
  pose proof (drop_while_head p s) as Hh.
  destruct (drop_while p s) as [|c u] eqn:Eu; [reflexivity|].
  destruct (@rstrip_by_keeps p [] c u Hh) as [b' Eb]. simpl in Eb.
  rewrite Eb. simpl. rewrite Hh. rewrite <- Eb.
  unfold rstrip_by. rewrite rev_involutive, drop_while_idem. reflexivity.
Qed.

(** X3: blanks around the text play no part, and a text of blanks alone is
    no date. *)
Theorem parse_date_ignores_surrounding_blanks (now_year : Z) (date_str : str) :
  parse_date now_year (py_strip date_str) = parse_date now_year date_str
  /\ (py_strip date_str = [] -> parse_date now_year date_str = None).
Proof.
  assert (B : py_strip date_str = [] -> parse_date now_year date_str = None).
  { intros E. unfold parse_date. destruct (negb (nonempty date_str)); [reflexivity|].
    cbv zeta. rewrite E. reflexivity. }
  split; [|exact B].
  destruct (py_strip date_str) as [|c s] eqn:E.
  - now rewrite B.
  - unfold parse_date. rewrite <- E.
    assert (Hne : nonempty date_str = true).
    { destruct date_str; [discriminate|reflexivity]. }
    rewrite Hne, E. cbn [nonempty negb]. cbv zeta. rewrite <- E.
    unfold py_strip. now rewrite strip_by_idem.
Qed.

Lemma parse_date_ignores_surrounding_blanks_witness :
  parse_date 2026 "   " = None.
Proof.
  apply (proj2 (parse_date_ignores_surrounding_blanks 2026 "   ")).
  reflexivity.
Defined.

End StrictDateFacts.

(** ** District canonicalizer: further properties *)

Module DistrictRuleFacts.

Import District DistrictFacts TableFacts StrictDateFacts.

Lemma normalize_district_blank (s : str) :
  lower (py_strip s) = [] -> normalize_district (Some s) = Some "Unknown".
Proof.
  intros E. unfold normalize_district. destruct s as [|c s]; [reflexivity|].
  cbv zeta. rewrite E. reflexivity.
Qed.

Lemma normalize_district_same_text (s t : str) :
  lower (py_strip s) = lower (py_strip t) ->
  normalize_district (Some s) = normalize_district (Some t).
Proof.
  intros E. destruct (lower (py_strip s)) as [|c d] eqn:Es.
  - rewrite (normalize_district_blank s Es). symmetry.
    now apply normalize_district_blank.
  - unfold normalize_district.
    destruct s as [|cs s']; [discriminate|].
    destruct t as [|ct t']; [vm_compute in E; discriminate|].
    cbv beta iota zeta. now rewrite Es, <- E.
Qed.

Lemma upper_c_space (c : ascii) : is_space (upper_c c) = is_space c.
Proof. destruct c as [[] [] [] [] [] [] [] []]; reflexivity. Qed.

Lemma lower_upper_c (c : ascii) : lower_c (upper_c c) = lower_c c.
Proof. destruct c as [[] [] [] [] [] [] [] []]; reflexivity. Qed.

Lemma lower_upper (s : str) : lower (upper s) = lower s.
Proof. unfold lower, upper. rewrite map_map. apply map_ext, lower_upper_c. Qed.

Lemma upper_drop_while (s : str) :
  upper (drop_while is_space s) = drop_while is_space (upper s).
Proof.
  induction s as [|c s IH]; simpl; [reflexivity|].
  rewrite upper_c_space. destruct (is_space c); [exact IH|reflexivity].
Qed.

Lemma upper_strip (s : str) : upper (py_strip s) = py_strip (upper s).
Proof.
  unfold py_strip, strip_by, rstrip_by, lstrip_by, upper.
  rewrite map_rev. fold (upper (drop_while is_space (rev (drop_while is_space s)))).
  rewrite upper_drop_while. unfold upper. rewrite map_rev.
  fold (upper (drop_while is_space s)). now rewrite upper_drop_while.
Qed.

(** X4: for an ASCII text, the letter case of the text and the blanks
    around it play no part in the canonical name, and an empty or blank
    text is treated like a missing one. *)
Theorem normalize_district_case_and_blanks (s : str) :
  ascii_text s ->
  normalize_district (Some (upper s)) = normalize_district (Some s)
  /\ normalize_district (Some (lower s)) = normalize_district (Some s)
  /\ normalize_district (Some (py_strip s)) = normalize_district (Some s)
  /\ (py_strip s = [] -> normalize_district (Some s) = normalize_district None).
Proof.
  intros _. repeat split.
  - apply normalize_district_same_text.
    now rewrite <- upper_strip, lower_upper.
  - apply normalize_district_same_text.
    now rewrite <- lower_strip, lower_idem.
  - apply normalize_district_same_text.
    unfold py_strip. now rewrite strip_by_idem.
  - intros E. apply normalize_district_blank. now rewrite E.
Qed.

Lemma normalize_district_case_and_blanks_witness :
  normalize_district (Some "   ") = normalize_district None
  /\ normalize_district (Some (upper " Kurnool ")) = normalize_district (Some " Kurnool ").
Proof.
  assert (A1 : ascii_text "   ") by (repeat constructor; vm_compute; lia).
  assert (A2 : ascii_text " Kurnool ") by (repeat constructor; vm_compute; lia).
  split.
  - apply (proj2 (proj2 (proj2 (@normalize_district_case_and_blanks "   " A1)))).
    reflexivity.
  - apply (@normalize_district_case_and_blanks " Kurnool " A2).
Defined.

Lemma title_not_nil (s : str) : s <> [] -> title s <> [].
Proof.
  destruct s as [|c s]; [contradiction|]. intros _. unfold title. simpl.
  destruct (is_lower c); [discriminate|]. destruct (is_upper c); discriminate.
Qed.

(** X5: the canonical name is never empty: a record is either excluded or
    carries a name. *)
Theorem normalize_district_never_empty (v : option str) (c : str) :
  normalize_district v = Some c -> c <> [].
Proof.
  unfold normalize_district. destruct v as [[|c0 s0]|].
  1,3: intros [= <-]; discriminate.
  cbv zeta. set (d := lower (py_strip (c0 :: s0))). clearbody d.
  repeat match goal with
         | |- (if ?b then _ else _) = _ -> _ =>
             destruct b eqn:?; [try (intros [= <-]; discriminate); try discriminate|]
         end.
  match goal with
  | H : negb (nonempty ?x) || _ = false |- _ =>
      set (clean := x) in *; apply orb_false_iff in H as [H _];
      intros [= <-]; apply title_not_nil;
      destruct clean; [discriminate H|discriminate]
  end.
Qed.

Lemma normalize_district_never_empty_witness :
  ("Kothagudem Town" : str) <> [].
Proof.
  apply (@normalize_district_never_empty (Some " kothagudem town. ")).
  reflexivity.
Defined.

Lemma alias_ends (x : str) :
  In x ranga_reddy_aliases ->
  exists c m c', x = c :: m ++ [c'] /\ is_space c = false /\ is_space c' = false.
Proof.
  intros H. exists (hd " "%char x), (removelast (tl x)), (last x " "%char).
  simpl in H.
  repeat (destruct H as [<-|H]; [repeat split; reflexivity|]). contradiction.
Qed.

(** X6: the Ranga Reddy rule comes first: a text that holds one of its
    thirteen aliases, in any letter case and anywhere, is canonicalized to
    "Ranga Reddy", whatever else it holds. *)
Theorem ranga_reddy_alias_wins (s x : str) :
  In x ranga_reddy_aliases -> contains_ci x s ->
  normalize_district (Some s) = Some "Ranga Reddy".
Proof.
  intros Hx Hc.
  destruct (alias_ends Hx) as (c & m & c' & E & Hs & Hs').
  pose proof (@survives_strip x s c c' m E Hs Hs' Hc) as K.
  unfold normalize_district. destruct s as [|c0 s0].
  { destruct Hc as (u & w & v & Hu & Hw).
    destruct u; [|discriminate]. destruct w; [|discriminate].
    subst x. discriminate. }
  cbv zeta.
  replace (existsb _ ranga_reddy_aliases) with true; [reflexivity|].
  symmetry. apply existsb_exists. exists x. split; [exact Hx|].
  now apply str_in_spec.
Qed.

Lemma ranga_reddy_alias_wins_witness :
  normalize_district (Some "JFCM Court, RAJENDRANAGAR (Hyderabad)") = Some "Ranga Reddy".
Proof.
  apply (@ranga_reddy_alias_wins _ "rajendranagar").
  - simpl. auto 14.
  - exists "JFCM Court, ", "RAJENDRANAGAR", " (Hyderabad)". split; reflexivity.
Defined.

End DistrictRuleFacts.

(** ** Dates as stored texts *)

Module IsoFacts.

Import Db DateFacts ShapeFacts VerboseFacts StrictDateFacts.
Local Open Scope Z_scope.

Lemma digit_chr_cases (n : Z) :
  In (digit_chr n, n mod 10)
     [ ("0"%char, 0); ("1"%char, 1); ("2"%char, 2); ("3"%char, 3); ("4"%char, 4);
       ("5"%char, 5); ("6"%char, 6); ("7"%char, 7); ("8"%char, 8); ("9"%char, 9) ].
Proof.
  unfold digit_chr. pose proof (Z.mod_pos_bound n 10 eq_refl) as B.
  assert (H : n mod 10 = 0 \/ n mod 10 = 1 \/ n mod 10 = 2 \/ n mod 10 = 3
              \/ n mod 10 = 4 \/ n mod 10 = 5 \/ n mod 10 = 6 \/ n mod 10 = 7
              \/ n mod 10 = 8 \/ n mod 10 = 9) by lia.
  repeat (destruct H as [->|H]; [simpl; auto 12|]). rewrite H. simpl. auto 12.
Qed.

Lemma digit_chr_digit (n : Z) : is_digit (digit_chr n) = true.
Proof.
  pose proof (digit_chr_cases n) as H. cbn [In] in H.
  repeat (destruct H as [[= <- _]|H]; [reflexivity|]). contradiction.
Qed.

Lemma digit_chr_val (n : Z) : digit_val (digit_chr n) = n mod 10.
Proof.
  pose proof (digit_chr_cases n) as H. cbn [In] in H.
  repeat (destruct H as [[= <- <-]|H]; [reflexivity|]). contradiction.
Qed.

(** [int] reads back the four digits of a year. *)
Lemma py_int_pad4 (y : Z) : 0 <= y <= 9999 -> py_int (pad4 y) = Some y.
Proof.
  intros Hy. unfold py_int, py_strip. rewrite strip_by_none.
  2:{ unfold pad4. repeat constructor; apply digit_not_space, digit_chr_digit. }
  unfold pad4.
  destruct (digit_not_sign _ (digit_chr_digit (y / 1000))) as [-> ->].
  cbn [digits_val]. rewrite !digit_chr_digit, !digit_chr_val. f_equal.
  Z.div_mod_to_equations. lia.
Qed.

Lemma valid_date_ranges (d : date) :
  valid_date d = true ->
  1 <= year d <= 9999 /\ 1 <= month d <= 12 /\ 1 <= day d <= 31.
Proof.
  unfold valid_date, days_in_month. intros H.
  repeat (apply andb_true_iff in H as [H ?]).
  repeat match goal with
         | K : (_ <=? _) = true |- _ => apply Z.leb_le in K
         end.
  assert (day d <= 31).
  { destruct (month d =? 2); [destruct (is_leap (year d)); lia|].
    destruct (_ || _); lia. }
  lia.
Qed.

(** The pattern of [%Y-%m-%d]: the year is read first. *)
Lemma iso_year_first (a b c e : ascii) (tl : str) :
  is_digit a = true -> is_digit b = true -> is_digit c = true -> is_digit e = true ->
  exec (pattern iso_format) None (a :: b :: c :: e :: tl)
  = rmatch (Seq (map directive_re [dLit "-"; dm; dLit "-"; dd]))
      (MState (Some e) tl [(gY, [a; b; c; e])]) Some.
Proof.
  intros Ha Hb Hc He. unfold exec, init.
  change (pattern iso_format)
    with (Cat (Group gY (Cat digit (Cat digit (Cat digit digit))))
              (Seq (map directive_re [dLit "-"; dm; dLit "-"; dd]))).
  cbn [rmatch digit rest step caps prev]. rewrite Ha.
  cbn [rmatch digit rest step caps prev]. rewrite Hb.
  cbn [rmatch digit rest step caps prev]. rewrite Hc.
  cbn [rmatch digit rest step caps prev]. rewrite He.
  cbn [rest step caps prev].
  change (a :: b :: c :: e :: tl) with ([a; b; c; e] ++ tl).
  rewrite firstn_consumed. reflexivity.
Qed.

Lemma in_range_12 (m : Z) : 1 <= m <= 12 -> In m [1;2;3;4;5;6;7;8;9;10;11;12].
Proof. intros H. simpl. lia. Qed.

Lemma in_range_31 (m : Z) :
  1 <= m <= 31 ->
  In m [1;2;3;4;5;6;7;8;9;10;11;12;13;14;15;16;17;18;19;20;21;22;23;24;25;26;27;
        28;29;30;31].
Proof. intros H. simpl. lia. Qed.

(** [strptime] reads back what [str] writes. *)
Lemma strptime_isoformat (d : date) :
  valid_date d = true -> strptime (isoformat d) iso_format = Some d.
Proof.
  intros Hv. destruct (valid_date_ranges d Hv) as (Hy & Hm & Hd).
  destruct d as [y m dd]. cbn [year month day] in *.
  assert (Py : py_int (pad4 y) = Some y) by (apply py_int_pad4; lia).
  unfold isoformat. cbn [year month day]. unfold strptime, re_match.
  unfold pad4 in *.
  set (a := digit_chr (y / 1000)) in *. set (b := digit_chr (y / 100)) in *.
  set (c := digit_chr (y / 10)) in *. set (e := digit_chr y) in *.
  assert (Ha : is_digit a = true) by apply digit_chr_digit.
  assert (Hb : is_digit b = true) by apply digit_chr_digit.
  assert (Hc : is_digit c = true) by apply digit_chr_digit.
  assert (He : is_digit e = true) by apply digit_chr_digit.
  clearbody a b c e.
  cbn [app]. rewrite (@iso_year_first a b c e _ Ha Hb Hc He).
  apply in_range_12 in Hm. apply in_range_31 in Hd.
  cbn [In] in Hm, Hd.
  repeat (destruct Hm as [<-|Hm];
    [repeat (destruct Hd as [<-|Hd];
       [match goal with
        | |- match ?x with _ => _ end = _ =>
            let v := eval vm_compute in x in
            replace x with v by (vm_compute; reflexivity)
        end;
        cbn [rest nonempty];
        unfold found_year, found_month, found_day, group;
        cbn [caps group_of Nat.eqb gY gm gd gy gB];
        rewrite Py;
        repeat match goal with
               | |- context [py_int ?w] =>
                   let v := eval vm_compute in (py_int w) in
                   change (py_int w) with v
               end;
        cbv beta iota; unfold mk_date; now rewrite Hv|]);
     contradiction|]).
  contradiction.
Qed.

Lemma isoformat_no_blank (d : date) :
  Forall (fun c => is_space c = false) (isoformat d).
Proof.
  unfold isoformat, pad4, pad2. cbn [app].
  repeat constructor; try reflexivity; apply digit_not_space, digit_chr_digit.
Qed.

(** X7: reading back a stored date: the text [str(d)] of a valid date whose
    year is at most one ahead of the current one is parsed to [d]. *)
Theorem parse_date_isoformat (now_year : Z) (d : date) :
  valid_date d = true -> year d <= now_year + 1 ->
  parse_date now_year (isoformat d) = Some d.
Proof.
  intros Hv Hy.
  apply (@accepted_by_format now_year (isoformat d) iso_format d).
  - now left.
  - right. unfold py_strip. rewrite (@strip_by_none _ _ (isoformat_no_blank d)).
    now apply strptime_isoformat.
  - unfold too_far. lia.
Qed.

Lemma parse_date_isoformat_witness :
  parse_date 2026 (isoformat (Date 2024 2 29)) = Some (Date 2024 2 29).
Proof.
  apply parse_date_isoformat; [reflexivity|simpl; lia].
Defined.

Lemma strip_by_ends (p : ascii -> bool) (c : ascii) (w : str) (c' : ascii) :
  p c = false -> p c' = false -> strip_by p (c :: w ++ [c']) = c :: w ++ [c'].
Proof.
  intros Hc Hc'. unfold strip_by, lstrip_by, rstrip_by.
  cbn [drop_while]. rewrite Hc.
  change (c :: w ++ [c']) with ((c :: w) ++ [c']).
  rewrite rev_app_distr. cbn [rev app drop_while]. rewrite Hc'.
  change (c' :: rev w ++ [c]) with (rev [c'] ++ rev (c :: w)).
  rewrite <- rev_app_distr. apply rev_involutive.
Qed.

(** A text that [%Y-%m-%d] accepts has no blank at its ends. *)
Lemma iso_text_trimmed (s : str) (d : date) :
  strptime s iso_format = Some d -> py_strip s = s.
Proof.
  intros H. apply strptime_shaped in H as (pieces & -> & F).
  unfold iso_format in F.
  inversion F as [|? w1 ? ps1 H1 F1]; subst.
  inversion F1 as [|? w2 ? ps2 H2 F2]; subst.
  inversion F2 as [|? w3 ? ps3 H3 F3]; subst.
  inversion F3 as [|? w4 ? ps4 H4 F4]; subst.
  inversion F4 as [|? w5 ? ps5 H5 F5]; subst.
  inversion F5; subst. cbn [concat]. rewrite app_nil_r.
  cbn [piece_ok] in H1, H5.
  destruct w1 as [|a1 [|a2 [|a3 [|a4 [|]]]]]; try discriminate.
  destruct w5 as [|x [|y [|]]]; try discriminate; digit_facts.
  - replace ([a1; a2; a3; a4] ++ w2 ++ w3 ++ w4 ++ [x])
      with (a1 :: ([a2; a3; a4] ++ w2 ++ w3 ++ w4) ++ [x])
      by (cbn [app]; now rewrite <- !app_assoc).
    apply strip_by_ends; now apply digit_not_space.
  - replace ([a1; a2; a3; a4] ++ w2 ++ w3 ++ w4 ++ [x; y])
      with (a1 :: ([a2; a3; a4] ++ w2 ++ w3 ++ w4 ++ [x]) ++ [y])
      by (cbn [app]; now rewrite <- !app_assoc).
    apply strip_by_ends; now apply digit_not_space.
  - replace ([a1; a2; a3; a4] ++ w2 ++ w3 ++ w4 ++ [" "%char; y])
      with (a1 :: ([a2; a3; a4] ++ w2 ++ w3 ++ w4 ++ [" "%char]) ++ [y])
      by (cbn [app]; now rewrite <- !app_assoc).
    apply strip_by_ends; now apply digit_not_space.
Qed.

(** X8: the loader of the start-up data and [parse_date] agree: a text
    that [strptime(date_str, "%Y-%m-%d")] accepts is parsed by [parse_date]
    to the same date, unless its year lies more than one ahead, when
    [parse_date] gives none. *)
Theorem initial_loader_agrees (now_year : Z) (date_str : str) (d : date) :
  initial_filing_date date_str = Some d ->
  (year d <= now_year + 1 -> parse_date now_year date_str = Some d)
  /\ (year d > now_year + 1 -> parse_date now_year date_str = None).
Proof.
  unfold initial_filing_date. intros H.
  assert (Hin : In iso_format formats) by now left.
  assert (Hs : strptime (py_strip date_str) iso_format = Some d)
    by now rewrite (@iso_text_trimmed _ _ H).
  split; intros Hy.
  - apply (@accepted_by_format now_year date_str iso_format d Hin (or_intror Hs)).
    unfold too_far. lia.
  - apply (@rejected_by_format now_year date_str iso_format d Hin (or_intror Hs)).
    unfold too_far. lia.
Qed.

Lemma initial_loader_agrees_witness :
  parse_date 2026 "2025-10-09" = Some (Date 2025 10 9).
Proof.
  apply (proj1 (@initial_loader_agrees 2026 "2025-10-09" (Date 2025 10 9) eq_refl)).
  simpl. lia.
Defined.

End IsoFacts.

(** ** The cases table *)

Module DbFacts.

Import Db District DateFacts IsoFacts DistrictRuleFacts TableFacts.
Local Open Scope Z_scope.

(** *** [migrate_dates] *)

Lemma isoformat_not_none (d : date) : str_eqb (isoformat d) "None" = false.
Proof.
  unfold isoformat, pad4. cbn [app str_eqb].
  pose proof (digit_chr_digit (year d / 1000)) as H.
  destruct (Ascii.eqb (digit_chr (year d / 1000)) "N") eqn:E; [|reflexivity].
  apply Ascii.eqb_eq in E. rewrite E in H. discriminate.
Qed.

Lemma isoformat_nonempty (d : date) : exists c s, isoformat d = c :: s.
Proof. unfold isoformat, pad4. cbn [app]. eauto. Qed.

(** A row that a pass has gone over is left alone by the next pass. *)
Lemma migrate_date_row_stable (now_year : Z) (r : case_row) :
  migrate_date_row now_year (fst (migrate_date_row now_year r))
  = (fst (migrate_date_row now_year r), false).
Proof.
  unfold migrate_date_row at 2 3.
  destruct (date_text r) as [[|c s]|] eqn:Ed.
  1,3: cbn [fst]; unfold migrate_date_row; now rewrite Ed.
  destruct (parse_date now_year (c :: s)) as [nd|] eqn:Ep.
  - destruct (negb (str_eqb (isoformat nd) (py_str (filing_date r)))) eqn:Eq;
      cbn [fst]; unfold migrate_date_row.
    + cbn [set_filing_date date_text filing_date]. rewrite Ed, Ep.
      cbn [py_str]. now rewrite str_eqb_refl.
    + now rewrite Ed, Ep, Eq.
  - destruct (truthy (filing_date r)) eqn:Et; cbn [fst]; unfold migrate_date_row.
    + cbn [set_filing_date date_text filing_date]. now rewrite Ed, Ep.
    + now rewrite Ed, Ep, Et.
Qed.

(** After a pass the filing date of a row whose date text is parsed is the
    stored text of the parsed date. *)
Lemma migrate_date_row_filing (now_year : Z) (r : case_row) (s : str) (d : date) :
  date_text r = Some s -> parse_date now_year s = Some d ->
  filing_date (fst (migrate_date_row now_year r)) = Some (isoformat d).
Proof.
  intros Ed Ep. unfold migrate_date_row. rewrite Ed.
  destruct s as [|c s]; [discriminate Ep|]. rewrite Ep.
  destruct (negb (str_eqb (isoformat d) (py_str (filing_date r)))) eqn:Eq;
    cbn [fst]; [reflexivity|].
  apply negb_false_iff in Eq.
  destruct (filing_date r) as [f|]; cbn [py_str] in Eq.
  - apply str_eqb_spec in Eq. now subst.
  - now rewrite isoformat_not_none in Eq.
Qed.

(** X9: the date migration is idempotent: a second run over the migrated
    table updates no row and leaves the table as it is.  After a run, the
    filing date of a row whose date text is parsed is the stored text of the
    parsed date, which reads back as that date. *)
Theorem migrate_dates_idempotent (now_year : Z) (cases : list case_row) :
  let migrated := fst (migrate_dates now_year cases) in
  migrate_dates now_year migrated = (migrated, 0%nat)
  /\ length migrated = length cases
  /\ (forall i r s d,
        nth_error cases i = Some r ->
        date_text r = Some s -> parse_date now_year s = Some d ->
        exists r', nth_error migrated i = Some r'
                   /\ filing_date r' = Some (isoformat d)
                   /\ parse_date now_year (isoformat d) = Some d).
Proof.
  cbv zeta. unfold migrate_dates. cbn [fst]. repeat split.
  - rewrite !map_map. f_equal.
    + apply map_ext. intros r. now rewrite migrate_date_row_stable.
    + induction cases as [|r cases IH]; [reflexivity|].
      cbn [map filter]. rewrite migrate_date_row_stable. exact IH.
  - now rewrite !length_map.
  - intros i r s d Hi Ed Ep.
    exists (fst (migrate_date_row now_year r)). repeat split.
    + rewrite map_map. now rewrite nth_error_map, Hi.
    + now apply (@migrate_date_row_filing now_year r s d).
    + apply parse_date_some in Ep as (V & F & _).
      apply parse_date_isoformat; [exact V|]. unfold too_far in F. lia.
Qed.

Lemma migrate_dates_idempotent_witness :
  exists r', nth_error (fst (migrate_dates 2026
                               [row_with_date "3rd October, 2025"])) 0 = Some r'
             /\ filing_date r' = Some "2025-10-03"
             /\ parse_date 2026 "2025-10-03" = Some (Date 2025 10 3).
Proof.
  apply (proj2 (proj2 (migrate_dates_idempotent 2026
                         [row_with_date "3rd October, 2025"]))
           0%nat (row_with_date "3rd October, 2025") "3rd October, 2025"
           (Date 2025 10 3));
    reflexivity.
Defined.

(** *** [migrate_districts] *)

Lemma opt_str_eqb_spec (a b : option str) : opt_str_eqb a b = true <-> a = b.
Proof.
  destruct a as [x|], b as [y|]; simpl; try (split; [discriminate|discriminate]).
  - rewrite str_eqb_spec. split; [now intros ->|now intros [= ->]].
  - tauto.
Qed.

Lemma migrate_district_row_district (r : case_row) :
  district (fst (migrate_district_row r)) = normalize_district (district r).
Proof.
  unfold migrate_district_row. cbv zeta.
  destruct (negb (opt_str_eqb _ _)) eqn:E; cbn [fst]; [reflexivity|].
  apply negb_false_iff, opt_str_eqb_spec in E. exact E.
Qed.

(** X10: the district migration keeps every row and stores the canonical
    name of its district; a row that the canonicalizer excludes is kept with
    NULL, and the next run turns that NULL into "Unknown": the exclusion
    does not outlast a second run. *)
Theorem migrate_districts_exclusion_lost (cases : list case_row) :
  let once := fst (migrate_districts cases) in
  let twice := fst (migrate_districts once) in
  length once = length cases
  /\ map district once = map (fun r => normalize_district (district r)) cases
  /\ (forall i r,
        nth_error cases i = Some r -> normalize_district (district r) = None ->
        (exists r1, nth_error once i = Some r1 /\ district r1 = None)
        /\ (exists r2, nth_error twice i = Some r2 /\ district r2 = Some "Unknown")).
Proof.
  cbv zeta. unfold migrate_districts. cbn [fst]. repeat split.
  - now rewrite !length_map.
  - rewrite !map_map. apply map_ext. apply migrate_district_row_district.
  - exists (fst (migrate_district_row r)). split.
    + rewrite map_map. now rewrite nth_error_map, H.
    + now rewrite migrate_district_row_district.
  - exists (fst (migrate_district_row (fst (migrate_district_row r)))). split.
    + rewrite !map_map. now rewrite nth_error_map, H.
    + now rewrite !migrate_district_row_district, H0.
Qed.

Lemma migrate_districts_exclusion_lost_witness :
  exists r2,
    nth_error (fst (migrate_districts (fst (migrate_districts
                 [row_with_district "Lucknow"])))) 0 = Some r2
    /\ district r2 = Some "Unknown".
Proof.
  apply (proj2 (proj2 (proj2 (migrate_districts_exclusion_lost
                                [row_with_district "Lucknow"]))
                  0%nat (row_with_district "Lucknow") eq_refl eq_refl)).
Defined.

(** *** [load_from_json] *)

Lemma load_item_inserted (now_year : Z) (it : item) (r : case_row) :
  load_item now_year it = Inserted r -> inserted_ok now_year r.
Proof.
  unfold load_item. cbv zeta.
  destruct (nonempty _ && _ && _) eqn:Eb; [discriminate|].
  destruct (parse_date_value now_year _) as [fd|] eqn:Ep; [|discriminate].
  destruct (normalize_district_value _) as [[dn|]|] eqn:En; try discriminate.
  intros [= <-]. unfold inserted_ok. cbn [district corno filing_date]. repeat split.
  - exists dn. split; [reflexivity|].
    unfold normalize_district_value in En.
    destruct (get_or_empty "district" it) as [|s|[|x l]]; try discriminate.
    + apply (@normalize_district_never_empty None dn). congruence.
    + apply (@normalize_district_never_empty (Some s) dn). congruence.
    + injection En as <-. discriminate.
  - eexists. split; [reflexivity|exact Eb].
  - destruct fd as [d|]; [right|now left].
    exists d. split; [reflexivity|].
    unfold parse_date_value in Ep.
    destruct (get_or_empty "date" it) as [|s|[|x l]]; try discriminate.
    injection Ep as Ep. apply parse_date_some in Ep as (V & F & _).
    split; [exact V|]. unfold too_far in F. lia.
Qed.

Lemma load_items_appends (now_year : Z) (items : list item) :
  forall acc count rows n,
    load_items now_year items acc count = Some (rows, n) ->
    exists new, rows = acc ++ new /\ n = (count + length new)%nat
                /\ (length new <= length items)%nat
                /\ Forall (inserted_ok now_year) new.
Proof.
  induction items as [|it items IH]; intros acc count rows n H; cbn [load_items] in H.
  - injection H as <- <-. exists []. rewrite app_nil_r. repeat split; auto.
  - destruct (load_item now_year it) as [| |r] eqn:E; [discriminate| |].
    + destruct (IH _ _ _ _ H) as (new & -> & -> & L & F).
      exists new. repeat split; auto. simpl. lia.
    + destruct (IH _ _ _ _ H) as (new & -> & -> & L & F).
      exists (r :: new). rewrite <- app_assoc. repeat split.
      * simpl. lia.
      * simpl. lia.
      * constructor; [now apply (@load_item_inserted now_year it)|exact F].
Qed.

(** X11: an upload is all or nothing.  When [load_from_json] raises, the
    table is as before (the rollback).  Otherwise the table is the old one
    followed by the inserted rows, the count returned is their number, at
    most one per record; every inserted row has a non-empty district name,
    a case number that is no [[...]] placeholder, and a filing date that is
    absent or the stored text of a valid date at most one year ahead. *)
Theorem load_from_json_appends (now_year : Z) (cases : list case_row) (data : upload) :
  match load_from_json now_year cases data with
  | (cases', None) => cases' = cases
  | (cases', Some count) =>
      exists rows,
        cases' = cases ++ rows /\ length rows = count
        /\ (count <= length (items_to_process data))%nat
        /\ Forall (inserted_ok now_year) rows
  end.
Proof.
  unfold load_from_json.
  destruct (load_items now_year (items_to_process data) [] 0) as [[rows n]|] eqn:E;
    [|reflexivity].
  apply load_items_appends in E as (new & -> & -> & L & F).
  exists new. repeat split; auto.
Qed.

(** The records that are left out: a bracketed case number, or a district
    that the canonicalizer excludes. *)
Lemma load_item_skips (now_year : Z) (it : item) (s : str) :
  get_or_empty "district" it = JStr s -> normalize_district (Some s) = None ->
  forall r, load_item now_year it <> Inserted r.
Proof.
  intros Hd Hn r. unfold load_item. cbv zeta.
  destruct (nonempty _ && _ && _); [discriminate|].
  destruct (parse_date_value now_year _); [|discriminate].
  rewrite Hd. cbn [normalize_district_value]. rewrite Hn. discriminate.
Qed.

End DbFacts.

(** ** Tables, metadata and list views: further properties *)

Module RecordFacts.

Import TableFacts.

(** *** Horizontal tables *)

Lemma in_keys_set (k k' v : str) (d : dict) :
  In k (keys (dict_set k' v d)) <-> k = k' \/ In k (keys d).
Proof.
  rewrite keys_set. destruct (existsb (str_eqb k') (keys d)) eqn:E.
  - split; [now right|]. intros [->|H]; [|exact H].
    apply existsb_exists in E as (x & Hx & Ex). apply str_eqb_spec in Ex. now subst.
  - rewrite in_app_iff. simpl. intuition.
Qed.

Lemma in_keys_fill_row (headers cols : list str) (k : str) :
  forall i d,
    In k (keys (fill_row headers i cols d))
    <-> In k (keys d) \/ In k (map py_strip headers).
Proof.
  induction headers as [|h hs IH]; intros i d; cbn [fill_row map In].
  - tauto.
  - rewrite IH, in_keys_set. intuition.
Qed.

Lemma cell_under_none (hs cols : list str) (k : str) :
  (forall h, In h hs -> py_strip h <> k) ->
  forall i acc, cell_under hs i cols k acc = acc.
Proof.
  induction hs as [|h hs IH]; intros Hn i acc; [reflexivity|].
  cbn [cell_under]. rewrite IH by (intros h' H'; apply Hn; now right).
  rewrite str_eqb_neq; [reflexivity|]. intros ->. now apply (Hn h); [left|].
Qed.

Lemma cell_under_last (pre : list str) (h : str) (post cols : list str) :
  (forall h', In h' post -> py_strip h' <> py_strip h) ->
  forall i acc,
    cell_under (pre ++ h :: post) i cols (py_strip h) acc
    = Some (nth (i + length pre) cols []).
Proof.
  intros Hn. induction pre as [|p pre IH]; intros i acc.
  - cbn [app cell_under length]. rewrite str_eqb_refl, Nat.add_0_r.
    now apply cell_under_none.
  - cbn [app cell_under length]. rewrite IH. f_equal. f_equal. lia.
Qed.

(** X12: a table that is not of the vertical layout gives one record per
    data line, in order.  The keys of a record are the trimmed header names
    and nothing else; a header name maps to the trimmed cell of the last
    column so named, and to the empty text when the line has no such cell:
    cells beyond the headers are dropped, missing ones are empty. *)
Theorem horizontal_table_records (md_table hdr sep row1 : str) (rows : list str) :
  nonempty (py_strip md_table) = true ->
  table_lines (strip_code_fences md_table) = hdr :: sep :: row1 :: rows ->
  is_vertical (parse_headers hdr) = false ->
  let headers := parse_headers hdr in
  parse_markdown_table md_table = map (parse_row headers) (row1 :: rows)
  /\ (forall line k,
        In k (keys (parse_row headers line)) <-> In k (map py_strip headers))
  /\ (forall line pre h post,
        headers = pre ++ h :: post ->
        (forall h', In h' post -> py_strip h' <> py_strip h) ->
        dict_get (py_strip h) (parse_row headers line)
        = Some (nth (length pre) (map py_strip (cells line)) [])).
Proof.
  intros Hne Htl Hv. cbv zeta. split; [|split].
  - unfold parse_markdown_table.
    assert (Hmd : nonempty md_table = true).
    { destruct md_table; [discriminate|reflexivity]. }
    rewrite Hmd, Hne. cbn [negb orb].
    destruct (strip_code_fences md_table) as [|c cl] eqn:Ec; [discriminate|].
    cbn [nonempty negb]. rewrite Htl. cbn [length Nat.ltb Nat.leb].
    unfold table_of_lines. cbn [hd skipn]. cbv zeta. rewrite Hv. reflexivity.
  - intros line k. unfold parse_row. rewrite in_keys_fill_row. simpl. tauto.
  - intros line pre h post E Hpost. unfold parse_row.
    rewrite dict_get_fill_row, E. now rewrite cell_under_last.
Qed.

Lemma horizontal_table_records_witness :
  parse_markdown_table
    (Samples.lines ["| Witness | Role |"; "|---|---|"; "| PW1 | Doctor | x |"; "| PW2 |"])
  = [[("Witness", "PW1"); ("Role", "Doctor")]; [("Witness", "PW2"); ("Role", [])]].
Proof.
  apply (proj1 (@horizontal_table_records
                  (Samples.lines ["| Witness | Role |"; "|---|---|";
                                  "| PW1 | Doctor | x |"; "| PW2 |"])
                  "| Witness | Role |" "|---|---|" "| PW1 | Doctor | x |"
                  ["| PW2 |"] eq_refl eq_refl eq_refl)).
Defined.

(** *** Metadata *)

Lemma keys_nodup_set (k v : str) (d : dict) :
  NoDup (keys d) -> NoDup (keys (dict_set k v d)).
Proof.
  intros H. rewrite keys_set. destruct (existsb (str_eqb k) (keys d)) eqn:E; [exact H|].
  apply NoDup_app; [exact H|repeat constructor; simpl; tauto|].
  intros x Hx [Ex|[]]. subst x.
  assert (K : existsb (str_eqb k) (keys d) = true).
  { apply existsb_exists. exists k. split; [exact Hx|apply str_eqb_refl]. }
  congruence.
Qed.

Lemma fields_only_set (k v : str) (d : dict) :
  In k metadata_fields -> fields_only d -> fields_only (dict_set k v d).
Proof.
  intros Hk [N H]. split; [now apply keys_nodup_set|].
  intros k' Hk'. apply in_keys_set in Hk' as [->|Hk']; auto.
Qed.

Ltac field_set :=
  repeat match goal with
         | |- fields_only (if ?b then _ else _) => destruct b
         | |- fields_only (match ?x with Some _ => _ | None => _ end) => destruct x
         | |- fields_only (dict_set _ _ _) => apply fields_only_set; [simpl; tauto|]
         | |- fields_only _ => assumption
         end.

Lemma normalize_item_fields (key val : str) (out : dict) :
  fields_only out -> fields_only (normalize_item key val out).
Proof.
  intros H. unfold normalize_item, date_iso_natural, date_generic. cbv zeta.
  field_set.
Qed.

Lemma normalize_metadata_fields (raw : dict) : fields_only (normalize_metadata raw).
Proof.
  unfold normalize_metadata.
  assert (H : fields_only []) by (split; [constructor|intros k []]).
  revert H. generalize (@nil (str * str)).
  induction raw as [|[k v] raw IH]; intros out H; [exact H|].
  cbn [fold_left fst snd]. apply IH. now apply normalize_item_fields.
Qed.

Lemma fallback_fields (legal_summary timeline_content : str) :
  fields_only (fallback_metadata_from_content legal_summary timeline_content).
Proof.
  assert (H : fields_only []) by (split; [constructor|intros k []]).
  unfold fallback_metadata_from_content. cbv zeta.
  field_set.
Qed.

(** X13: the metadata mapping of a document, read off its table or, when
    that gives nothing, off its summary, has no key but the six fields the
    templates read, each at most once. *)
Theorem metadata_fields_only (sections : Loader.sections_t) (legal_summary : str)
  (raw : dict) (timeline_content : str) :
  fields_only (Loader.metadata_of sections legal_summary)
  /\ fields_only (normalize_metadata raw)
  /\ fields_only (fallback_metadata_from_content legal_summary timeline_content).
Proof.
  split; [|split].
  - unfold Loader.metadata_of. cbv zeta.
    pose proof (normalize_metadata_fields
                  (hd [] (parse_markdown_table
                            (Loader.content_of "Metadata Extraction" sections)))) as H.
    destruct (normalize_metadata _); [apply fallback_fields|exact H].
  - apply normalize_metadata_fields.
  - apply fallback_fields.
Qed.

End RecordFacts.

(** ** List views: outcome counts and links *)

Module ListViewFacts.

Import Loader Detail TableFacts LoaderFacts.
Local Open Scope Z_scope.

(** *** Outcome counts *)

Lemma outcome_values (filename legal_summary : str) :
  In (extract_outcome_from_filename filename legal_summary)
     ["Acquitted"; "Convicted"; "Unknown"].
Proof.
  unfold extract_outcome_from_filename. cbv zeta.
  repeat match goal with
         | |- In (if ?b then _ else _) _ => destruct b
         end; simpl; auto.
Qed.

Lemma summary_outcome_values (a : summary) (l : list summary) :
  In a l ->
  (forall a, In a l -> exists f s, outcome a = extract_outcome_from_filename f s) ->
  In (outcome a) ["Acquitted"; "Convicted"; "Unknown"].
Proof.
  intros Hin H. destruct (H a Hin) as (f & s & ->). apply outcome_values.
Qed.

Lemma json_outcomes (files : listing json_doc) (label prefix : str) (a : summary) :
  In a (load_json_analyses files label prefix) ->
  exists f s, outcome a = extract_outcome_from_filename f s.
Proof.
  induction files as [|[fname [data|]] files IH]; cbn [load_json_analyses]; intros H.
  - contradiction.
  - destruct H as [<-|H]; [|now apply IH].
    unfold json_summary, make_summary. cbv zeta. cbn [outcome]. eauto.
  - now apply IH.
Qed.

Lemma markdown_outcomes (files : listing str) (a : summary) :
  In a (load_markdown_analyses files) ->
  exists f s, outcome a = extract_outcome_from_filename f s.
Proof.
  induction files as [|[fname [text|]] files IH]; cbn [load_markdown_analyses]; intros H.
  - contradiction.
  - destruct H as [<-|H]; [|now apply IH].
    unfold markdown_summary, make_summary. cbv zeta. cbn [outcome]. eauto.
  - now apply IH.
Qed.

Lemma count_incr_keys (k : str) (d : list (str * Z)) :
  In k (map fst d) -> map fst (count_incr k d) = map fst d.
Proof.
  induction d as [|[k' n] d IH]; intros H; [contradiction|].
  cbn [count_incr]. destruct (str_eqb k k') eqn:E; [reflexivity|].
  cbn [map fst]. f_equal. apply IH. destruct H as [H|H]; [|exact H].
  simpl in H. subst k'. now rewrite str_eqb_refl in E.
Qed.

Lemma count_get_incr (k k' : str) (d : list (str * Z)) :
  count_get k' (count_incr k d)
  = count_get k' d + (if str_eqb k' k then 1 else 0).
Proof.
  induction d as [|[k2 n] d IH]; cbn [count_incr count_get].
  - destruct (str_eqb k' k); lia.
  - destruct (str_eqb k k2) eqn:E; cbn [count_get].
    + apply str_eqb_spec in E. subst k2. destruct (str_eqb k' k); lia.
    + destruct (str_eqb k' k2) eqn:E2; [|exact IH].
      apply str_eqb_spec in E2. subst k2.
      rewrite str_eqb_neq; [lia|]. intros ->. now rewrite str_eqb_refl in E.
Qed.

Lemma fold_counts (l : list summary) :
  forall d,
    (forall a, In a l -> In (outcome a) (map fst d)) ->
    map fst (fold_left (fun d a => count_incr (outcome a) d) l d) = map fst d
    /\ forall k,
         count_get k (fold_left (fun d a => count_incr (outcome a) d) l d)
         = count_get k d + Z.of_nat (with_outcome k l).
Proof.
  induction l as [|a l IH]; intros d H.
  - split; [reflexivity|]. intros k. unfold with_outcome. simpl. lia.
  - cbn [fold_left].
    assert (Ha : In (outcome a) (map fst d)) by (apply H; now left).
    destruct (IH (count_incr (outcome a) d)) as [K1 K2].
    { intros a' H'. rewrite count_incr_keys by exact Ha. apply H. now right. }
    split; [now rewrite K1, count_incr_keys|].
    intros k. rewrite K2, count_get_incr. unfold with_outcome. cbn [filter].
    destruct (str_eqb (outcome a) k) eqn:E.
    + apply str_eqb_spec in E. subst k. rewrite str_eqb_refl.
      cbn [length]. lia.
    + rewrite str_eqb_neq; [lia|]. intros ->. now rewrite str_eqb_refl in E.
Qed.

Lemma three_outcomes (l : list summary) :
  (forall a, In a l -> In (outcome a) ["Acquitted"; "Convicted"; "Unknown"]) ->
  (with_outcome "Acquitted" l + with_outcome "Convicted" l
   + with_outcome "Unknown" l = length l)%nat.
Proof.
  unfold with_outcome. induction l as [|a l IH]; intros H; [reflexivity|].
  assert (Ha : In (outcome a) ["Acquitted"; "Convicted"; "Unknown"])
    by (apply H; now left).
  specialize (IH (fun a' H' => H a' (or_intror H'))).
  cbn [filter length]. simpl in Ha.
  destruct Ha as [<-|[<-|[<-|[]]]]; cbn [str_eqb Ascii.eqb Bool.eqb andb length];
    simpl; lia.
Qed.

(** X14: a list view counts every document under exactly one of the three
    outcomes: the counting dictionary keeps its three keys, the count of an
    outcome is the number of entries with it, and the counts add up to the
    total. *)
Theorem outcome_counts (fs : store) :
  let b := load_analysis_list fs in
  map fst (outcomes b) = ["Acquitted"; "Convicted"; "Unknown"]
  /\ (forall k, count_get k (outcomes b) = Z.of_nat (with_outcome k (analyses b)))
  /\ count_get "Acquitted" (outcomes b) + count_get "Convicted" (outcomes b)
     + count_get "Unknown" (outcomes b) = Z.of_nat (total b).
Proof.
  cbv zeta. unfold load_analysis_list. cbv zeta. cbn [outcomes analyses total].
  set (l := load_markdown_analyses (md_files fs)
            ++ load_json_analyses (std_json_files fs) "Standard" "std"
            ++ load_json_analyses (npa_json_files fs) "NPA" "npa").
  assert (Hl : forall a, In a l -> In (outcome a) ["Acquitted"; "Convicted"; "Unknown"]).
  { intros a Ha. unfold l in Ha. rewrite !in_app_iff in Ha.
    destruct Ha as [Ha|[Ha|Ha]].
    - apply markdown_outcomes in Ha as (f & s & ->). apply outcome_values.
    - apply json_outcomes in Ha as (f & s & ->). apply outcome_values.
    - apply json_outcomes in Ha as (f & s & ->). apply outcome_values. }
  destruct (@fold_counts l [("Acquitted", 0); ("Convicted", 0); ("Unknown", 0)] Hl)
    as [K1 K2].
  split; [exact K1|]. split.
  - intros k. rewrite K2.
    cbn [count_get].
    destruct (str_eqb k "Acquitted"), (str_eqb k "Convicted"), (str_eqb k "Unknown");
      lia.
  - rewrite !K2. cbn [count_get str_eqb Ascii.eqb Bool.eqb andb].
    pose proof (three_outcomes l Hl). lia.
Qed.

(** *** From an entry of the list to its document *)

Lemma existsb_rev_eq {A} (f : A -> bool) (l : list A) :
  existsb f (rev l) = existsb f l.
Proof.
  induction l as [|a l IH]; [reflexivity|].
  cbn [rev existsb]. rewrite existsb_app, IH. cbn [existsb].
  rewrite orb_false_r. apply orb_comm.
Qed.

Lemma splitext_json (stem : str) :
  existsb (fun c => negb (is_dot c)) stem = true ->
  splitext_stem (stem ++ ".json") = stem.
Proof.
  intros H. unfold splitext_stem. rewrite rev_app_distr.
  cbn [rev app drop_while is_dot Ascii.eqb Bool.eqb negb andb].
  rewrite existsb_rev_eq, H. apply rev_involutive.
Qed.

Lemma replace_suffix_only (pat stem : str) :
  pat <> [] -> replace_go pat [] pat 0 = [] ->
  only_at_end pat (stem ++ pat) ->
  replace pat [] (stem ++ pat) = stem.
Proof.
  intros Hne Hp H. destruct pat as [|p0 pat]; [contradiction|].
  cbn [replace]. induction stem as [|c stem IH]; [exact Hp|].
  cbn [app replace_go].
  destruct (startswith (p0 :: pat) (c :: stem ++ p0 :: pat)) eqn:E.
  - apply startswith_spec in E as [v E].
    assert (v = []) by (apply (H [] v); exact E).
    subst v. rewrite app_nil_r in E.
    apply (f_equal (@length ascii)) in E. cbn [length] in E.
    rewrite length_app in E. cbn [length] in E. lia.
  - f_equal. apply IH. intros u v E'.
    apply (H (c :: u) v). cbn [app]. now rewrite E'.
Qed.

(** X15: the entries of a list view link to the documents they came from.
    For a file [stem.json] (the stem not made of dots alone) the entry's slug
    is the prefix, an underscore and the stem, and the detail lookup hands
    that slug to the JSON reader with the path of the very file, in the
    standard or the NPA directory.  For a file [stem_analysis.md] that holds
    [_analysis.md] at its end only and does not start with [npa_] or [std_],
    the slug is the stem and the lookup hands it to the markdown reader with
    the path of the very file. *)
Theorem list_entry_links_to_document
  (BASE_DIR : str) (detail : Type) (load_json load_md : str -> str -> option detail) :
  (forall label stem data,
      existsb (fun c => negb (is_dot c)) stem = true ->
      let a := json_summary label "std" (stem ++ ".json") data in
      slug a = "std_" ++ stem
      /\ load_analysis_detail BASE_DIR load_json load_md (slug a)
         = load_json (path_join (ANALYSIS_DIR BASE_DIR) (stem ++ ".json")) (slug a))
  /\ (forall label stem data,
        existsb (fun c => negb (is_dot c)) stem = true ->
        let a := json_summary label "npa" (stem ++ ".json") data in
        slug a = "npa_" ++ stem
        /\ load_analysis_detail BASE_DIR load_json load_md (slug a)
           = load_json (path_join (NPA_ANALYSIS_DIR BASE_DIR) (stem ++ ".json")) (slug a))
  /\ (forall stem md_text,
        only_at_end "_analysis.md" (stem ++ "_analysis.md") ->
        startswith "npa_" stem = false -> startswith "std_" stem = false ->
        let a := markdown_summary (stem ++ "_analysis.md") md_text in
        slug a = stem
        /\ load_analysis_detail BASE_DIR load_json load_md (slug a)
           = load_md (path_join (ANALYSIS_DIR BASE_DIR) (stem ++ "_analysis.md")) (slug a)).
Proof.
  split; [|split].
  - intros label stem data H. cbv zeta.
    assert (E : slug (json_summary label "std" (stem ++ ".json") data) = "std_" ++ stem).
    { unfold json_summary, make_summary. cbv zeta. cbn [slug].
      now rewrite (splitext_json stem H). }
    split; [exact E|]. rewrite E. reflexivity.
  - intros label stem data H. cbv zeta.
    assert (E : slug (json_summary label "npa" (stem ++ ".json") data) = "npa_" ++ stem).
    { unfold json_summary, make_summary. cbv zeta. cbn [slug].
      now rewrite (splitext_json stem H). }
    split; [exact E|]. rewrite E. reflexivity.
  - intros stem md_text H Hn Hs. cbv zeta.
    assert (E : slug (markdown_summary (stem ++ "_analysis.md") md_text) = stem).
    { unfold markdown_summary, make_summary. cbv zeta. cbn [slug].
      apply replace_suffix_only; [discriminate|reflexivity|exact H]. }
    split; [exact E|]. rewrite E.
    unfold load_analysis_detail. now rewrite Hn, Hs.
Qed.

Lemma list_entry_links_to_document_witness :
  slug (json_summary "NPA" "npa" "12.v2.json" (JsonDoc None None [])) = "npa_12.v2"
  /\ load_analysis_detail "/srv/app" (fun p s => Some (p, s)) (fun _ _ => None)
       (slug (json_summary "NPA" "npa" "12.v2.json" (JsonDoc None None [])))
     = Some ("/srv/app/npa_analysis_documents/12.v2.json",
             slug (json_summary "NPA" "npa" "12.v2.json" (JsonDoc None None []))).
Proof.
  apply (proj1 (proj2 (@list_entry_links_to_document "/srv/app" (str * str)
                         (fun p s => Some (p, s)) (fun _ _ => None)))
           "NPA" "12.v2" (JsonDoc None None [])).
  reflexivity.
Defined.

End ListViewFacts.


(** * The case model *)

Module ModelFacts.
Import Models Outcome PyStrFacts.

Lemma marked_text (markers : list str) (m s : str) :
  In m markers -> contains_ci m s ->
  existsb (fun x => str_in x (lower s)) markers = true.
Proof.
  intros Hin Hc. apply existsb_exists. exists m. split; [exact Hin|].
  apply str_in_spec. now apply contains_lower.
Qed.

Lemma contains_nonempty (x t : str) : x <> [] -> contains x t -> nonempty t = true.
Proof.
  intros Hx (u & v & ->). destruct u; [|reflexivity].
  destruct x; [contradiction|reflexivity].
Qed.

Lemma contains_ci_nonempty (x t : str) : x <> [] -> contains_ci x t -> nonempty t = true.
Proof.
  intros Hx (u & w & v & -> & E). destruct u; [|reflexivity].
  destruct w; [|reflexivity]. simpl in E. congruence.
Qed.

(** The verdict of a case is one of Pending, Acquittal, Conviction,
    Dismissed and Decided, and it is Pending exactly for the active cases. *)
Lemma verdict_pending_iff_active (c : Case) :
  In (verdict c) verdicts /\ (verdict c = "Pending" <-> is_active c = true).
Proof.
  unfold verdict, verdict_of_sentence, verdict_of_summary, verdicts.
  destruct (is_active c).
  - split; [now left|]. split; reflexivity.
  - cbv zeta.
    repeat match goal with
           | |- context [if ?b then _ else _] => destruct b
           end;
      (split; [cbn [In]; tauto | split; discriminate]).
Qed.

(** X16: a sentence text that holds one of the markers "not specified",
    "not mentioned", "unknown" or "none", in any letter case and anywhere
    in the text, counts as no sentence at all: the case is active, and has
    the verdict, of the same case without a sentence. *)
Theorem marked_sentence_ignored (c : Case) (s m : str) :
  sentence_issued c = Some s -> In m invalid_markers -> contains_ci m s ->
  let c' := {| date := date c; sentence_issued := None; summary := summary c |} in
  is_active c = is_active c' /\ verdict c = verdict c'.
Proof.
  intros Hs Hin Hc c'.
  assert (A : is_active c = is_active c').
  { unfold is_active, has_valid_sentence, has_date. subst c'. cbn [date sentence_issued].
    rewrite Hs. cbn [or_empty]. rewrite (marked_text _ Hin Hc).
    rewrite andb_false_r. reflexivity. }
  split; [exact A|].
  unfold verdict. rewrite <- A. destruct (is_active c); [reflexivity|].
  subst c'. cbn [date sentence_issued summary]. rewrite Hs. cbn [or_empty].
  rewrite (marked_text _ Hin Hc). rewrite andb_false_r. reflexivity.
Qed.

Lemma marked_sentence_ignored_witness :
  let c := {| date := None; sentence_issued := Some "Nonetheless convicted";
              summary := None |} in
  is_active c = true /\ verdict c = "Pending".
Proof.
  intros c.
  assert (Hc : contains_ci "none" "Nonetheless convicted").
  { exists [], "None", "theless convicted". split; reflexivity. }
  assert (Hin : In ("none" : str) invalid_markers).
  { cbn [invalid_markers In]. tauto. }
  destruct (@marked_sentence_ignored c "Nonetheless convicted" "none" eq_refl Hin Hc)
    as [A V].
  split; [rewrite A | rewrite V]; reflexivity.
Defined.

(** X17: the two classifiers read a text that speaks of both outcomes in
    opposite ways.  For a closed case without a sentence whose summary holds
    both "acquitted" and "convicted" (in any letter case), the verdict of
    the case is Acquittal, while the outcome of an analysis with the same
    summary, under a file name that does not start with ACQUITTED, is
    Convicted. *)
Theorem classifiers_disagree (c : Case) (filename text : str) :
  is_active c = false -> sentence_issued c = None -> summary c = Some text ->
  contains_ci "acquitted" text -> contains_ci "convicted" text ->
  startswith "ACQUITTED" (upper filename) = false ->
  verdict c = "Acquittal"
  /\ extract_outcome_from_filename filename text = "Convicted".
Proof.
  intros Ha Hs Ht Hacq Hcon Hf.
  assert (Hne : nonempty text = true) by (apply (contains_ci_nonempty (x := "acquitted")); [discriminate|exact Hacq]).
  apply contains_lower, str_in_spec in Hacq.
  apply contains_lower, str_in_spec in Hcon.
  split.
  - unfold verdict. rewrite Ha, Hs, Ht. cbn [or_empty nonempty andb].
    rewrite Hne. unfold verdict_of_summary. rewrite Hacq.
    rewrite orb_true_r. reflexivity.
  - unfold extract_outcome_from_filename. rewrite Hf, Hne.
    destruct (_ || _); [reflexivity|].
    cbn [conviction_keywords existsb]. rewrite Hcon. rewrite orb_true_r.
    reflexivity.
Qed.

Lemma classifiers_disagree_witness :
  let c := {| date := Some "12-05-2021"; sentence_issued := None;
              summary := Some "A1 was convicted; A2 was acquitted." |} in
  verdict c = "Acquittal"
  /\ extract_outcome_from_filename "STD_case_7.json"
       "A1 was convicted; A2 was acquitted." = "Convicted".
Proof.
  intros c.
  apply (@classifiers_disagree c "STD_case_7.json" "A1 was convicted; A2 was acquitted.");
    try reflexivity.
  - exists "A1 was convicted; A2 was ", "acquitted", ".". split; reflexivity.
  - exists "A1 was ", "convicted", "; A2 was acquitted.". split; reflexivity.
Defined.

End ModelFacts.


(** * The HTML filter *)

Module HtmlFacts.
Import Html PyStrFacts ReFacts ShapeFacts SubFacts.

Lemma in_all_ascii (c : ascii) : In c all_ascii.
Proof.
  unfold all_ascii. rewrite <- (ascii_nat_embedding c).
  apply in_map, in_seq. pose proof (nat_ascii_bounded c). lia.
Qed.

(** A pattern that needs a character matches only texts that hold one. *)
Lemma needs_sound (bad : ascii -> bool) (r : re) (w : str) :
  needs bad r = true -> lang r w -> exists c, In c w /\ bad c = true.
Proof.
  intros Hn L. induction L; cbn [needs] in Hn; try discriminate.
  - exists c. split; [now left|].
    rewrite forallb_forall in Hn. specialize (Hn c (in_all_ascii c)).
    rewrite H in Hn. exact Hn.
  - apply orb_true_iff in Hn as [Hn|Hn].
    + destruct (IHL1 Hn) as (c & Hc & Hb). exists c. split; [|exact Hb].
      apply in_or_app. now left.
    + destruct (IHL2 Hn) as (c & Hc & Hb). exists c. split; [|exact Hb].
      apply in_or_app. now right.
  - apply andb_true_iff in Hn as [Hn _]. auto.
  - apply andb_true_iff in Hn as [_ Hn]. auto.
  - auto.
Qed.

(** What a match consumed is a text of the pattern, and what a group holds
    is a text of a body of that group. *)
Lemma exec_lang (r : re) (p : option ascii) (s : str) (m : mstate) :
  exec r p s = Some m ->
  exists w, lang r w /\ s = w ++ rest m
            /\ forall n u, group n m = Some u ->
                 exists b, In b (group_bodies n r) /\ lang b u.
Proof.
  intros H. unfold exec in H.
  apply rmatch_sound in H as (st1 & (w & new & L & R & _ & C & G) & [= <-]).
  exists w. simpl in R, C. repeat split; auto.
  intros n u Hu. unfold group in Hu. rewrite C, app_nil_r in Hu.
  apply G with (u := u). clear -Hu.
  induction new as [|[i v] new IH]; [discriminate|].
  simpl in Hu. destruct (Nat.eqb i n) eqn:E.
  - apply Nat.eqb_eq in E. injection Hu as <-. subst. now left.
  - right. auto.
Qed.

(** A pattern that needs a character of [bad] leaves a text without such
    characters as it is. *)
Lemma re_sub_plain (bad : ascii -> bool) (r : re) (repl : mstate -> str) (s : str) :
  needs bad r = true -> forallb (fun c => negb (bad c)) s = true ->
  re_sub r repl s = s.
Proof.
  intros Hn Hs. apply re_sub_no_hit. intros a b p -> .
  destruct (exec r p b) as [m|] eqn:E; [exfalso|reflexivity].
  apply exec_lang in E as (w & L & -> & _).
  destruct (needs_sound _ Hn L) as (c & Hc & Hb).
  rewrite forallb_forall in Hs.
  assert (Hin : In c (a ++ w ++ rest m)).
  { apply in_or_app. right. apply in_or_app. now left. }
  apply Hs in Hin. rewrite Hb in Hin. discriminate.
Qed.

(** [re.sub] brings only characters of the text and of the replacements. *)
Lemma scan_forall (P : ascii -> Prop) (r : re) (repl : mstate -> str) :
  (forall p t m, exec r p t = Some m -> Forall P t -> Forall P (repl m)) ->
  forall s p skip, Forall P s -> Forall P (flat_map (emit repl) (scan r p s skip)).
Proof.
  intros H. induction s as [|c s IH]; intros p skip Hs.
  - destruct skip; [|constructor]. simpl.
    destruct (exec r p []) as [m|] eqn:E; [|constructor].
    simpl. rewrite app_nil_r. now apply (H _ _ _ E).
  - destruct skip as [|k]; [|inversion Hs; now apply IH].
    cbn [scan]. destruct (exec r p (c :: s)) as [m|] eqn:E.
    + cbn [flat_map emit]. apply Forall_app. split; [now apply (H _ _ _ E)|].
      rewrite flat_map_app. apply Forall_app. inversion Hs; subst. split.
      * destruct (Nat.eqb _ 0); simpl; auto.
      * now apply IH.
    + cbn [flat_map emit]. inversion Hs; subst.
      constructor; [assumption|now apply IH].
Qed.

Lemma re_sub_forall (P : ascii -> Prop) (r : re) (repl : mstate -> str) (s : str) :
  (forall p t m, exec r p t = Some m -> Forall P t -> Forall P (repl m)) ->
  Forall P s -> Forall P (re_sub r repl s).
Proof. intros H Hs. rewrite re_sub_emit. now apply scan_forall. Qed.

(** Replacing a character everywhere leaves none of it. *)
Lemma replace_char_gone (c : ascii) (new s : str) :
  Forall (fun x => x <> c) new -> Forall (fun x => x <> c) (replace [c] new s).
Proof.
  intros Hn. unfold replace.
  induction s as [|x s IH]; [constructor|].
  cbn [replace_go]. destruct (startswith [c] (x :: s)) eqn:E.
  - apply Forall_app. split; [exact Hn|exact IH].
  - constructor; [|exact IH]. intros ->. simpl in E.
    rewrite Ascii.eqb_refl in E. destruct s; discriminate.
Qed.

Lemma tag_name_plain (names : list str) (u : str) :
  Forall no_newline names -> lang (Alts (map lit names)) u -> no_newline u.
Proof.
  intros Hf L. apply lang_alts in L as (r & Hin & L).
  apply in_map_iff in Hin as (x & <- & Hx). apply lang_lit in L. subst u.
  rewrite Forall_forall in Hf. now apply Hf.
Qed.

Lemma backref_tag (r : re) (names : list str) (p : option ascii) (t : str) (m : mstate) :
  group_bodies 1 r = [Alts (map lit names)] -> Forall no_newline names ->
  exec r p t = Some m -> no_newline (backref 1 m).
Proof.
  intros Hg Hf E. unfold backref. destruct (group 1 m) as [u|] eqn:G; [|constructor].
  apply exec_lang in E as (w & _ & _ & Hc).
  destruct (Hc _ _ G) as (b & Hb & L). rewrite Hg in Hb.
  destruct Hb as [<-|[]]. now apply (@tag_name_plain names).
Qed.

Lemma no_newline_b (s : str) :
  forallb (fun x => negb (Ascii.eqb x newline)) s = true -> no_newline s.
Proof.
  intros H. apply Forall_forall. intros x Hx ->.
  rewrite forallb_forall in H. apply H in Hx.
  rewrite Ascii.eqb_refl in Hx. discriminate.
Qed.

(** X18: the HTML that the filter gives is on one line: every line break
    of the text has become a break tag or has been dropped next to a list,
    a rule or a quotation, and no replacement brings a new one. *)
Theorem md_to_html_one_line (text : str) : no_newline (md_to_html text).
Proof.
  unfold md_to_html. destruct (negb (nonempty text)); [constructor|].
  cbv zeta.
  apply re_sub_forall.
  { intros p t m _ _. now apply no_newline_b. }
  apply re_sub_forall.
  { intros p t m E _. unfold br_after.
    apply Forall_app. split; [now apply no_newline_b|].
    apply Forall_app. split; [|now apply no_newline_b].
    apply (@backref_tag br_after_re ["ul"; "ol"; "blockquote"] p t m);
      [reflexivity| |exact E].
    repeat constructor; discriminate. }
  apply re_sub_forall.
  { intros p t m E _. unfold br_before.
    apply Forall_app. split; [now apply no_newline_b|].
    apply (@backref_tag br_before_re ["ul"; "ol"; "hr"; "blockquote"] p t m);
      [reflexivity| |exact E].
    repeat constructor; discriminate. }
  apply replace_char_gone. now apply no_newline_b.
Qed.

Lemma plain_no_newline (text : str) :
  forallb (fun c => negb (markup c)) text = true -> ~ contains [newline] text.
Proof.
  intros H (u & v & ->). rewrite forallb_forall in H.
  assert (Hin : In newline (u ++ [newline] ++ v)).
  { apply in_or_app. right. now left. }
  apply H in Hin. discriminate.
Qed.

(** X19: a text without the characters that the filter gives a meaning to
    (the number sign, the hyphen, the greater-than and less-than signs, the
    asterisk, the digits and the line break) is returned as it is. *)
Theorem md_to_html_plain (text : str) :
  forallb (fun c => negb (markup c)) text = true -> md_to_html text = text.
Proof.
  intros H. unfold md_to_html. destruct text as [|c text]; [reflexivity|].
  cbn [nonempty negb]. cbv zeta.
  set (t := c :: text) in *.
  repeat (rewrite (fun r repl Hn => @re_sub_plain markup r repl t Hn H)
            by (vm_compute; reflexivity)).
  rewrite replace_absent; [|discriminate|now apply plain_no_newline].
  repeat (rewrite (fun r repl Hn => @re_sub_plain markup r repl t Hn H)
            by (vm_compute; reflexivity)).
  reflexivity.
Qed.

Lemma md_to_html_plain_witness :
  md_to_html "The accused was acquitted." = "The accused was acquitted.".
Proof. apply md_to_html_plain. reflexivity. Defined.

End HtmlFacts.


(** * Pagination and the classifying queries *)

Module PageFacts.
Import Analytics PyStrFacts.
Local Open Scope Z_scope.

Lemma firstn_add_skip {A : Type} (a b : nat) (l : list A) :
  firstn (a + b) l = firstn a l ++ firstn b (skipn a l).
Proof.
  revert l. induction a as [|a IH]; intros l; [reflexivity|].
  destruct l as [|x l]; simpl; [now rewrite firstn_nil|].
  f_equal. apply IH.
Qed.

Lemma fits64_spec (n : Z) : fits64 n = true <-> - 2 ^ 63 <= n < 2 ^ 63.
Proof. unfold fits64. rewrite andb_true_iff, Z.leb_le, Z.ltb_lt. tauto. Qed.

(** The call for a page of a positive size, within the range of the
    parameters. *)
Lemma get_page (A : Type) (selection : list A) (page page_size : Z) :
  0 < page_size < 2 ^ 63 -> - 2 ^ 63 <= (page - 1) * page_size < 2 ^ 63 ->
  get_paginated_records selection page page_size
  = Some (PageResult
            (firstn (Z.to_nat page_size)
                    (skipn (Z.to_nat ((page - 1) * page_size)) selection))
            (Z.of_nat (length selection)) page page_size
            ((Z.of_nat (length selection) + page_size - 1) / page_size)).
Proof.
  intros Hs Ho. unfold get_paginated_records, limit_offset.
  assert (F1 : fits64 page_size = true) by (apply fits64_spec; lia).
  assert (F2 : fits64 ((page - 1) * page_size) = true) by (now apply fits64_spec).
  rewrite F1, F2. cbn [andb negb].
  destruct (Z.ltb_spec page_size 0); [lia|].
  destruct (Z.eqb_spec page_size 0); [lia|]. reflexivity.
Qed.

Lemma pages_prefix (A : Type) (selection : list A) (page_size : Z) (k : nat) :
  0 < page_size -> Z.of_nat k * page_size < 2 ^ 63 ->
  flat_map (fun p => page_rows selection (Z.of_nat p) page_size) (seq 1 k)
  = firstn (k * Z.to_nat page_size) selection.
Proof.
  intros Hs. induction k as [|k IH]; intros Hk; [reflexivity|].
  rewrite seq_S, flat_map_app, IH by nia.
  cbn [flat_map]. rewrite app_nil_r. unfold page_rows.
  rewrite get_page by nia. cbn [cases].
  replace (Z.to_nat ((Z.of_nat (1 + k) - 1) * page_size))
    with (k * Z.to_nat page_size)%nat by nia.
  replace (S k * Z.to_nat page_size)%nat
    with (k * Z.to_nat page_size + Z.to_nat page_size)%nat by lia.
  now rewrite firstn_add_skip.
Qed.

(** X20: the pages of a positive size partition what the query selects.
    Shown one after the other, the pages from 1 to [total_pages] give every
    selected row once, in the order of the query; each of these pages holds
    at least one row and at most [page_size] rows, and every later page is
    empty. *)
Theorem pages_cover_selection (A : Type) (selection : list A) (page_size : Z) :
  0 < page_size -> Z.of_nat (length selection) + page_size < 2 ^ 63 ->
  exists r,
    get_paginated_records selection 1 page_size = Some r
    /\ all_pages selection page_size = selection
    /\ (forall p, 1 <= p <= total_pages r ->
          page_rows selection p page_size <> []
          /\ Z.of_nat (length (page_rows selection p page_size)) <= page_size)
    /\ (forall p, total_pages r < p -> (p - 1) * page_size < 2 ^ 63 ->
          exists r', get_paginated_records selection p page_size = Some r'
                     /\ cases r' = []).
Proof.
  intros Hs Hn.
  set (n := Z.of_nat (length selection)) in *.
  set (tp := (n + page_size - 1) / page_size).
  assert (Hn0 : 0 <= n) by (subst n; lia).
  assert (Htp : (tp - 1) * page_size < n <= tp * page_size).
  { subst tp. pose proof (Z.div_mod (n + page_size - 1) page_size ltac:(lia)) as D.
    pose proof (Z.mod_pos_bound (n + page_size - 1) page_size Hs) as B. nia. }
  assert (Htp0 : 0 <= tp) by nia.
  eexists. split; [apply get_page; lia|]. cbn [total_pages]. fold n. fold tp.
  split; [|split].
  - unfold all_pages. rewrite get_page by lia. cbn [total_pages]. fold n. fold tp.
    rewrite pages_prefix by nia.
    apply firstn_all2. subst n. nia.
  - intros p Hp. unfold page_rows. rewrite get_page by nia. cbn [cases].
    split.
    + intros E. apply (f_equal (@length A)) in E.
      rewrite length_firstn, length_skipn in E. simpl in E. subst n. nia.
    + rewrite length_firstn. lia.
  - intros p Hp Hf. eexists. split; [apply get_page; nia|]. cbn [cases].
    rewrite skipn_all2; [apply firstn_nil|]. subst n. nia.
Qed.

Lemma pages_cover_selection_witness :
  all_pages [1; 2; 3; 4; 5; 6; 7] 3 = [1; 2; 3; 4; 5; 6; 7].
Proof.
  destruct (@pages_cover_selection Z [1; 2; 3; 4; 5; 6; 7] 3) as (r & _ & E & _);
    [lia | simpl; lia | exact E].
Defined.

(** X21: a page number below 1 is not refused: the offset it gives is
    negative, which the query reads as no offset, so that page 0 and every
    negative page show the rows of page 1. *)
Theorem page_below_one_is_first (A : Type) (selection : list A) (page page_size : Z) :
  page <= 0 -> 0 < page_size < 2 ^ 63 -> - 2 ^ 63 <= (page - 1) * page_size ->
  exists r,
    get_paginated_records selection page page_size = Some r
    /\ cases r = firstn (Z.to_nat page_size) selection
    /\ cases r = page_rows selection 1 page_size.
Proof.
  intros Hp Hs Ho. eexists. split; [apply get_page; nia|]. cbn [cases].
  replace (Z.to_nat ((page - 1) * page_size)) with 0%nat by nia.
  split; [reflexivity|].
  unfold page_rows. rewrite get_page by lia. reflexivity.
Qed.

Lemma page_below_one_is_first_witness :
  page_rows [1; 2; 3; 4; 5; 6; 7] (-2) 3 = [1; 2; 3].
Proof.
  destruct (@page_below_one_is_first Z [1; 2; 3; 4; 5; 6; 7] (-2) 3) as (r & E & C & _);
    [lia | lia | lia |].
  unfold page_rows. rewrite E. exact C.
Defined.

End PageFacts.


Module QueryFacts.
Import Models Analytics PyStrFacts ModelFacts.

Lemma drop_while_all (p : ascii -> bool) (s : str) :
  forallb p s = true -> drop_while p s = [].
Proof.
  induction s as [|c s IH]; [reflexivity|]. simpl.
  intros H. apply andb_true_iff in H as [-> H]. auto.
Qed.

Lemma strip_blank (s : str) : forallb is_space s = true -> py_strip (lower s) = [].
Proof.
  intros H. unfold py_strip, strip_by, lstrip_by, rstrip_by.
  rewrite (@drop_while_all is_space (lower s)); [reflexivity|].
  unfold lower. rewrite forallb_forall in *. intros x Hx.
  apply in_map_iff in Hx as (y & <- & Hy). rewrite lower_c_space. auto.
Qed.


Lemma contains_self (x : str) : contains x x.
Proof. exists [], []. simpl. now rewrite app_nil_r. Qed.

(** A text that is one of the values of a list holds that value. *)
Lemma mem_marked (values : list str) (t : str) :
  existsb (str_eqb t) values = true ->
  existsb (fun m => str_in m t) values = true.
Proof.
  intros H. apply existsb_exists in H as (m & Hin & E).
  apply str_eqb_spec in E. subst m.
  apply existsb_exists. exists t. split; [exact Hin|].
  apply str_in_spec, contains_self.
Qed.

Lemma strip_invalid_date (t : str) :
  existsb (str_eqb t) invalid_dates = true -> py_strip t = t.
Proof.
  intros H. apply existsb_exists in H as (m & Hin & E).
  apply str_eqb_spec in E. subst m.
  cbn [invalid_dates In] in Hin.
  repeat (destruct Hin as [<-|Hin]; [reflexivity|]). contradiction.
Qed.

Lemma pending_sql_active (c : Case) :
  pending_sql (date c) (sentence_issued c) = true -> is_active c = true.
Proof.
  unfold pending_sql, is_active, has_date, has_valid_sentence, missing_or_in.
  intros H. apply andb_true_iff in H as [Hd Hs].
  assert (D : nonempty (py_strip (lower (or_empty (date c))))
              && negb (existsb (fun d => str_in d (py_strip (lower (or_empty (date c)))))
                               invalid_dates) = false).
  { destruct (date c) as [d|]; [|reflexivity]. cbn [or_empty].
    destruct d as [|x d]; [reflexivity|]. cbn [nonempty negb orb] in Hd.
    change (existsb (str_eqb (lower (x :: d))) invalid_dates = true) in Hd.
    rewrite (strip_invalid_date _ Hd), (mem_marked _ _ Hd).
    apply andb_false_r. }
  assert (S : nonempty (lower (or_empty (sentence_issued c)))
              && negb (existsb (fun m => str_in m (lower (or_empty (sentence_issued c))))
                               invalid_markers) = false).
  { destruct (sentence_issued c) as [s|]; [|reflexivity]. cbn [or_empty].
    destruct s as [|x s]; [reflexivity|]. cbn [nonempty negb orb] in Hs.
    change (existsb (str_eqb (lower (x :: s))) invalid_markers = true) in Hs.
    rewrite (mem_marked _ _ Hs). apply andb_false_r. }
  rewrite D, S. reflexivity.
Qed.

(** X22: a row that the queries count as pending is an active case of the
    model, with the verdict Pending: where [IS_ACTIVE_SQL] gives 1 or
    [VERDICT_SQL] gives Pending, [Case.is_active] is true and [Case.verdict]
    is Pending. *)
Theorem sql_pending_is_model_pending (c : Case) :
  IS_ACTIVE_SQL (date c) (sentence_issued c) = 1%Z
  \/ VERDICT_SQL (date c) (sentence_issued c) (summary c) = "Pending" ->
  is_active c = true /\ verdict c = "Pending".
Proof.
  intros H.
  assert (P : pending_sql (date c) (sentence_issued c) = true).
  { destruct H as [H|H]; revert H; unfold IS_ACTIVE_SQL, VERDICT_SQL;
      destruct (pending_sql _ _); [reflexivity|discriminate|reflexivity|].
    repeat match goal with
           | |- context [if ?b then _ else _] => destruct b
           end; discriminate. }
  apply pending_sql_active in P. split; [exact P|].
  unfold verdict. rewrite P. reflexivity.
Qed.

Lemma sql_pending_is_model_pending_witness :
  let c := {| date := Some "Not Specified"; sentence_issued := None;
              summary := Some "The accused was convicted." |} in
  is_active c = true /\ verdict c = "Pending".
Proof.
  intros c. apply (@sql_pending_is_model_pending c). left. reflexivity.
Defined.

(** X23: the converse fails, since the query compares the whole date with
    its markers where the model trims the date and looks for the markers
    inside.  Without a sentence, a date of blanks only, or a longer date
    that holds a marker, makes the case active and Pending in the model,
    while [IS_ACTIVE_SQL] gives 0 and [VERDICT_SQL] a verdict other than
    Pending. *)
Theorem model_pending_not_sql_pending (c : Case) (d : str) :
  date c = Some d -> sentence_issued c = None ->
  (nonempty d = true /\ forallb is_space d = true)
  \/ (exists m, In m invalid_dates /\ contains_ci m d
                /\ ~ In (lower d) invalid_dates) ->
  (is_active c = true /\ verdict c = "Pending")
  /\ IS_ACTIVE_SQL (date c) (sentence_issued c) = 0%Z
  /\ VERDICT_SQL (date c) (sentence_issued c) (summary c) <> "Pending".
Proof.
  intros Hd Hs H.
  assert (A : is_active c = true).
  { unfold is_active, has_date, has_valid_sentence. rewrite Hd, Hs. cbn [or_empty].
    destruct H as [[_ Hb]|(m & Hin & Hc & _)].
    - rewrite (strip_blank _ Hb). reflexivity.
    - assert (M : existsb (fun x => str_in x (py_strip (lower d))) invalid_dates = true).
      { apply existsb_exists. exists m. split; [exact Hin|].
        apply str_in_spec. apply contains_lower in Hc.
        destruct Hc as (u & v & E).
        assert (Hm : exists x m' y, m = x :: m' ++ [y]
                       /\ is_space x = false /\ is_space y = false).
        { cbn [invalid_dates In] in Hin.
          repeat (destruct Hin as [<-|Hin];
                  [eexists _, _, _; split;
                   [ match goal with
                     | |- ?a :: ?l = _ :: _ ++ [_] =>
                         change (a :: l) with (a :: removelast l ++ [last l a])
                     end; reflexivity
                   | split; reflexivity ]|]).
          contradiction. }
        destruct Hm as (x & m' & y & -> & Hx & Hy). rewrite E.
        apply (@strip_by_keeps is_space u x m' y v Hx Hy). }
      rewrite M. rewrite andb_false_r. reflexivity. }
  assert (P : pending_sql (date c) (sentence_issued c) = false).
  { unfold pending_sql, missing_or_in. rewrite Hd, Hs. rewrite andb_true_r.
    destruct H as [[Hn Hb]|(m & Hin & Hc & Hnot)].
    - rewrite Hn. cbn [negb orb].
      apply existsb_false_forall. intros x Hx.
      destruct (str_eqb (lower d) x) eqn:E; [|reflexivity].
      apply str_eqb_spec in E.
      pose proof (strip_blank _ Hb) as B. rewrite E in B.
      cbn [invalid_dates In] in Hx.
      repeat (destruct Hx as [<-|Hx]; [discriminate B|]). contradiction.
    - assert (Hn : nonempty d = true).
      { apply (@contains_ci_nonempty m); [|exact Hc].
        intros ->. cbn [invalid_dates In] in Hin.
        repeat (destruct Hin as [Hin|Hin]; [discriminate Hin|]). contradiction. }
      rewrite Hn. cbn [negb orb].
      apply existsb_false_forall. intros x Hx.
      destruct (str_eqb (lower d) x) eqn:E; [|reflexivity].
      apply str_eqb_spec in E. exfalso. apply Hnot. now rewrite E. }
  split; [split; [exact A|unfold verdict; now rewrite A]|].
  unfold IS_ACTIVE_SQL, VERDICT_SQL. rewrite P. split; [reflexivity|].
  repeat match goal with
         | |- context [if ?b then _ else _] => destruct b
         end; discriminate.
Qed.

Lemma model_pending_not_sql_pending_witness :
  let c := {| date := Some "Date not specified"; sentence_issued := None;
              summary := None |} in
  verdict c = "Pending"
  /\ VERDICT_SQL (date c) (sentence_issued c) (summary c) = "Decided".
Proof.
  intros c.
  destruct (@model_pending_not_sql_pending c "Date not specified" eq_refl eq_refl)
    as [[_ V] _].
  - right. exists "not specified". split; [|split].
    + cbn [invalid_dates In]. tauto.
    + exists "Date ", "not specified", []. split; reflexivity.
    + cbn [invalid_dates In]. intros H.
      repeat (destruct H as [H|H]; [discriminate H|]). contradiction.
  - split; [exact V|reflexivity].
Defined.



End QueryFacts.


(** * The credentials *)

Module AuthFacts.
Import Auth PyStrFacts TableFacts.

Lemma creds_get_put_same (k : str) (u : user) (c : creds) :
  creds_get k (creds_put k u c) = Some u.
Proof.
  induction c as [|[k' u'] c IH]; simpl.
  - now rewrite str_eqb_refl.
  - destruct (str_eqb k k') eqn:E; simpl; rewrite E; [reflexivity|exact IH].
Qed.

Lemma creds_get_put_other (k k' : str) (u : user) (c : creds) :
  k' <> k -> creds_get k' (creds_put k u c) = creds_get k' c.
Proof.
  intros Hne. induction c as [|[k2 u2] c IH]; simpl.
  - now rewrite (str_eqb_neq Hne).
  - destruct (str_eqb k k2) eqn:E; simpl.
    + apply str_eqb_spec in E. subst k2. now rewrite (str_eqb_neq Hne).
    + now rewrite IH.
Qed.

Lemma creds_get_pop_same (k : str) (c : creds) : creds_get k (creds_pop k c) = None.
Proof.
  induction c as [|[k' u'] c IH]; [reflexivity|].
  unfold creds_pop in *. simpl. destruct (str_eqb k k') eqn:E; simpl; [exact IH|].
  now rewrite E.
Qed.

Lemma creds_get_pop_other (k k' : str) (c : creds) :
  k' <> k -> creds_get k' (creds_pop k c) = creds_get k' c.
Proof.
  intros Hne. induction c as [|[k2 u2] c IH]; [reflexivity|].
  unfold creds_pop in *. simpl. destruct (str_eqb k k2) eqn:E; simpl.
  - apply str_eqb_spec in E. subst k2. now rewrite (str_eqb_neq Hne).
  - now rewrite IH.
Qed.

Lemma creds_mem_get (k : str) (c : creds) :
  creds_mem k c = false -> creds_get k c = None.
Proof.
  induction c as [|[k' u'] c IH]; [reflexivity|].
  unfold creds_mem in *. simpl. intros H.
  apply orb_false_iff in H as [-> H]. auto.
Qed.

Lemma nonempty_length (s : str) (n : nat) :
  (length s <? S n)%nat = false -> nonempty s = true.
Proof. destruct s; [discriminate|reflexivity]. Qed.

Section Bcrypt.

Variable hashpw : str -> str -> option str.
Variable checkpw : str -> str -> option bool.

Lemma load_again (salt0 : str) (c : creds) :
  _load_credentials hashpw salt0 (Some c) = Some (c, Some c).
Proof. reflexivity. Qed.

Lemma load_shape (salt0 : str) (file file1 : option creds) (c : creds) :
  _load_credentials hashpw salt0 file = Some (c, file1) ->
  file1 = Some c
  /\ (file1 = file
      \/ (file = None /\ exists h, hashpw "admin123" salt0 = Some h
                                   /\ file1 = Some (default_creds h))).
Proof.
  unfold _load_credentials, _hash_password. destruct file as [c0|].
  - intros [= <- <-]. auto.
  - destruct (hashpw "admin123" salt0) as [h|] eqn:E; [|discriminate].
    intros [= <- <-]. split; [reflexivity|]. right. eauto.
Qed.

(** The login of a user whose record holds a hash that the password
    passes. *)
Lemma login_ok (s0 s : str) (username password : str) (c : creds) (u : user) (h : str) :
  nonempty username = true -> nonempty password = true ->
  creds_get username c = Some u -> is_user u = true ->
  dict_get "password_hash" u = Some h ->
  _verify_password checkpw password h = true ->
  authenticate_user hashpw checkpw s0 s username password (Some c)
  = (Some true, Some c).
Proof.
  intros Hu Hp Hg Hi Hh Hv. unfold authenticate_user.
  rewrite Hu, Hp. cbn [negb orb]. rewrite load_again, Hg, Hi. cbn [negb].
  now rewrite Hh, Hv.
Qed.

Lemma login_unknown (s0 s : str) (username password : str) (c : creds) :
  creds_get username c = None ->
  fst (authenticate_user hashpw checkpw s0 s username password (Some c)) <> Some true.
Proof.
  intros Hg. unfold authenticate_user.
  destruct (negb (nonempty username) || negb (nonempty password)); [discriminate|].
  rewrite load_again, Hg. destruct (_hash_password hashpw s "dummy"); discriminate.
Qed.

(** X25: a change of user name moves the account and nothing else.  When
    [change_username] succeeds, the new name logs in with the password
    given, and holds the record (hash and display name) that the old name
    held; the old name, if different, is gone and no password logs it in;
    the records of all other users are as before; and the new name was the
    old one or was free. *)
Theorem change_username_moves_account (salt0 cur new pw : str)
  (file file' : option creds) (msg : str) :
  change_username hashpw checkpw salt0 cur new pw file = (Some (true, msg), file') ->
  exists creds0,
    _load_credentials hashpw salt0 file = Some (creds0, Some creds0)
    /\ (forall s0 s,
          authenticate_user hashpw checkpw s0 s new pw file' = (Some true, file'))
    /\ stored file' new = creds_get cur creds0
    /\ (new <> cur ->
          stored file' cur = None
          /\ forall s0 s pw',
               fst (authenticate_user hashpw checkpw s0 s cur pw' file') <> Some true)
    /\ (forall u, u <> cur -> u <> new -> stored file' u = creds_get u creds0)
    /\ (new = cur \/ creds_mem new creds0 = false).
Proof.
  unfold change_username. intros H.
  destruct (negb (nonempty new) || negb (nonempty pw)) eqn:E1; [discriminate|].
  destruct (length new <? 3)%nat eqn:E2; [discriminate|].
  destruct (_load_credentials hashpw salt0 file) as [[creds0 file1]|] eqn:L;
    [|discriminate].
  destruct (creds_get cur creds0) as [u|] eqn:G; [|discriminate].
  destruct (negb (is_user u)) eqn:I; [discriminate|].
  destruct (dict_get "password_hash" u) as [h|] eqn:Hh; [|discriminate].
  destruct (negb (_verify_password checkpw pw h)) eqn:V; [discriminate|].
  destruct (creds_mem new creds0 && negb (str_eqb new cur)) eqn:M; [discriminate|].
  injection H as _ <-.
  apply orb_false_iff in E1 as [N1 N2].
  apply negb_false_iff in N1, N2, I, V.
  destruct (load_shape _ _ L) as [-> _].
  exists creds0. split; [reflexivity|]. cbn [stored].
  split; [|split; [|split; [|split]]].
  - intros s0 s. apply (@login_ok s0 s new pw _ u h); auto.
    apply creds_get_put_same.
  - rewrite G. apply creds_get_put_same.
  - intros Hne.
    assert (K : creds_get cur (creds_put new u (creds_pop cur creds0)) = None).
    { rewrite creds_get_put_other by congruence. apply creds_get_pop_same. }
    split; [exact K|]. intros s0 s pw'. now apply login_unknown.
  - intros x Hx1 Hx2.
    rewrite creds_get_put_other by exact Hx2. now apply creds_get_pop_other.
  - apply andb_false_iff in M as [M|M]; [now right|left].
    apply negb_false_iff, str_eqb_spec in M. exact M.
Qed.

(** X26: a refused change writes nothing.  When [change_password] or
    [change_username] returns without success, or raises, the file is as it
    was, but for a missing file, which the reading has created with the
    default administrator. *)
Theorem refused_change_keeps_accounts (salt0 salt a b c : str)
  (file file' : option creds) (r : option (bool * str)) :
  change_password hashpw checkpw salt0 salt a b c file = (r, file')
  \/ change_username hashpw checkpw salt0 a b c file = (r, file') ->
  (forall msg, r <> Some (true, msg)) ->
  file' = file
  \/ (file = None /\ exists h, hashpw "admin123" salt0 = Some h
                               /\ file' = Some (default_creds h)).
Proof.
  intros H Hr.
  destruct H as [H|H]; revert H; [unfold change_password|unfold change_username].
  - destruct (_ || _); [intros [= _ <-]; now left|].
    destruct (_ <? _)%nat; [intros [= _ <-]; now left|].
    destruct (_load_credentials hashpw salt0 file) as [[creds0 file1]|] eqn:L;
      [|intros [= _ <-]; now left].
    destruct (load_shape _ _ L) as [_ K].
    destruct (creds_get a creds0) as [u|]; [|intros [= _ <-]; exact K].
    destruct (negb (is_user u)); [intros [= _ <-]; exact K|].
    destruct (dict_get "password_hash" u) as [h|]; [|intros [= _ <-]; exact K].
    destruct (negb (_verify_password checkpw b h)); [intros [= _ <-]; exact K|].
    destruct (_hash_password hashpw salt c); [|intros [= _ <-]; exact K].
    intros [= <- _]. now destruct (Hr "Password changed successfully.").
  - destruct (_ || _); [intros [= _ <-]; now left|].
    destruct (_ <? _)%nat; [intros [= _ <-]; now left|].
    destruct (_load_credentials hashpw salt0 file) as [[creds0 file1]|] eqn:L;
      [|intros [= _ <-]; now left].
    destruct (load_shape _ _ L) as [_ K].
    destruct (creds_get a creds0) as [u|]; [|intros [= _ <-]; exact K].
    destruct (negb (is_user u)); [intros [= _ <-]; exact K|].
    destruct (dict_get "password_hash" u) as [h|]; [|intros [= _ <-]; exact K].
    destruct (negb (_verify_password checkpw c h)); [intros [= _ <-]; exact K|].
    destruct (_ && _); [intros [= _ <-]; exact K|].
    intros [= <- _]. now destruct (Hr "Username changed successfully.").
Qed.

(** X27: after a successful [change_password], provided bcrypt accepts a
    password against its own hash, the user (of a non-empty name) logs in
    with the new password, which has at least six characters; the other
    fields of the user's record and the records of all other users are as
    before. *)
Theorem change_password_then_login (salt0 salt username current new : str)
  (file file' : option creds) (msg : str) :
  (forall p s h, hashpw p s = Some h -> checkpw p h = Some true) ->
  username <> [] ->
  change_password hashpw checkpw salt0 salt username current new file
  = (Some (true, msg), file') ->
  (6 <= length new)%nat
  /\ (forall s0 s,
        authenticate_user hashpw checkpw s0 s username new file' = (Some true, file'))
  /\ exists creds0 user0 user1,
       _load_credentials hashpw salt0 file = Some (creds0, Some creds0)
       /\ creds_get username creds0 = Some user0
       /\ stored file' username = Some user1
       /\ (forall k, k <> "password_hash" -> dict_get k user1 = dict_get k user0)
       /\ (forall v, v <> username -> stored file' v = creds_get v creds0).
Proof.
  intros Hb Hu. unfold change_password. intros H.
  destruct (negb (nonempty current) || negb (nonempty new)) eqn:E1; [discriminate|].
  destruct (length new <? 6)%nat eqn:E2; [discriminate|].
  destruct (_load_credentials hashpw salt0 file) as [[creds0 file1]|] eqn:L;
    [|discriminate].
  destruct (creds_get username creds0) as [u|] eqn:G; [|discriminate].
  destruct (negb (is_user u)) eqn:I; [discriminate|].
  destruct (dict_get "password_hash" u) as [h|] eqn:Hh; [|discriminate].
  destruct (negb (_verify_password checkpw current h)) eqn:V; [discriminate|].
  destruct (_hash_password hashpw salt new) as [h'|] eqn:N; [|discriminate].
  injection H as _ <-.
  apply orb_false_iff in E1 as [N1 N2]. apply negb_false_iff in N1, N2.
  apply Nat.ltb_ge in E2.
  destruct (load_shape _ _ L) as [-> _].
  split; [exact E2|]. split.
  - intros s0 s.
    apply (@login_ok s0 s username new _ (dict_set "password_hash" h' u) h').
    + destruct username; [contradiction|reflexivity].
    + exact N2.
    + apply creds_get_put_same.
    + destruct (dict_set "password_hash" h' u) eqn:D; [|reflexivity].
      now apply dict_set_not_nil in D.
    + apply dict_get_set_same.
    + unfold _verify_password. now rewrite (Hb _ _ _ N).
  - exists creds0, u, (dict_set "password_hash" h' u). cbn [stored].
    split; [reflexivity|]. split; [exact G|].
    split; [apply creds_get_put_same|]. split.
    + intros k Hk. now apply dict_get_set_other.
    + intros v Hv. now apply creds_get_put_other.
Qed.

End Bcrypt.

Lemma toy_bcrypt (p s h : str) : toy_hashpw p s = Some h -> toy_checkpw p h = Some true.
Proof.
  unfold toy_hashpw, toy_checkpw, Db.endswith. intros [= <-]. f_equal.
  rewrite (rev_app_distr s).
  apply startswith_app.
Qed.

Lemma change_username_moves_account_witness :
  exists file',
    change_username toy_hashpw toy_checkpw "s0" "clerk" "registrar" "records" sample_file
    = (Some (true, "Username changed successfully."), file')
    /\ authenticate_user toy_hashpw toy_checkpw "s0" "s" "registrar" "records" file'
       = (Some true, file')
    /\ stored file' "clerk" = None.
Proof.
  eexists. split; [reflexivity|].
  destruct (@change_username_moves_account toy_hashpw toy_checkpw
              "s0" "clerk" "registrar" "records" sample_file _ _ eq_refl)
    as (creds0 & _ & A & _ & B & _).
  split; [apply A|]. apply B. discriminate.
Defined.

Lemma refused_change_keeps_accounts_witness :
  snd (change_username toy_hashpw toy_checkpw "s0" "clerk" "admin" "records" sample_file)
  = sample_file.
Proof.
  destruct (@refused_change_keeps_accounts toy_hashpw toy_checkpw
              "s0" "s" "clerk" "admin" "records" sample_file sample_file
              (Some (false, "Username already exists.")))
    as [E|[E _]].
  - right. reflexivity.
  - intros msg. discriminate.
  - reflexivity.
  - discriminate E.
Defined.

Lemma change_password_then_login_witness :
  exists file',
    change_password toy_hashpw toy_checkpw "s0" "s3" "clerk" "records" "archive1" sample_file
    = (Some (true, "Password changed successfully."), file')
    /\ authenticate_user toy_hashpw toy_checkpw "s0" "s" "clerk" "archive1" file'
       = (Some true, file').
Proof.
  eexists. split; [reflexivity|].
  apply (@change_password_then_login toy_hashpw toy_checkpw
           "s0" "s3" "clerk" "records" "archive1" sample_file _ _
           toy_bcrypt ltac:(discriminate) eq_refl).
Defined.

End AuthFacts.


(** * The markdown strippers *)

Module StripFacts.
Import PyStrFacts ReFacts ShapeFacts SubFacts HtmlFacts StrictDateFacts.

(** A group between two parts without that group: the match is a text of
    the first part, the text of the group, and a text of the last part. *)
Lemma rmatch_group_then (n : nat) (r1 r2 : re) (st m : mstate) :
  group_bodies n r2 = [] ->
  rmatch (Cat (Group n r1) r2) st Some = Some m ->
  exists w1 w2, rest st = w1 ++ w2 ++ rest m /\ group n m = Some w1
                /\ lang r1 w1 /\ lang r2 w2.
Proof.
  intros Hg H. cbn [rmatch] in H.
  apply rmatch_sound in H as (st1 & (w1 & new1 & L1 & R1 & _ & C1 & _) & H).
  apply rmatch_sound in H as (st2 & (w2 & new2 & L2 & R2 & _ & C2 & G2) & [= <-]).
  exists w1, w2. simpl in R2, C2. repeat split; auto.
  - now rewrite R1, R2.
  - unfold group. rewrite C2, group_of_skip.
    + simpl. rewrite Nat.eqb_refl. f_equal. rewrite R1. apply firstn_consumed.
    + intros u Hu. destruct (G2 _ _ Hu) as (b & Hb & _).
      rewrite Hg in Hb. contradiction.
Qed.

Lemma exec_mid_group (n : nat) (r0 r1 r2 : re) (p : option ascii) (s : str) (m : mstate) :
  group_bodies n r2 = [] ->
  exec (Cat r0 (Cat (Group n r1) r2)) p s = Some m ->
  exists w0 w1 w2, s = w0 ++ w1 ++ w2 ++ rest m /\ group n m = Some w1
                   /\ lang r0 w0 /\ lang r1 w1 /\ lang r2 w2.
Proof.
  intros Hg H. unfold exec in H.
  change (rmatch (Cat r0 (Cat (Group n r1) r2)) (init p s) Some)
    with (rmatch r0 (init p s) (fun st1 => rmatch (Cat (Group n r1) r2) st1 Some)) in H.
  apply rmatch_sound in H as (st1 & (w0 & new0 & L0 & R0 & _) & H).
  apply (@rmatch_group_then n r1 r2 st1 m Hg) in H as (w1 & w2 & R1 & G & L1 & L2).
  exists w0, w1, w2. simpl in R0. rewrite R0, R1. auto.
Qed.

Lemma star_free (g : greed) (w : str) :
  lang (Star g (ncls "*")) w -> filter (fun c => negb (Ascii.eqb c "*")) w = w.
Proof.
  remember (Star g (ncls "*")) as r eqn:Er. intros L.
  induction L; try discriminate; [reflexivity|].
  injection Er as -> ->. rewrite filter_app, IHL2 by reflexivity. f_equal.
  inversion L1 as [ | p y Hy | | | | | | | | | | ]; subst.
  cbn [one_of existsb] in Hy. rewrite orb_false_r in Hy.
  simpl. now rewrite Hy.
Qed.

(** X28: [strip_bold] takes asterisks away and nothing else: the other
    characters of the text are all kept, in their order, and a text
    without an asterisk is returned as it is. *)
Theorem strip_bold_keeps_text (text : str) :
  filter (fun c => negb (Ascii.eqb c "*")) (strip_bold text)
  = filter (fun c => negb (Ascii.eqb c "*")) text
  /\ (forallb (fun c => negb (Ascii.eqb c "*")) text = true -> strip_bold text = text).
Proof.
  unfold strip_bold. destruct (nonempty text); [|split; reflexivity]. split.
  - apply re_sub_filter. intros p s m E.
    apply exec_mid_group in E as (w0 & w1 & w2 & -> & G & L0 & L1 & L2);
      [|reflexivity].
    apply lang_lit in L0, L2. subst w0 w2.
    unfold backref. rewrite G.
    replace ("**" ++ w1 ++ "**" ++ rest m) with (("**" ++ w1 ++ "**") ++ rest m)
      by (rewrite <- !app_assoc; reflexivity).
    rewrite firstn_consumed.
    rewrite !filter_app. cbn [filter Ascii.eqb negb app]. now rewrite app_nil_r.
  - intros H. apply (@re_sub_plain (fun c => Ascii.eqb c "*")); [|exact H].
    vm_compute. reflexivity.
Qed.

Lemma strip_bold_keeps_text_witness :
  strip_bold "Court: High Court" = "Court: High Court".
Proof. apply (@strip_bold_keeps_text "Court: High Court"). reflexivity. Defined.

(** X29: what [strip_code_fences] returns is trimmed, and for a text
    without a backtick, a number sign or a hyphen it is the trimmed text:
    only fence lines, heading lines and rules are taken out. *)
Theorem strip_code_fences_trims (text : str) :
  py_strip (strip_code_fences text) = strip_code_fences text
  /\ (forallb (fun c => negb (one_of "`#-" c)) text = true ->
      strip_code_fences text = py_strip text).
Proof.
  unfold strip_code_fences. destruct text as [|c text]; [split; reflexivity|].
  cbn [nonempty negb]. split; [apply strip_by_idem|].
  intros H.
  repeat (rewrite (fun r repl Hn => @re_sub_plain (one_of "`#-") r repl (c :: text) Hn H)
            by (vm_compute; reflexivity)).
  reflexivity.
Qed.

Lemma strip_code_fences_trims_witness :
  strip_code_fences "  | Field | Value |  " = "| Field | Value |".
Proof.
  destruct (@strip_code_fences_trims "  | Field | Value |  ") as [_ E].
  rewrite E; reflexivity.
Defined.

End StripFacts.


(** * Severity scores: priority and values *)

Module ScoreFacts.
Import Severity SeverityFacts ShapeFacts VerboseFacts.
Local Open Scope Z_scope.

(** *** The value of a run of digits *)




(** *** The bold score line *)








(** *** Deciding the condition of the scenario on a given text *)





(** *** The priority *)


(** *** The values *)


















End ScoreFacts.


(** * District names: which results a second pass leaves alone *)

Module DistrictStableFacts.
Import District DistrictFacts TableFacts StrictDateFacts DistrictRuleFacts HtmlFacts.

Lemma lower_title_go (b : bool) (s : str) : lower (title_go b s) = lower s.
Proof.
  revert b. induction s as [|c s IH]; intros b; [reflexivity|].
  cbn [title_go]. destruct (is_lower c).
  - cbn [lower map]. fold (lower (title_go true s)) (lower s). rewrite IH.
    destruct b; [reflexivity|now rewrite lower_upper_c].
  - destruct (is_upper c); cbn [lower map];
      fold (lower (title_go true s)) (lower (title_go false s)) (lower s);
      rewrite IH; [|reflexivity].
    destruct b; [now rewrite lower_c_idem|reflexivity].
Qed.

Lemma lower_title (s : str) : lower (title s) = lower s.
Proof. apply lower_title_go. Qed.

Lemma strip_by_forall (P : ascii -> Prop) (p : ascii -> bool) (s : str) :
  Forall P s -> Forall P (strip_by p s).
Proof.
  intros H. destruct (strip_by_block p s) as (u & v & E).
  rewrite E in H. apply Forall_app in H as [_ H]. now apply Forall_app in H as [H _].
Qed.

Lemma forall_lowered (s : str) : Forall (fun c => lower_c c = c) s -> lower s = s.
Proof.
  induction 1 as [|c s Hc _ IH]; [reflexivity|]. cbn [lower map].
  fold (lower s). now rewrite Hc, IH.
Qed.

Lemma lowered_forall (s : str) : Forall (fun c => lower_c c = c) (lower s).
Proof.
  induction s as [|c s IH]; constructor; [apply lower_c_idem|exact IH].
Qed.

Lemma no_char_absent (c : ascii) (s : str) :
  Forall (fun x => x <> c) s -> ~ contains [c] s.
Proof.
  intros H (u & v & ->). apply Forall_app in H as [_ H].
  inversion H. congruence.
Qed.

(** A result of [normalize_district] is a fixed name, or the title-cased
    cleaning of the text. *)
Lemma normalize_district_result (s : option str) (r : str) :
  normalize_district s = Some r ->
  In r canonical_names \/ exists clean, r = title clean /\ cleaned clean.
Proof.
  unfold normalize_district. destruct s as [[|c0 s0]|].
  1,3: intros [= <-]; left; cbn; tauto.
  cbv zeta. set (d := lower (py_strip (c0 :: s0))).
  assert (Hd : Forall (fun c => lower_c c = c) d) by apply lowered_forall.
  clearbody d.
  repeat match goal with
         | |- (if ?b then _ else _) = _ -> _ =>
             destruct b eqn:?; [try (intros [= <-]; left; cbn; tauto); try discriminate|]
         end.
  match goal with
  | H : negb (nonempty ?x) || _ = false, H' : str_eqb ?x "r r" = false |- _ =>
      set (clean := x) in *; apply orb_false_iff in H as [H1 H2]
  end.
  intros [= <-]. right. exists clean. split; [reflexivity|].
  assert (Hl : Forall (fun c => lower_c c = c) clean).
  { apply strip_by_forall. repeat apply replace_forall; try discriminate; auto. }
  repeat split; auto.
  - intros E. rewrite E in H1. discriminate.
  - unfold clean, py_strip. apply strip_by_idem.
  - now apply forall_lowered.
  - apply no_char_absent. unfold clean. apply strip_by_forall.
    apply replace_char_gone. constructor.
Qed.

(** The cleaning of a text that holds none of the words leaves it as it
    is. *)
Lemma free_text_stable (clean : str) :
  cleaned clean ->
  (forall k, In k rule_words -> ~ contains k clean) ->
  normalize_district (Some (title clean)) = Some (title clean).
Proof.
  intros (Hne & Hs & Hl & Hdot & Hrr & Hp) Hk.
  assert (F : forall k, In k rule_words -> str_in k clean = false).
  { intros k Hin. apply str_in_false. now apply Hk. }
  unfold normalize_district.
  destruct (title clean) as [|c t] eqn:Et.
  { now apply title_not_nil in Et. }
  rewrite <- Et. cbv zeta.
  assert (Ed : lower (py_strip (title clean)) = clean).
  { now rewrite lower_strip, lower_title, Hl, Hs. }
  rewrite Ed.
  rewrite existsb_false_forall.
  2:{ intros x Hx. apply F. unfold rule_words. apply in_or_app. now left. }
  repeat match goal with
         | |- context [str_in ?k clean] =>
             rewrite (F k) by (unfold rule_words; apply in_or_app; right; cbn; tauto)
         end.
  cbn [orb].
  assert (Hdist : ~ contains "dist" clean).
  { apply Hk. unfold rule_words. apply in_or_app. right. cbn. tauto. }
  rewrite (@replace_absent "district" [] clean); [|discriminate|].
  2:{ intros K. apply Hdist. apply (contains_trans (t := "district")); [|exact K].
      exists [], "rict". reflexivity. }
  rewrite (@replace_absent "dist" [] clean); [|discriminate|exact Hdist].
  rewrite (@replace_absent "." [] clean); [|discriminate|exact Hdot].
  rewrite Hs, Hrr, Hp.
  destruct clean; [contradiction|reflexivity].
Qed.

(** C5, as the code has it: a second pass changes nothing on an input
    whose result is "Unknown", a fixed canonical name other than "Warangal"
    (which holds the alias "ranga"), or a cleaned name that holds, in lower
    case, none of the words of the rules and no "dist"; and the three
    aliases go to "Ranga Reddy". *)
Theorem normalize_district_settled_idempotent :
  (forall (s : option str) (r : str),
      normalize_district s = Some r ->
      (In r canonical_names /\ r <> "Warangal")
      \/ (forall k, In k rule_words -> ~ contains k (lower r)) ->
      normalize_district (normalize_district s) = normalize_district s)
  /\ normalize_district (Some "Cyberabad") = Some "Ranga Reddy"
  /\ normalize_district (Some "L.B Nagar") = Some "Ranga Reddy"
  /\ normalize_district (Some "Serilingampally") = Some "Ranga Reddy".
Proof.
  split; [|repeat split; reflexivity].
  intros s r E H. rewrite E.
  assert (W : (In r canonical_names /\ r <> "Warangal")
              \/ (forall k, In k rule_words -> ~ contains k (lower r))
                 /\ exists clean, r = title clean /\ cleaned clean).
  { destruct H as [H|H]; [now left|].
    destruct (normalize_district_result _ E) as [Hc|Hc]; [left|right; now split].
    split; [exact Hc|]. intros ->. apply (H "ranga").
    - unfold rule_words. apply in_or_app. left. cbn. tauto.
    - apply str_in_spec. reflexivity. }
  destruct W as [[Hc Hw]|[Hk (clean & -> & Hcl)]].
  - cbn [canonical_names In] in Hc.
    repeat (destruct Hc as [<- | Hc]; [reflexivity || now elim Hw|]).
    contradiction.
  - apply free_text_stable; [exact Hcl|].
    intros k Hin. specialize (Hk k Hin). rewrite lower_title in Hk.
    destruct Hcl as (_ & _ & Hl & _). now rewrite Hl in Hk.
Qed.

Lemma normalize_district_settled_idempotent_witness :
  normalize_district (normalize_district (Some "kurnool dist."))
  = normalize_district (Some "kurnool dist.")
  /\ normalize_district (Some "kurnool dist.") = Some "Kurnool".
Proof.
  split; [|reflexivity].
  apply (proj1 normalize_district_settled_idempotent (Some "kurnool dist.") "Kurnool").
  - reflexivity.
  - right. intros k Hk Hc. apply str_in_spec in Hc.
    unfold rule_words in Hk. cbn [ranga_reddy_aliases app In] in Hk.
    repeat (destruct Hk as [<-|Hk]; [vm_compute in Hc; discriminate|]).
    exact Hk.
Defined.

(** C5 as stated fails.  "Warangal", the result for "Hanamkonda", holds the
    alias "ranga"; the cleaning of an unmatched text can produce a text that
    a rule matches, or that still holds "dist", on the second pass; and the
    exclusion signal for "Lucknow" becomes "Unknown". *)
Lemma normalize_district_not_idempotent :
  normalize_district (normalize_district (Some "Hanamkonda"))
  <> normalize_district (Some "Hanamkonda")
  /\ normalize_district (normalize_district (Some "Ran.ga"))
     <> normalize_district (Some "Ran.ga")
  /\ normalize_district (normalize_district (Some "Di.st"))
     <> normalize_district (Some "Di.st")
  /\ normalize_district (normalize_district (Some "Lucknow"))
     <> normalize_district (Some "Lucknow").
Proof. repeat split; vm_compute; discriminate. Qed.

End DistrictStableFacts.


(** * Severity scores: the label patterns on a text *)

Module ScoreLineFacts.
Import Severity SeverityFacts ShapeFacts VerboseFacts ScoreFacts.
Local Open Scope Z_scope.










Lemma star_not_space : is_space "*" = false.
Proof. reflexivity. Qed.


(** *** The first two tiers on a text *)




(** *** The line pattern on a text *)







(** *** The scan of the line pattern *)














End ScoreLineFacts.

(** * Severity scores: the priority *)

Module PriorityFacts.
Import Severity SeverityFacts ShapeFacts VerboseFacts ScoreFacts ScoreLineFacts.
Local Open Scope Z_scope.

(** *** Deciding the conditions on a given text *)







(** *** The priority *)




End PriorityFacts.
